(** * Multi-strategy field extraction of the job-board scraper

    A shallow embedding of the field-extraction engine of

    - [new_glassdoor.py]: [JobPosting], [FieldExtractor], [LLMFieldExtractor]
      and [GlassdoorScraper._extract_single_job]; around them
      [safe_execute_with_retry], [GlassdoorScraper._collect_job_urls],
      [_extract_jobs_concurrent] and [scrape_jobs];
    - [run_glassdoor_scraper.py] (the older script): the fallback tail of
      [scrape_with_selenium], [extract_field_by_regex] and
      [extract_fields_with_llama]; its job id and its loop over the job
      links;

    followed by the properties of the engine that the specification states,
    and by further properties of the code.

    Python [str] values are sequences of Unicode code points, Python
    dictionaries are finite maps, exceptions are an explicit result type. *)

From Stdlib Require Import QArith Sorting.Sorted.
From stdpp Require Import base option list numbers strings gmap fin_maps.

Open Scope N_scope.
Set Warnings "-register-all".

(* ===================================================================== *)
(** * Python strings                                                      *)
(* ===================================================================== *)

(** A Python [str]: the list of its code points. *)
Definition pystr : Type := list N.

(** Reading a UTF-8 encoded literal of this file as a Python string. *)
Fixpoint utf8_decode (bs : list N) : pystr :=
  match bs with
  | [] => []
  | b0 :: r0 =>
      if b0 <? 128 then b0 :: utf8_decode r0
      else if b0 <? 224 then
        match r0 with
        | b1 :: r1 => ((b0 - 192) * 64 + (b1 - 128)) :: utf8_decode r1
        | _ => []
        end
      else if b0 <? 240 then
        match r0 with
        | b1 :: b2 :: r2 =>
            ((b0 - 224) * 4096 + (b1 - 128) * 64 + (b2 - 128)) :: utf8_decode r2
        | _ => []
        end
      else
        match r0 with
        | b1 :: b2 :: b3 :: r3 =>
            ((b0 - 240) * 262144 + (b1 - 128) * 4096 + (b2 - 128) * 64 + (b3 - 128))
              :: utf8_decode r3
        | _ => []
        end
  end.

Definition py (s : string) : pystr :=
  utf8_decode (map Ascii.N_of_ascii (String.list_ascii_of_string s)).

Definition is_ascii (c : N) : bool := c <? 128.

(** [str.isspace] on one character: the table behind [str.strip()] and the
    regular-expression class [\s]. *)
Definition is_space (c : N) : bool :=
  ((9 <=? c) && (c <=? 13)) || ((28 <=? c) && (c <=? 32))
  || (c =? 133) || (c =? 160) || (c =? 5760)
  || ((8192 <=? c) && (c <=? 8202))
  || (c =? 8232) || (c =? 8233) || (c =? 8239) || (c =? 8287) || (c =? 12288).

Fixpoint lstrip (s : pystr) : pystr :=
  match s with
  | c :: r => if is_space c then lstrip r else s
  | [] => []
  end.

Definition rstrip (s : pystr) : pystr := reverse (lstrip (reverse s)).

(** [s.strip()] *)
Definition strip (s : pystr) : pystr := rstrip (lstrip s).

Fixpoint lstrip_char (x : N) (s : pystr) : pystr :=
  match s with
  | c :: r => if c =? x then lstrip_char x r else s
  | [] => []
  end.

(** [s.rstrip(x)] for a one-character argument. *)
Definition rstrip_char (x : N) (s : pystr) : pystr :=
  reverse (lstrip_char x (reverse s)).

(** Python truthiness of a string. *)
Definition nonempty (s : pystr) : bool :=
  match s with [] => false | _ => true end.

Definition pystr_eqb (a b : pystr) : bool := bool_decide (a = b).

(** [sep.join(parts)] *)
Fixpoint join (sep : pystr) (parts : list pystr) : pystr :=
  match parts with
  | [] => []
  | [p] => p
  | p :: rest => p ++ sep ++ join sep rest
  end.

(** [s.split(x)] for a one-character separator: [acc] is the piece being
    read, in reverse. *)
Fixpoint split_on (x : N) (acc : pystr) (s : pystr) : list pystr :=
  match s with
  | [] => [reverse acc]
  | c :: r => if c =? x then reverse acc :: split_on x [] r
              else split_on x (c :: acc) r
  end.

Definition split_char (x : N) (s : pystr) : list pystr := split_on x [] s.

Fixpoint starts_with (p s : pystr) : bool :=
  match p, s with
  | [], _ => true
  | a :: p', b :: s' => (a =? b) && starts_with p' s'
  | _ :: _, [] => false
  end.

(** [s.replace(old, new)] for a non-empty [old]; [fuel] bounds the scan by
    the length of [s]. *)
Fixpoint replace_go (fuel : nat) (old new s : pystr) : pystr :=
  match fuel with
  | O => s
  | S fuel' =>
      match s with
      | [] => []
      | c :: r =>
          if starts_with old s
          then new ++ replace_go fuel' old new (drop (length old) s)
          else c :: replace_go fuel' old new r
      end
  end.

Definition str_replace (old new s : pystr) : pystr :=
  replace_go (S (length s)) old new s.

Definition ascii_lower (c : N) : N :=
  if (65 <=? c) && (c <=? 90) then c + 32 else c.

(** ** The Unicode character database

    What Python takes from its Unicode tables for characters outside ASCII.
    On ASCII the embedding computes; outside it asks these functions. *)
Record unicode_db := {
  u_decimal : N -> bool;        (* category Nd: the class \d *)
  u_alnum : N -> bool;          (* str.isalnum on one character: the class \w *)
  u_ieq : N -> N -> bool;       (* re.IGNORECASE: pattern char, text char *)
  u_lower : pystr -> pystr;     (* str.lower() of a string with non-ASCII *)
}.

(** A database with no digit, letter or case pair outside ASCII; it agrees
    with Unicode on ASCII text and on the currency signs used below. *)
Definition ascii_db : unicode_db :=
  {| u_decimal := fun _ => false;
     u_alnum := fun _ => false;
     u_ieq := fun _ _ => false;
     u_lower := map ascii_lower |}.

Section Unicode.
Variable U : unicode_db.

(** [\d] *)
Definition is_decimal (c : N) : bool :=
  if is_ascii c then (48 <=? c) && (c <=? 57) else u_decimal U c.

(** [\w] *)
Definition is_word (c : N) : bool :=
  if is_ascii c
  then ((48 <=? c) && (c <=? 57)) || ((65 <=? c) && (c <=? 90))
       || ((97 <=? c) && (c <=? 122)) || (c =? 95)
  else u_alnum U c.

(** [s.lower()] *)
Definition str_lower (s : pystr) : pystr :=
  if forallb is_ascii s then map ascii_lower s else u_lower U s.

(** A pattern character [p] against a text character [t] under
    [re.IGNORECASE]. *)
Definition char_ieq (p t : N) : bool :=
  (p =? t)
  || (if is_ascii p && is_ascii t then ascii_lower p =? ascii_lower t
      else u_ieq U p t).
End Unicode.


(* ===================================================================== *)
(** * Regular expressions                                                 *)
(* ===================================================================== *)

(** The fragment of Python's [re] that the patterns of the scraper use, as
    a backtracking matcher: leftmost match, alternatives in order, greedy
    repetition. *)

Inductive cset_item :=
| CChar (c : N)
| CRange (lo hi : N)
| CDigit                      (* \d *)
| CSpace                      (* \s *)
| CWord.                      (* \w *)

Inductive regex :=
| RChar (c : N)
| RAny                        (* . *)
| RSet (neg : bool) (items : list cset_item)
| RBoundary                   (* \b *)
| REmpty
| RSeq (r1 r2 : regex)
| RAlt (r1 r2 : regex)
| ROpt (r : regex)            (* r? *)
| RStar (r : regex)           (* r* *)
| RGroup (i : nat) (r : regex).

Definition RPlus (r : regex) : regex := RSeq r (RStar r).

Fixpoint rseq (rs : list regex) : regex :=
  match rs with
  | [] => REmpty
  | [r] => r
  | r :: rest => RSeq r (rseq rest)
  end.

Fixpoint ralt (rs : list regex) : regex :=
  match rs with
  | [] => REmpty
  | [r] => r
  | r :: rest => RAlt r (ralt rest)
  end.

(** A literal word of a pattern. *)
Definition lit (s : string) : regex := rseq (map RChar (py s)).

Record re_flags := { IGNORECASE : bool; DOTALL : bool }.

Definition no_flags : re_flags := {| IGNORECASE := false; DOTALL := false |}.
Definition re_IGNORECASE : re_flags := {| IGNORECASE := true; DOTALL := false |}.
Definition re_DOTALL : re_flags := {| IGNORECASE := false; DOTALL := true |}.

(** Captured groups, the most recent first. *)
Definition captures : Type := list (nat * pystr).

Fixpoint group (i : nat) (caps : captures) : option pystr :=
  match caps with
  | [] => None
  | (j, s) :: rest => if (i =? j)%nat then Some s else group i rest
  end.

Definition char_range (lo hi : N) : list N :=
  map (fun i => lo + N.of_nat i) (seq 0 (N.to_nat (hi + 1 - lo))).

Section Regex.
Variable U : unicode_db.
Variable fl : re_flags.

Definition char_test (p t : N) : bool :=
  if IGNORECASE fl then char_ieq U p t else p =? t.

Definition item_test (it : cset_item) (t : N) : bool :=
  match it with
  | CChar c => char_test c t
  | CRange lo hi =>
      if (lo <=? t) && (t <=? hi) then true
      else if IGNORECASE fl
           then existsb (fun c => char_ieq U c t) (char_range lo hi)
           else false
  | CDigit => is_decimal U t
  | CSpace => is_space t
  | CWord => is_word U t
  end.

Definition set_test (neg : bool) (items : list cset_item) (t : N) : bool :=
  xorb neg (existsb (fun it => item_test it t) items).

Definition word_at (c : option N) : bool :=
  match c with Some t => is_word U t | None => false end.

(** The iterations of [r*]: one more match of [r] that consumes something,
    then the rest of the star; else the continuation.  [fuel] bounds the
    iterations by the length of the input. *)
Fixpoint star_loop {A}
    (body : option N -> pystr -> captures ->
            (option N -> pystr -> captures -> option A) -> option A)
    (k : option N -> pystr -> captures -> option A)
    (fuel : nat) (prev : option N) (s : pystr) (caps : captures) : option A :=
  match fuel with
  | O => k prev s caps
  | S fuel' =>
      match body prev s caps
              (fun p' s' c' =>
                 if (length s' <? length s)%nat
                 then star_loop body k fuel' p' s' c' else None) with
      | Some x => Some x
      | None => k prev s caps
      end
  end.

(** [rmatch r prev s caps k]: match [r] at the head of [s], [prev] being
    the character before it, and continue with [k]; [None] makes the
    caller backtrack. *)
Fixpoint rmatch {A} (r : regex) (prev : option N) (s : pystr) (caps : captures)
    (k : option N -> pystr -> captures -> option A) {struct r} : option A :=
  match r with
  | RChar c =>
      match s with
      | t :: s' => if char_test c t then k (Some t) s' caps else None
      | [] => None
      end
  | RAny =>
      match s with
      | t :: s' => if DOTALL fl || negb (t =? 10) then k (Some t) s' caps else None
      | [] => None
      end
  | RSet neg items =>
      match s with
      | t :: s' => if set_test neg items t then k (Some t) s' caps else None
      | [] => None
      end
  | RBoundary =>
      if xorb (word_at prev) (word_at (head s)) then k prev s caps else None
  | REmpty => k prev s caps
  | RSeq r1 r2 =>
      rmatch r1 prev s caps (fun p' s' c' => rmatch r2 p' s' c' k)
  | RAlt r1 r2 =>
      match rmatch r1 prev s caps k with
      | Some x => Some x
      | None => rmatch r2 prev s caps k
      end
  | ROpt r1 =>
      match rmatch r1 prev s caps k with
      | Some x => Some x
      | None => k prev s caps
      end
  | RStar r1 => star_loop (rmatch r1) k (S (length s)) prev s caps
  | RGroup i r1 =>
      rmatch r1 prev s caps
        (fun p' s' c' => k p' s' ((i, take (length s - length s') s) :: c'))
  end.

(** A match object: group 0 is the whole match. *)
Definition match_at (r : regex) (prev : option N) (s : pystr) : option captures :=
  rmatch (RGroup 0 r) prev s [] (fun _ _ c => Some c).

Fixpoint search_from (r : regex) (prev : option N) (s : pystr) : option captures :=
  match match_at r prev s with
  | Some m => Some m
  | None =>
      match s with
      | [] => None
      | t :: s' => search_from r (Some t) s'
      end
  end.

(** [re.search(r, s, flags)] *)
Definition re_search (r : regex) (s : pystr) : option captures :=
  search_from r None s.

(** [re.sub(r, '', s)] for a pattern [r] that is one character class. *)
Definition re_sub_set (neg : bool) (items : list cset_item) (s : pystr) : pystr :=
  List.filter (fun t => negb (set_test neg items t)) s.
End Regex.

(* ===================================================================== *)
(** * The regex fallback extractor                                        *)
(* ===================================================================== *)

Definition sep_opt : regex := ROpt (RSet false [CChar 58; CChar 45]).   (* [:\-]? *)
Definition spaces : regex := RStar (RSet false [CSpace]).               (* \s* *)
Definition rest_of_line : regex := RGroup 1 (RPlus RAny).               (* (.+) *)

(** [\b(full[- ]?time|part[- ]?time|contract|internship|temporary)\b] *)
Definition jobType_pattern : regex :=
  rseq [ RBoundary;
         RGroup 1 (ralt [ rseq [lit "full"; ROpt (RSet false [CChar 45; CChar 32]); lit "time"];
                          rseq [lit "part"; ROpt (RSet false [CChar 45; CChar 32]); lit "time"];
                          lit "contract"; lit "internship"; lit "temporary" ]);
         RBoundary ].

(** [(?:Salary|Pay)[:\-]?\s*([₹$€£]?\s?[\d,\.]+(?:\s*(?:per|/)?\s*\w+)?)] *)
Definition pay_pattern : regex :=
  rseq [ ralt [lit "Salary"; lit "Pay"]; sep_opt; spaces;
         RGroup 1 (rseq [ ROpt (RSet false [CChar 8377; CChar 36; CChar 8364; CChar 163]);
                          ROpt (RSet false [CSpace]);
                          RPlus (RSet false [CDigit; CChar 44; CChar 46]);
                          ROpt (rseq [ spaces; ROpt (ralt [lit "per"; lit "/"]);
                                       spaces; RPlus (RSet false [CWord]) ]) ]) ].

(** [Work location[:\-]?\s*([A-Za-z, \-/]+)] *)
Definition workLocation_pattern : regex :=
  rseq [ lit "Work location"; sep_opt; spaces;
         RGroup 1 (RPlus (RSet false [CRange 65 90; CRange 97 122; CChar 44;
                                      CChar 32; CChar 45; CChar 47])) ].

(** [<Label>[:\-]?\s*(.+)] *)
Definition labelled_pattern (label : string) : regex :=
  rseq [ lit label; sep_opt; spaces; rest_of_line ].

(** [jl=(\d+)] *)
Definition job_id_pattern : regex :=
  rseq [ lit "jl="; RGroup 1 (RPlus (RSet false [CDigit])) ].

(** [\{.*\}] *)
Definition brace_pattern : regex := rseq [ RChar 123; RStar RAny; RChar 125 ].

(** The [patterns] table of [FieldExtractor.extract_with_regex_fallback]. *)
Definition patterns : gmap pystr regex :=
  list_to_map
    [ (py "jobType", jobType_pattern);
      (py "pay", pay_pattern);
      (py "workLocation", workLocation_pattern);
      (py "benefits", labelled_pattern "Benefits");
      (py "schedule", labelled_pattern "Schedule");
      (py "education", labelled_pattern "Education") ].

(** [FieldExtractor.extract_with_regex_fallback(text, field)] *)
Definition extract_with_regex_fallback (U : unicode_db) (text field : pystr)
    : option pystr :=
  if negb (nonempty text) then None
  else
    match patterns !! field with
    | Some pattern =>
        match re_search U re_IGNORECASE pattern text with
        | Some m => strip <$> group 1 m
        | None => None
        end
    | None => None
    end.

(* ===================================================================== *)
(** * Python values                                                       *)
(* ===================================================================== *)

(** The values that flow through the extraction: [None], strings, lists
    of strings from the segmenter, and whatever [json.loads] returns for
    the reply of the generative model.  A JSON object is kept as its list
    of members, without repeated keys. *)
Inductive value :=
| VNone
| VBool (b : bool)
| VInt (z : Z)
| VFloat (q : Q)
| VStr (s : pystr)
| VList (l : list value)
| VDict (d : list (pystr * value)).

(** Python truthiness: [bool(v)]. *)
Definition truthy (v : value) : bool :=
  match v with
  | VNone => false
  | VBool b => b
  | VInt z => negb (z =? 0)%Z
  | VFloat q => negb (Qeq_bool q 0)
  | VStr s => nonempty s
  | VList l => match l with [] => false | _ => true end
  | VDict d => match d with [] => false | _ => true end
  end.

(** [a or b] *)
Definition py_or (a b : value) : value := if truthy a then a else b.

(** [d.get(k)] on a dictionary. *)
Definition dict_get (d : gmap pystr value) (k : pystr) : value :=
  default VNone (d !! k).

Definition content_list (content : list pystr) : value := VList (map VStr content).

(* ===================================================================== *)
(** * The section segmenter                                               *)
(* ===================================================================== *)

(** A parsed document node: a text node or a tag with its children. *)
Inductive node :=
| NavigableString (s : pystr)
| Tag (name : pystr) (children : list node).

(** [tag.descendants]: the nodes below a tag, in document order. *)
Fixpoint descendants (n : node) : list node :=
  match n with
  | NavigableString _ => []
  | Tag _ cs =>
      (fix below (l : list node) : list node :=
         match l with
         | [] => []
         | c :: r => c :: descendants c ++ below r
         end) cs
  end.

(** The stripped, non-empty strings below a node, in document order. *)
Fixpoint stripped_strings (n : node) : list pystr :=
  match n with
  | NavigableString s => let t := strip s in if nonempty t then [t] else []
  | Tag _ cs =>
      (fix below (l : list node) : list pystr :=
         match l with
         | [] => []
         | c :: r => stripped_strings c ++ below r
         end) cs
  end.

(** [element.get_text(separator=sep, strip=True)] *)
Definition get_text (sep : pystr) (element : node) : pystr :=
  join sep (stripped_strings element).

(** [FieldExtractor.section_map] *)
Definition section_map : gmap pystr pystr :=
  list_to_map
    [ (py "responsibilities", py "responsibilities");
      (py "key responsibilities", py "responsibilities");
      (py "qualifications", py "qualifications");
      (py "what we're looking for", py "requirements");
      (py "what we are looking for", py "requirements");
      (py "requirements", py "requirements");
      (py "what you'll gain", py "perks");
      (py "what you will gain", py "perks");
      (py "benefits", py "benefits");
      (py "schedule", py "schedule");
      (py "job type", py "jobType");
      (py "type", py "jobType");
      (py "contract length", py "contractLength");
      (py "pay", py "pay");
      (py "stipend", py "pay");
      (py "work location", py "workLocation");
      (py "location", py "workLocation");
      (py "expected start date", py "expectedStartDate");
      (py "education", py "education");
      (py "most relevant skills", py "mostRelevantSkills");
      (py "other relevant skills", py "otherRelevantSkills");
      (py "time type", py "timeType");
      (py "job family group", py "jobFamilyGroup");
      (py "job family", py "jobFamily");
      (py "what experience is mandatory", py "mandatoryExperience");
      (py "what experience is beneficial (but optional)", py "beneficialExperience");
      (py "what we offer", py "perks");
      (py "application questions", py "applicationQuestions");
      (py "application deadline", py "applicationDeadline") ].

(** [FieldExtractor._process_section_content] *)
Definition _process_section_content (content : list pystr) : value :=
  if (length content =? 1)%nat then VStr (default [] (head content))
  else if (1 <? length content)%nat then
    if forallb (fun item => (length item <? 200)%nat) content
    then content_list content
    else VStr (join (py " ") content)
  else VStr [].

Definition header_names : list pystr :=
  [py "h1"; py "h2"; py "h3"; py "h4"; py "b"; py "strong"].
Definition content_names : list pystr := [py "p"; py "li"; py "div"].

Definition name_in (name : pystr) (names : list pystr) : bool :=
  bool_decide (name ∈ names).

(** The loop of [extract_job_description_sections], written once over the
    store [S] that receives the saved sections: [store m sec content] is
    the assignment [sections[current_section] = ...]. *)
Section Walk.
Variable U : unicode_db.
Context {S : Type} (store : S -> pystr -> list pystr -> S).

(** The loop variables. *)
Record seg_state := {
  sections : S;
  current_section : option pystr;
  current_content : list pystr;
}.

(** [current_section] is truthy. *)
Definition section_open (st : seg_state) : bool :=
  match current_section st with Some sec => nonempty sec | None => false end.

(** [if current_section and current_content: sections[current_section] = ...] *)
Definition save_section (st : seg_state) : S :=
  match current_section st, current_content st with
  | Some sec, _ :: _ =>
      if nonempty sec then store (sections st) sec (current_content st)
      else sections st
  | _, _ => sections st
  end.

(** The key a header opens: [section_map.get(section_text, section_text)]
    for [section_text = element.get_text(strip=True).lower().rstrip(':')]. *)
Definition header_key (element : node) : pystr :=
  let section_text := rstrip_char 58 (str_lower U (get_text [] element)) in
  default section_text (section_map !! section_text).

(** One iteration of [for element in desc_div.descendants]. *)
Definition seg_step (st : seg_state) (element : node) : seg_state :=
  match element with
  | NavigableString _ => st
  | Tag name _ =>
      if name_in name header_names then
        {| sections := save_section st;
           current_section := Some (header_key element);
           current_content := [] |}
      else if name_in name content_names && section_open st then
        let text := get_text [] element in
        if nonempty text
        then {| sections := sections st;
                current_section := current_section st;
                current_content := current_content st ++ [text] |}
        else st
      else st
  end.

Definition seg_init (empty : S) : seg_state :=
  {| sections := empty; current_section := None; current_content := [] |}.

(** The loop over the elements, then the last section is saved. *)
Definition walk (empty : S) (elements : list node) : S :=
  save_section (foldl seg_step (seg_init empty) elements).
End Walk.

Arguments seg_state : clear implicits.

(** The section map the method returns: the store is the dictionary
    [sections]. *)
Definition store_section (m : gmap pystr value) (sec : pystr) (content : list pystr)
    : gmap pystr value :=
  <[sec := _process_section_content content]> m.

Definition segment (U : unicode_db) (elements : list node) : gmap pystr value :=
  walk U store_section ∅ elements.

Definition sections_of (U : unicode_db) (desc_div : node) : gmap pystr value :=
  segment U (descendants desc_div).

(** The same loop with a log as its store: the saved sections in the order
    they are saved, each with the content strings collected for it. *)
Definition log_section (log : list (pystr * list pystr)) (sec : pystr)
    (content : list pystr) : list (pystr * list pystr) :=
  log ++ [(sec, content)].

Definition commits (U : unicode_db) (elements : list node)
    : list (pystr * list pystr) :=
  walk U log_section [] elements.

Definition is_header (element : node) : bool :=
  match element with
  | Tag name _ => name_in name header_names
  | NavigableString _ => false
  end.

(** A content node that would be appended to an open section. *)
Definition is_content (element : node) : bool :=
  match element with
  | Tag name _ =>
      negb (name_in name header_names) && name_in name content_names
      && nonempty (get_text [] element)
  | NavigableString _ => false
  end.

(** What the specification says a saved section holds. *)
Inductive stored_as : list pystr -> value -> Prop :=
| stored_single s :
    stored_as [s] (VStr s)
| stored_list content :
    (1 < length content)%nat ->
    Forall (fun item => (length item < 200)%nat) content ->
    stored_as content (content_list content)
| stored_joined content :
    (1 < length content)%nat ->
    Exists (fun item => (200 <= length item)%nat) content ->
    stored_as content (VStr (join (py " ") content)).

(* ===================================================================== *)
(** * Exceptions                                                          *)
(* ===================================================================== *)

Inductive exn :=
| ImportError | GroqError | APIError | JSONDecodeError
| TypeError | KeyError | AttributeError | ValidationError
| ValueError | OverflowError.

(** The outcome of a Python call: a value, or a raised exception. *)
Inductive exc (A : Type) : Type :=
| Ok (a : A)
| Raise (e : exn).
Arguments Ok {A} a.
Arguments Raise {A} e.

#[global] Instance exc_ret : MRet exc := fun _ a => Ok a.
#[global] Instance exc_bind : MBind exc := fun _ _ f m =>
  match m with Ok a => f a | Raise e => Raise e end.

(** [try: body / except Exception: handler] *)
Definition try_except {A} (body : exc A) (handler : exn -> exc A) : exc A :=
  match body with Ok a => Ok a | Raise e => handler e end.

Definition raises {A} (r : exc A) : bool :=
  match r with Ok _ => false | Raise _ => true end.

(* ===================================================================== *)
(** * The generative fallback extractor                                   *)
(* ===================================================================== *)

(** What the process and the network give the extractor. *)
Record llm_env := {
  groq_imported : bool;                (* [import groq] succeeded *)
  GROQ_API_KEY : option pystr;         (* os.environ.get("GROQ_API_KEY") *)
  Groq : option pystr -> exc unit;     (* groq.Groq(api_key=...) *)
  chat_completion : pystr -> exc value;
    (* client.chat.completions.create(...).choices[0].message.content,
       for the prompt built around the given description text *)
  json_loads : pystr -> exc value;     (* json.loads on a str *)
}.

Definition sentinel : pystr := py "Not specified".

Definition str_keys : list pystr :=
  [py "jobType"; py "pay"; py "workLocation"; py "benefits"; py "schedule";
   py "education"].
Definition list_keys : list pystr :=
  [py "mostRelevantSkills"; py "otherRelevantSkills"].

(** [LLMFieldExtractor._get_default_fields] *)
Definition _get_default_fields : gmap pystr value :=
  list_to_map
    [ (py "jobType", VStr sentinel);
      (py "pay", VStr sentinel);
      (py "workLocation", VStr sentinel);
      (py "benefits", VStr sentinel);
      (py "schedule", VStr sentinel);
      (py "education", VStr sentinel);
      (py "mostRelevantSkills", VList []);
      (py "otherRelevantSkills", VList []) ].

(** [json.loads(content)]: anything but a [str] is a [TypeError]. *)
Definition py_json_loads (env : llm_env) (content : value) : exc value :=
  match content with
  | VStr s => json_loads env s
  | _ => Raise TypeError
  end.

Definition is_str (s : pystr) (v : value) : bool :=
  match v with VStr t => pystr_eqb s t | _ => false end.

Fixpoint is_substring (p s : pystr) : bool :=
  starts_with p s || match s with [] => false | _ :: r => is_substring p r end.

Fixpoint assoc (key : pystr) (d : list (pystr * value)) : option value :=
  match d with
  | [] => None
  | (k, v) :: rest => if pystr_eqb key k then Some v else assoc key rest
  end.

(** [key in fields] *)
Definition py_contains (fields : value) (key : pystr) : exc bool :=
  match fields with
  | VDict d => Ok (bool_decide (is_Some (assoc key d)))
  | VList l => Ok (existsb (is_str key) l)
  | VStr s => Ok (is_substring key s)
  | _ => Raise TypeError
  end.

(** [fields[key]] for a string key. *)
Definition py_getitem (fields : value) (key : pystr) : exc value :=
  match fields with
  | VDict d => match assoc key d with Some v => Ok v | None => Raise KeyError end
  | _ => Raise TypeError
  end.

(** [[skill.strip() for skill in l if skill.strip()]] *)
Fixpoint strip_skills (l : list value) : exc (list pystr) :=
  match l with
  | [] => Ok []
  | VStr s :: r =>
      rest ← strip_skills r;
      Ok (if nonempty (strip s) then strip s :: rest else rest)
  | _ :: _ => Raise AttributeError
  end.

(** [[skill.strip() for skill in s.split(',') if skill.strip()]] *)
Definition split_skills (s : pystr) : list pystr :=
  List.filter nonempty (map strip (split_char 44 s)).

Section Generative.
Variable U : unicode_db.
Variable env : llm_env.

(** [self.client], as set by [LLMFieldExtractor.__init__]. *)
Definition client : bool :=
  groq_imported env
  && match GROQ_API_KEY env with Some k => nonempty k | None => false end.

(** The prompt is a fixed template around [job_desc_text[:2000]]. *)
Definition _build_extraction_prompt (job_desc_text : pystr) : pystr :=
  take 2000 job_desc_text.

(** The body of the [except json.JSONDecodeError] branch: the retry on
    [re.search(r'\{.*\}', content, re.DOTALL)]. *)
Definition brace_retry (content : pystr) : exc value :=
  match re_search U re_DOTALL brace_pattern content with
  | Some m =>
      match json_loads env (default [] (group 0 m)) with
      | Raise JSONDecodeError => Ok (VDict [])
      | r => r
      end
  | None => Ok (VDict [])
  end.

(** [LLMFieldExtractor._parse_llm_response] *)
Definition _parse_llm_response (content : value) : exc value :=
  match py_json_loads env content with
  | Raise JSONDecodeError =>
      match content with
      | VStr s => brace_retry s
      | _ => Raise TypeError
      end
  | r => r
  end.

(** One iteration of [for key in normalized.keys()]. *)
Definition normalize_key (fields : value) (normalized : gmap pystr value)
    (key : pystr) : exc (gmap pystr value) :=
  present ← py_contains fields key;
  if present : bool then
    v ← py_getitem fields key;
    if truthy v then
      if bool_decide (key ∈ list_keys) then
        match v with
        | VList l =>
            skills ← strip_skills l;
            Ok (<[key := content_list skills]> normalized)
        | VStr t =>
            if negb (pystr_eqb t sentinel)
            then Ok (<[key := content_list (split_skills t)]> normalized)
            else Ok normalized
        | _ => Ok normalized
        end
      else if negb (is_str sentinel v) then Ok (<[key := v]> normalized)
      else Ok normalized
    else Ok normalized
  else Ok normalized.

Fixpoint normalize_keys (fields : value) (normalized : gmap pystr value)
    (keys : list pystr) : exc (gmap pystr value) :=
  match keys with
  | [] => Ok normalized
  | key :: rest =>
      normalized' ← normalize_key fields normalized key;
      normalize_keys fields normalized' rest
  end.

(** [LLMFieldExtractor._normalize_llm_fields] *)
Definition _normalize_llm_fields (fields : value) : exc (gmap pystr value) :=
  normalize_keys fields _get_default_fields (str_keys ++ list_keys).

(** [LLMFieldExtractor.extract_fields] *)
Definition extract_fields (job_desc_text : pystr) : exc (gmap pystr value) :=
  if negb client || negb (nonempty job_desc_text) then Ok _get_default_fields
  else
    try_except
      (content ← chat_completion env (_build_extraction_prompt job_desc_text);
       fields ← _parse_llm_response content;
       _normalize_llm_fields fields)
      (fun _ => Ok _get_default_fields).
End Generative.

(* ===================================================================== *)
(** * The validated record                                                *)
(* ===================================================================== *)

(** [class JobPosting(BaseModel)] *)
Record JobPosting := {
  title : pystr;
  company_name : option pystr;
  location : option pystr;
  salary : option pystr;
  job_type : option pystr;
  pay : option pystr;
  work_location : option pystr;
  benefits : option (pystr + list pystr);
  schedule : option (pystr + list pystr);
  education : option pystr;
  most_relevant_skills : option (list pystr);
  other_relevant_skills : option (list pystr);
  easy_apply : bool;
  company_logo : option pystr;
  job_description : option pystr;
  extra_sections : gmap pystr value;
  job_id : option pystr;
  jd_url : option pystr;
}.

(** The keyword arguments of the constructor call, before validation. *)
Record posting_args := {
  a_title : pystr;
  a_company_name : option pystr;
  a_location : option pystr;
  a_salary : option pystr;
  a_job_type : value;
  a_pay : value;
  a_work_location : value;
  a_benefits : value;
  a_schedule : value;
  a_education : value;
  a_most_relevant_skills : value;
  a_other_relevant_skills : value;
  a_easy_apply : bool;
  a_company_logo : option pystr;
  a_job_description : option pystr;
  a_extra_sections : gmap pystr value;
  a_job_id : option pystr;
  a_jd_url : pystr;
}.

(** A field declared [Optional[str]]. *)
Definition validate_opt_str (v : value) : exc (option pystr) :=
  match v with
  | VNone => Ok None
  | VStr s => Ok (Some s)
  | _ => Raise ValidationError
  end.

Fixpoint validate_strs (l : list value) : exc (list pystr) :=
  match l with
  | [] => Ok []
  | VStr s :: r => rest ← validate_strs r; Ok (s :: rest)
  | _ :: _ => Raise ValidationError
  end.

(** A field declared [Optional[Union[str, List[str]]]]. *)
Definition validate_str_or_list (v : value) : exc (option (pystr + list pystr)) :=
  match v with
  | VNone => Ok None
  | VStr s => Ok (Some (inl s))
  | VList l => items ← validate_strs l; Ok (Some (inr items))
  | _ => Raise ValidationError
  end.

(** A field declared [Optional[List[str]]]. *)
Definition validate_opt_list (v : value) : exc (option (list pystr)) :=
  match v with
  | VNone => Ok None
  | VList l => items ← validate_strs l; Ok (Some items)
  | _ => Raise ValidationError
  end.

(** [JobPosting.title_must_not_be_empty] *)
Definition title_must_not_be_empty (v : pystr) : exc pystr :=
  if negb (nonempty v) || negb (nonempty (strip v)) then Raise ValidationError
  else Ok (strip v).

(** The class [[^\d,.-₹$€£\s]] of [normalize_currency], negation apart: in a
    class the characters [.-₹] read as the range from '.' to '₹'. *)
Definition currency_class : list cset_item :=
  [CDigit; CChar 44; CRange 46 8377; CChar 36; CChar 8364; CChar 163; CSpace].

(** [JobPosting.normalize_currency] *)
Definition normalize_currency (U : unicode_db) (v : option pystr) : option pystr :=
  match v with
  | Some s =>
      if nonempty s then Some (strip (re_sub_set U no_flags true currency_class s))
      else v
  | None => None
  end.

(** [JobPosting.ensure_list] *)
Definition ensure_list (v : value) : value :=
  match v with
  | VStr s => content_list (split_skills s)
  | _ => py_or v (VList [])
  end.

(** The constructor call [JobPosting(title=..., ...)]: its validators run,
    and a [ValidationError] is raised when a field is refused. *)
Definition make_posting (U : unicode_db) (a : posting_args) : exc JobPosting :=
  title' ← title_must_not_be_empty (a_title a);
  job_type' ← validate_opt_str (a_job_type a);
  pay' ← validate_opt_str (a_pay a);
  work_location' ← validate_opt_str (a_work_location a);
  benefits' ← validate_str_or_list (a_benefits a);
  schedule' ← validate_str_or_list (a_schedule a);
  education' ← validate_opt_str (a_education a);
  most' ← validate_opt_list (ensure_list (a_most_relevant_skills a));
  other' ← validate_opt_list (ensure_list (a_other_relevant_skills a));
  Ok {| title := title';
        company_name := a_company_name a;
        location := a_location a;
        salary := normalize_currency U (a_salary a);
        job_type := job_type';
        pay := normalize_currency U pay';
        work_location := work_location';
        benefits := benefits';
        schedule := schedule';
        education := education';
        most_relevant_skills := most';
        other_relevant_skills := other';
        easy_apply := a_easy_apply a;
        company_logo := a_company_logo a;
        job_description := a_job_description a;
        extra_sections := a_extra_sections a;
        job_id := a_job_id a;
        jd_url := Some (a_jd_url a) |}.

(* ===================================================================== *)
(** * The structured extractor and the document                           *)
(* ===================================================================== *)

(** [ScraperConfig.selectors], for the fields the extraction reads. *)
Definition selectors : gmap pystr (list pystr) :=
  list_to_map
    [ (py "title",
       [py "h1[id^='jd-job-title-']"; py "h1[data-test='job-title']";
        py ".JobDetails_jobTitle__Nw_N2"; py "h1.css-1qaijid"; py "h1"]);
      (py "company",
       [py "h4.EmployerProfile_employerNameHeading__bXBYr";
        py "[data-test='employer-name']";
        py ".EmployerProfile_profileContainer__d6vLt h4";
        py ".EmployerProfile_employerNameHeading__bXBYr h4"; py "h4"]);
      (py "location",
       [py "div[data-test='location']"; py ".JobDetails_location__mSg5h";
        py "[data-test='job-location']"]);
      (py "salary",
       [py "div[data-test='detailSalary']"; py ".JobDetails_salary__6VyJK";
        py "[data-test='salary']"]);
      (py "easy_apply",
       [py "button[data-test='easyApply']"; py "button[data-test='apply-button']";
        py "button.css-1n6j6mr"]);
      (py "company_logo",
       [py ".EmployerProfile_profileContainer__63w3R img";
        py ".EmployerProfile_logo__3xqON img"; py "img[alt*='logo']"]);
      (py "job_description",
       [py "div.JobDetails_jobDescription__uW_fK";
        py ".JobDetails_jobDescription__6VeBn";
        py "[data-test='jobDescriptionContent']"]) ].

(** [self.config.selectors[key]] *)
Definition selectors_for (key : string) : list pystr :=
  default [] (selectors !! py key).

(** One loaded job page, seen through the queries the extraction makes:
    locators are opaque, the page answers them. *)
Record page := {
  find_element_text : pystr -> option pystr;
    (* driver.find_element(By.CSS_SELECTOR, s).text; None when it raises *)
  find_element_attribute : pystr -> pystr -> option (option pystr);
    (* ....get_attribute(a) of that element *)
  soup_find_div : pystr -> option node;
    (* soup.find("div", class_=c) *)
  soup_select_one : pystr -> option node;
    (* soup.select_one(s) *)
}.

(** [FieldExtractor.safe_extract_text] *)
Fixpoint safe_extract_text (pg : page) (sels : list pystr) (attribute : option pystr)
    : option pystr :=
  match sels with
  | [] => None
  | selector :: rest =>
      let text := strip <$> find_element_text pg selector in
      let result :=
        match attribute with
        | Some a =>
            if nonempty a then mjoin (find_element_attribute pg selector a) else text
        | None => text
        end in
      match result with
      | Some r => if nonempty r then Some r else safe_extract_text pg rest attribute
      | None => safe_extract_text pg rest attribute
      end
  end.

(** The fallback loop of [extract_job_description_sections]:
    [soup.select_one(selector.replace('div.', '').replace('div', ''))]. *)
Fixpoint fallback_desc_div (pg : page) (sels : list pystr) : option node :=
  match sels with
  | [] => None
  | selector :: rest =>
      match soup_select_one pg
              (str_replace (py "div") [] (str_replace (py "div.") [] selector)) with
      | Some d => Some d
      | None => fallback_desc_div pg rest
      end
  end.

(** The description container that the segmenter walks. *)
Definition find_desc_div (pg : page) : option node :=
  match soup_find_div pg (py "JobDetails_jobDescription__uW_fK") with
  | Some d => Some d
  | None => fallback_desc_div pg (selectors_for "job_description")
  end.

(** [FieldExtractor.extract_job_description_sections] *)
Definition extract_job_description_sections (U : unicode_db) (pg : page)
    : gmap pystr value :=
  match find_desc_div pg with
  | Some desc_div => sections_of U desc_div
  | None => ∅
  end.

(* ===================================================================== *)
(** * The merge: [GlassdoorScraper._extract_single_job]                   *)
(* ===================================================================== *)

(** The calls made to the two fallback extractors, in order. *)
Inductive call :=
| CallRegex (text field : pystr)
| CallLLM (text : pystr).

(** The eight local variables [jobType], [pay], ... by name. *)
Definition frame : Type := gmap pystr value.

Definition frame_of_sections (extra : gmap pystr value) : frame :=
  list_to_map (map (fun k => (k, dict_get extra k)) (str_keys ++ list_keys)).

Section Merge.
Variable U : unicode_db.
Variable env : llm_env.

(** One iteration of the regex loop.  [locals()] is a snapshot of the
    variables: [locals().get(field)] reads the variable, and the store
    [locals()[field] = val] lands in the snapshot, so the variables
    [fr] are what they were. *)
Definition regex_step (job_desc_text : pystr) (st : frame * list call)
    (field : pystr) : frame * list call :=
  let '(fr, log) := st in
  let locals : gmap pystr value := fr in
  if negb (truthy (dict_get locals field)) then
    let val := extract_with_regex_fallback U job_desc_text field in
    let snapshot :=
      match val with
      | Some v => if nonempty v then <[field := VStr v]> locals else locals
      | None => locals
      end in
    (fr, log ++ [CallRegex job_desc_text field])
  else (fr, log).

(** [if job_desc_text: for field in [...]: ...] *)
Definition regex_pass (job_desc_text : option pystr) (fr : frame)
    : frame * list call :=
  match job_desc_text with
  | Some text =>
      if nonempty text then foldl (regex_step text) (fr, []) str_keys
      else (fr, [])
  | None => (fr, [])
  end.

Definition any_missing (fr : frame) : bool :=
  existsb (fun k => negb (truthy (dict_get fr k))) (str_keys ++ list_keys).

(** [x = x or llm_fields.get('x')], for each of the eight variables. *)
Definition merge_llm (fr : frame) (llm_fields : gmap pystr value) : frame :=
  foldl (fun f k => <[k := py_or (dict_get f k) (dict_get llm_fields k)]> f)
        fr (str_keys ++ list_keys).

(** [if job_desc_text and (not jobType or ...): llm_fields = ...] *)
Definition llm_pass (job_desc_text : option pystr) (fr : frame)
    : exc (frame * list call) :=
  match job_desc_text with
  | Some text =>
      if nonempty text && any_missing fr then
        llm_fields ← extract_fields U env text;
        Ok (merge_llm fr llm_fields, [CallLLM text])
      else Ok (fr, [])
  | None => Ok (fr, [])
  end.

(** [m = re.search(r'jl=(\d+)', job_url)] *)
Definition job_id_of (job_url : pystr) : option pystr :=
  m ← re_search U no_flags job_id_pattern job_url; group 1 m.

(** The description text: read only when a locator of the description
    found text, from the first selector of the table. *)
Definition description_text (pg : page) : option pystr :=
  match safe_extract_text pg (selectors_for "job_description") None with
  | Some _ =>
      match soup_select_one pg (default [] (head (selectors_for "job_description"))) with
      | Some desc_div => Some (get_text [10] desc_div)
      | None => None
      end
  | None => None
  end.

(** The eight variables after the three passes over the description, and
    the calls the passes made. *)
Definition merged_frame (pg : page) : exc frame * list call :=
  let job_desc_text := description_text pg in
  let extra_sections := extract_job_description_sections U pg in
  let fr0 := frame_of_sections extra_sections in
  let '(fr1, log1) := regex_pass job_desc_text fr0 in
  match llm_pass job_desc_text fr1 with
  | Raise e => (Raise e, log1)
  | Ok (fr2, log2) => (Ok fr2, log1 ++ log2)
  end.

(** The arguments of the call [JobPosting(title=title or '', ...)]. *)
Definition posting_args_of (pg : page) (job_url : pystr) (fr : frame) : posting_args :=
  {| a_title := default [] (safe_extract_text pg (selectors_for "title") None);
     a_company_name := safe_extract_text pg (selectors_for "company") None;
     a_location := safe_extract_text pg (selectors_for "location") None;
     a_salary := safe_extract_text pg (selectors_for "salary") None;
     a_job_type := dict_get fr (py "jobType");
     a_pay := dict_get fr (py "pay");
     a_work_location := dict_get fr (py "workLocation");
     a_benefits := dict_get fr (py "benefits");
     a_schedule := dict_get fr (py "schedule");
     a_education := dict_get fr (py "education");
     a_most_relevant_skills := dict_get fr (py "mostRelevantSkills");
     a_other_relevant_skills := dict_get fr (py "otherRelevantSkills");
     a_easy_apply :=
       bool_decide (is_Some (safe_extract_text pg (selectors_for "easy_apply") None));
     a_company_logo :=
       safe_extract_text pg (selectors_for "company_logo") (Some (py "src"));
     a_job_description := description_text pg;
     a_extra_sections := extract_job_description_sections U pg;
     a_job_id := job_id_of job_url;
     a_jd_url := job_url |}.

(** The body of [_extract_single_job], for a page that has loaded: the
    posting it builds and the calls to the fallback extractors. *)
Definition extract_from_page (pg : page) (job_url : pystr)
    : exc JobPosting * list call :=
  let '(fr, log) := merged_frame pg in
  (fr ≫= (fun fr2 => make_posting U (posting_args_of pg job_url fr2)), log).

(** [GlassdoorScraper._extract_single_job]: every exception, a page that
    does not load included, ends in [return None]. *)
Definition _extract_single_job (browse : pystr -> option page) (job_url : pystr)
    : option JobPosting :=
  match browse job_url with
  | Some pg =>
      match fst (extract_from_page pg job_url) with
      | Ok job => Some job
      | Raise _ => None
      end
  | None => None
  end.

(** [GlassdoorScraper._extract_jobs_concurrent]: the results in the order
    of the URLs, [[job for job in results if job]]. *)
Definition _extract_jobs_concurrent (browse : pystr -> option page)
    (job_urls : list pystr) : list JobPosting :=
  omap (_extract_single_job browse) job_urls.
End Merge.

(* ===================================================================== *)
(** * The older script: [run_glassdoor_scraper.py]                        *)
(* ===================================================================== *)

Module Legacy.

(** The [patterns] table of [extract_field_by_regex]: the six patterns of
    the class-based extractor and two for the skill lists. *)
Definition patterns : gmap pystr regex :=
  list_to_map
    [ (py "jobType", jobType_pattern);
      (py "pay", pay_pattern);
      (py "workLocation", workLocation_pattern);
      (py "benefits", labelled_pattern "Benefits");
      (py "schedule", labelled_pattern "Schedule");
      (py "education", labelled_pattern "Education");
      (py "mostRelevantSkills", labelled_pattern "Most Relevant Skills");
      (py "otherRelevantSkills", labelled_pattern "Other Relevant Skills") ].

(** [extract_field_by_regex(text, field)] *)
Definition extract_field_by_regex (U : unicode_db) (text field : pystr)
    : option pystr :=
  match patterns !! field with
  | Some pattern =>
      if negb (nonempty text) then None
      else
        match re_search U re_IGNORECASE pattern text with
        | Some m => strip <$> group 1 m
        | None => None
        end
  | None => None
  end.

Definition opt_value (o : option pystr) : value :=
  match o with Some s => VStr s | None => VNone end.

(** The first loop of [normalize_llm_fields]: a scalar key that is missing
    or falsy is set to the sentinel. *)
Definition normalize_str_key (fields : gmap pystr value) (k : pystr)
    : gmap pystr value :=
  match fields !! k with
  | Some v => if truthy v then fields else <[k := VStr sentinel]> fields
  | None => <[k := VStr sentinel]> fields
  end.

Section LegacyGenerative.
Variable U : unicode_db.
Variable env : llm_env.

(** The placeholder test on a one-element list:
    [fields[k][0].lower().startswith("see above")]. *)
Definition see_above (l : list value) : bool :=
  match l with
  | [VStr s] => starts_with (py "see above") (str_lower U s)
  | _ => false
  end.

(** The second loop: a list key that is missing, not a list, or a
    placeholder is set to the empty list. *)
Definition normalize_list_key (fields : gmap pystr value) (k : pystr)
    : gmap pystr value :=
  match fields !! k with
  | Some (VList l) => if see_above l then <[k := VList []]> fields else fields
  | _ => <[k := VList []]> fields
  end.

(** [normalize_llm_fields(fields)]: on anything but a dictionary the
    membership test or the item access raises [TypeError]. *)
Definition normalize_llm_fields (fields : value) : exc (gmap pystr value) :=
  match fields with
  | VDict d =>
      Ok (foldl normalize_list_key
            (foldl normalize_str_key (list_to_map d) str_keys) list_keys)
  | _ => Raise TypeError
  end.

(** The parse of the reply: [except json.JSONDecodeError], then the retry
    under [except Exception]. *)
Definition parse_reply (content : value) : exc value :=
  match py_json_loads env content with
  | Raise JSONDecodeError =>
      match content with
      | VStr s =>
          match re_search U re_DOTALL brace_pattern s with
          | Some m =>
              match json_loads env (default [] (group 0 m)) with
              | Ok v => Ok v
              | Raise _ => Ok (VDict [])
              end
          | None => Ok (VDict [])
          end
      | _ => Raise TypeError
      end
  | r => r
  end.

(** [extract_fields_with_llama(job_desc_text)]: the guard on the missing
    package and the construction of the client stand before the [try]. *)
Definition extract_fields_with_llama (job_desc_text : pystr)
    : exc (gmap pystr value) :=
  if negb (groq_imported env) then Raise ImportError
  else
    _ ← Groq env (GROQ_API_KEY env);
    try_except
      (content ← chat_completion env job_desc_text;
       fields ← parse_reply content;
       normalize_llm_fields fields)
      (fun _ => Ok _get_default_fields).

(** [if not x: x = extract_field_by_regex(job_desc_text, 'x')] *)
Definition regex_step (job_desc_text : pystr) (fr : frame) (field : pystr) : frame :=
  if negb (truthy (dict_get fr field))
  then <[field := opt_value (extract_field_by_regex U job_desc_text field)]> fr
  else fr.

(** The fallback tail of [scrape_with_selenium]: the regex block, then the
    generative block.  [fr] holds the eight variables after the walk over
    the description, under the names of their fields. *)
Definition fallbacks (job_desc_text : option pystr) (fr : frame) : exc frame :=
  match job_desc_text with
  | Some text =>
      if nonempty text then
        let fr1 := foldl (regex_step text) fr (str_keys ++ list_keys) in
        if any_missing fr1 then
          llama_fields ← extract_fields_with_llama text;
          Ok (merge_llm fr1 llama_fields)
        else Ok fr1
      else Ok fr
  | None => Ok fr
  end.
End LegacyGenerative.

End Legacy.

(* ===================================================================== *)
(** * Notions used to state the properties, and sample inputs            *)
(* ===================================================================== *)

(** No whitespace at the head. *)
Definition no_lead (s : pystr) : Prop :=
  match s with c :: _ => is_space c = false | [] => True end.

(** The search the extractor makes for a pattern: [re.search] with
    [re.IGNORECASE], then [match.group(1).strip()]. *)
Definition first_group_trimmed (U : unicode_db) (pattern : regex) (text : pystr)
    : option pystr :=
  m ← re_search U re_IGNORECASE pattern text; strip <$> group 1 m.

(** The dictionary that a log of saved sections builds. *)
Definition replay (log : list (pystr * list pystr)) : gmap pystr value :=
  foldl (fun m kc => store_section m kc.1 kc.2) ∅ log.

(** A node the loop passes over whatever its state: neither a header nor
    a content node with text. *)
Definition inert (element : node) : bool :=
  negb (is_header element) && negb (is_content element).

(** The traversal ends, or goes on with a header. *)
Definition at_section_start (rest : list node) : bool :=
  match rest with [] => true | e :: _ => is_header e end.

(** A saved section: a non-empty name and at least one non-empty string. *)
Definition well_formed_commit (kc : pystr * list pystr) : Prop :=
  kc.1 <> [] /\ kc.2 <> [] /\ Forall (fun s => s <> []) kc.2.

Definition pending (st : seg_state (list (pystr * list pystr))) : nat :=
  match current_section st with Some _ => 1 | None => 0 end.

Definition well_formed_state (st : seg_state (list (pystr * list pystr))) : Prop :=
  Forall well_formed_commit (sections st)
  /\ Forall (fun s => s <> []) (current_content st).

Definition short (item : pystr) : bool := (length item <? 200)%nat.

(** A small description: a teaser, then two sections. *)
Definition text_tag (name text : string) : node :=
  Tag (py name) [NavigableString (py text)].

Definition sample_preamble : list node :=
  [text_tag "p" "Join our team"; NavigableString (py "Join our team")].

Definition sample_sections : list node :=
  [ text_tag "h2" "Benefits:"; NavigableString (py "Benefits:");
    text_tag "p" "Health insurance"; NavigableString (py "Health insurance");
    text_tag "h3" "Pay"; NavigableString (py "Pay");
    text_tag "p" "₹50,000 per month"; NavigableString (py "₹50,000 per month") ].

Definition sample_empty_header : node := text_tag "h3" "Schedule:".
Definition sample_after_header : list node :=
  [NavigableString (py "Schedule:"); text_tag "span" "to be agreed"].
Definition sample_first : list node := take 4 sample_sections.
Definition sample_last : list node := drop 4 sample_sections.

(** A toy page: the texts that locators find, and the description
    container. *)
Definition toy_page (texts : list (string * string)) (desc_div : option node) : page :=
  {| find_element_text := fun sel =>
       (fun kv : string * string => py kv.2)
         <$> List.find (fun kv : string * string => pystr_eqb (py kv.1) sel) texts;
     find_element_attribute := fun _ _ => None;
     soup_find_div := fun c =>
       if pystr_eqb c (py "JobDetails_jobDescription__uW_fK") then desc_div else None;
     soup_select_one := fun sel =>
       if pystr_eqb sel (py "div.JobDetails_jobDescription__uW_fK") then desc_div
       else None |}.

(** An environment without the client library. *)
Definition no_groq : llm_env :=
  {| groq_imported := false;
     GROQ_API_KEY := None;
     Groq := fun _ => Raise GroqError;
     chat_completion := fun _ => Raise APIError;
     json_loads := fun _ => Raise JSONDecodeError |}.

Definition toy_browse (job_url : pystr) : option page :=
  if pystr_eqb job_url (py "https://example.test/job?jl=1")
  then Some (toy_page [("h1", "  Data Engineer ")] None)
  else if pystr_eqb job_url (py "https://example.test/job?jl=2")
  then Some (toy_page [("h1", "   ")] None)
  else None.

(** The substring the retry parses: the match of [\{.*\}] in the reply. *)
Definition brace_substring (U : unicode_db) (content : pystr) : option pystr :=
  m ← re_search U re_DOTALL brace_pattern content; group 0 m.

(** The longest prefix of [s] that ends with a closing brace. *)
Fixpoint upto_last_brace (s : pystr) : option pystr :=
  match s with
  | [] => None
  | t :: s' =>
      match upto_last_brace s' with
      | Some r => Some (t :: r)
      | None => if 125 =? t then Some [t] else None
      end
  end.

(** The text from the first opening brace that has a closing brace after
    it to the last closing brace. *)
Fixpoint brace_span (s : pystr) : option pystr :=
  match s with
  | [] => None
  | t :: s' =>
      match (if 123 =? t then upto_last_brace s' else None) with
      | Some r => Some (t :: r)
      | None => brace_span s'
      end
  end.

(** [sub] is the part of [content] from its first opening brace to its
    last closing brace. *)
Definition first_to_last_brace (content sub : pystr) : Prop :=
  exists pre mid post,
    content = pre ++ 123 :: mid ++ 125 :: post
    /\ sub = 123 :: mid ++ [125]
    /\ (123 ∉ pre) /\ (125 ∉ post).

(** No opening brace of [content] has a closing brace after it. *)
Definition no_brace_pair (content : pystr) : Prop :=
  forall pre mid post, content <> pre ++ 123 :: mid ++ 125 :: post.

(** How a call of the class-based extractor went: the reply, what the
    parse made of it and what the normalisation returned, when all three
    steps returned. *)
Definition reply_accepted (U : unicode_db) (env : llm_env) (text : pystr)
    (n : gmap pystr value) : Prop :=
  exists content fields,
    chat_completion env (_build_extraction_prompt text) = Ok content
    /\ _parse_llm_response U env content = Ok fields
    /\ _normalize_llm_fields fields = Ok n.

(** A JSON string literal: the text between double quotes. *)
Definition dq (s : string) : pystr := 34 :: py s ++ [34].

(** The reply of the specification's stub, as text and as parsed. *)
Definition stub_json : pystr :=
  py "{" ++ dq "jobType" ++ py ": " ++ dq "Not specified" ++ py ", "
  ++ dq "mostRelevantSkills" ++ py ": [" ++ dq "Python" ++ py ", " ++ dq "SQL"
  ++ py "]}".

Definition stub_fields : value :=
  VDict [ (py "jobType", VStr sentinel);
          (py "mostRelevantSkills", VList [VStr (py "Python"); VStr (py "SQL")]) ].

(** A client that answers every prompt with [reply]; [json.loads] accepts
    the stub's JSON text and nothing else. *)
Definition stub_env (reply : pystr) : llm_env :=
  {| groq_imported := true;
     GROQ_API_KEY := Some (py "gsk_test_key");
     Groq := fun _ => Ok ();
     chat_completion := fun _ => Ok (VStr reply);
     json_loads := fun s =>
       if pystr_eqb s stub_json then Ok stub_fields else Raise JSONDecodeError |}.

Definition stub_result : gmap pystr value :=
  <[py "mostRelevantSkills" := content_list [py "Python"; py "SQL"]]>
    _get_default_fields.

(** The characters [normalize_currency] keeps. *)
Definition retained (U : unicode_db) (c : N) : bool :=
  negb (set_test U no_flags true currency_class c).

(** On ASCII and on the range of the class the kept characters do not
    depend on the Unicode tables. *)
Definition retained_plain (c : N) : bool :=
  (c =? 44) || ((46 <=? c) && (c <=? 8377)) || (c =? 36) || is_space c.

Definition plain_char (c : N) : bool :=
  is_ascii c || ((46 <=? c) && (c <=? 8377)).

(** A description with a list under a bold label and a labelled paragraph. *)
Definition sample_desc_div : node :=
  Tag (py "div")
    [ text_tag "b" "Responsibilities:";
      Tag (py "ul") [text_tag "li" "A"; text_tag "li" "B"];
      text_tag "b" "Pay:";
      text_tag "p" "₹50,000 per month" ].

Definition sample_text : pystr :=
  join [10] [py "Responsibilities:"; py "A"; py "B"; py "Pay:"; py "₹50,000 per month"].

Definition sample_page : page :=
  toy_page
    [ ("h1", " Data Engineer ");
      ("div[data-test='detailSalary']", "₹40,000 - ₹50,000 (approx.)");
      ("div.JobDetails_jobDescription__uW_fK",
       "Responsibilities: A B Pay: ₹50,000 per month") ]
    (Some sample_desc_div).

Definition sample_url : pystr := py "https://example.test/job-listing?jl=1009".

(** The same description with the pay as a labelled paragraph: the label
    is part of the text of the paragraph, plain or in bold. *)
Definition labelled_desc_div : node :=
  Tag (py "div")
    [ text_tag "b" "Responsibilities:";
      Tag (py "ul") [text_tag "li" "A"; text_tag "li" "B"];
      text_tag "p" "Pay: ₹50,000 per month" ].

Definition labelled_bold_desc_div : node :=
  Tag (py "div")
    [ text_tag "b" "Responsibilities:";
      Tag (py "ul") [text_tag "li" "A"; text_tag "li" "B"];
      Tag (py "p") [text_tag "b" "Pay:"; NavigableString (py " ₹50,000 per month")] ].

Definition labelled_text : pystr :=
  join [10] [py "Responsibilities:"; py "A"; py "B"; py "Pay: ₹50,000 per month"].

Definition labelled_page (desc_div : node) : page :=
  toy_page
    [ ("h1", " Data Engineer ");
      ("div.JobDetails_jobDescription__uW_fK",
       "Responsibilities: A B Pay: ₹50,000 per month") ]
    (Some desc_div).

(** No query of the parsed document finds the description container:
    neither [soup.find], nor [select_one] on a selector of the table, nor
    [select_one] on a selector as the fallback loop rewrites it. *)
Definition no_description_container (pg : page) : Prop :=
  soup_find_div pg (py "JobDetails_jobDescription__uW_fK") = None
  /\ Forall (fun sel =>
               soup_select_one pg sel = None
               /\ soup_select_one pg
                    (str_replace (py "div") [] (str_replace (py "div.") [] sel))
                  = None)
            (selectors_for "job_description").

(** The record of a page that has no description: what the structured
    locators found, and nothing else. *)
Definition structured_only (U : unicode_db) (pg : page) (job_url t : pystr)
    : JobPosting :=
  {| title := t;
     company_name := safe_extract_text pg (selectors_for "company") None;
     location := safe_extract_text pg (selectors_for "location") None;
     salary := normalize_currency U (safe_extract_text pg (selectors_for "salary") None);
     job_type := None;
     pay := None;
     work_location := None;
     benefits := None;
     schedule := None;
     education := None;
     most_relevant_skills := Some [];
     other_relevant_skills := Some [];
     easy_apply :=
       bool_decide (is_Some (safe_extract_text pg (selectors_for "easy_apply") None));
     company_logo :=
       safe_extract_text pg (selectors_for "company_logo") (Some (py "src"));
     job_description := None;
     extra_sections := ∅;
     job_id := job_id_of U job_url;
     jd_url := Some job_url |}.

Definition bare_page : page := toy_page [("h1", "Data Engineer")] None.

(** A locator that yields nothing usable: no element, or only whitespace. *)
Definition unusable (pg : page) (sel : pystr) : Prop :=
  match find_element_text pg sel with
  | Some raw => nonempty (strip raw) = false
  | None => True
  end.

(** The regex extractor has no hit for a field: nothing, or an empty
    string. *)
Definition regex_miss (hit : option pystr) : Prop :=
  match hit with Some v => nonempty v = false | None => True end.

(** The value of a variable after the regex block of the older script. *)
Definition legacy_after_regex (U : unicode_db) (text : pystr) (fr : frame)
    (k : pystr) : value :=
  if truthy (dict_get fr k) then dict_get fr k
  else Legacy.opt_value (Legacy.extract_field_by_regex U text k).

(* ===================================================================== *)
(** * Retrying a browser action                                           *)
(* ===================================================================== *)

(** The exceptions that [SmartRetryHandler.determine_retry_strategy] tells
    apart, and every other one. *)
Inductive browser_error :=
| TimeoutException
| StaleElementReferenceException
| NoSuchElementException
| ElementClickInterceptedException
| OtherException.

(** The keys of [SmartRetryHandler.retry_strategies]. *)
Inductive strategy :=
| timeout | stale_element | no_such_element | click_intercepted | general.

(** [SmartRetryHandler.determine_retry_strategy] *)
Definition determine_retry_strategy (e : browser_error) : strategy :=
  match e with
  | TimeoutException => timeout
  | StaleElementReferenceException => stale_element
  | NoSuchElementException => no_such_element
  | ElementClickInterceptedException => click_intercepted
  | OtherException => general
  end.

(** [retry_strategies[strategy](delay)]: the handlers [_handle_timeout],
    [_handle_stale_element], ... *)
Definition retry_strategies (st : strategy) (delay : Z) : Z :=
  match st with
  | timeout => (delay * 2)%Z
  | stale_element => delay
  | no_such_element => delay
  | click_intercepted => delay
  | general => (delay * 2)%Z
  end.

(** [time.sleep(secs)] for a whole number of seconds.  A negative number
    is refused with [ValueError]; one that does not fit the clock, which
    counts nanoseconds in 63 bits, is refused with [OverflowError]. *)
Definition time_sleep_max : Z := 9223372036.

Definition time_sleep (secs : Z) : exc unit :=
  if (secs <? 0)%Z then Raise ValueError
  else if (time_sleep_max <? secs)%Z then Raise OverflowError
  else Ok ().

(** What a run of [safe_execute_with_retry] does: its outcome, the number
    of calls of [func], and the pauses it made: the arguments of the calls
    of [time.sleep] that returned, in order. *)
Record retry_run (A : Type) := {
  outcome : exc (option A);
  calls : nat;
  sleeps : list Z;
}.
Arguments outcome {A} _.
Arguments calls {A} _.
Arguments sleeps {A} _.

(** The loop [for attempt in range(retries)], from [attempt] on, with
    [remaining] iterations left.  [func n] is what the call number [n] of
    [func] does: it raises or returns.  [logger] tells whether a logger was
    passed: the handler logs through the caller's [logger], and without one
    the first failure ends in an [AttributeError].  The pause stands in
    the handler, so an exception of [time.sleep] ends the run. *)
Fixpoint retry_loop {A} (func : nat -> browser_error + A) (logger : bool)
    (retries attempt remaining : nat) (delay : Z) : retry_run A :=
  match remaining with
  | O => {| outcome := Ok None; calls := 0; sleeps := [] |}
  | S remaining' =>
      match func attempt with
      | inr a => {| outcome := Ok (Some a); calls := 1; sleeps := [] |}
      | inl e =>
          if (attempt =? retries - 1)%nat then
            {| outcome := if logger then Ok None else Raise AttributeError;
               calls := 1; sleeps := [] |}
          else
            let delay' := retry_strategies (determine_retry_strategy e) delay in
            if logger then
              match time_sleep delay' with
              | Ok _ =>
                  let rest :=
                    retry_loop func logger retries (S attempt) remaining' delay' in
                  {| outcome := outcome rest;
                     calls := S (calls rest);
                     sleeps := delay' :: sleeps rest |}
              | Raise err => {| outcome := Raise err; calls := 1; sleeps := [] |}
              end
            else {| outcome := Raise AttributeError; calls := 1; sleeps := [] |}
      end
  end.

(** [safe_execute_with_retry(func, retries, delay, logger)] *)
Definition safe_execute_with_retry {A} (func : nat -> browser_error + A)
    (retries : nat) (delay : Z) (logger : bool) : retry_run A :=
  retry_loop func logger retries 0 retries delay.

(** The first [n] calls of [func] raise. *)
Definition all_raise {A} (func : nat -> browser_error + A) (n : nat) : Prop :=
  forall j, (j < n)%nat -> exists e, func j = inl e.


(** ** Reading the job id by a scan *)

Fixpoint take_while (p : N -> bool) (s : pystr) : pystr :=
  match s with
  | c :: r => if p c then c :: take_while p r else []
  | [] => []
  end.

Fixpoint drop_while (p : N -> bool) (s : pystr) : pystr :=
  match s with
  | c :: r => if p c then drop_while p r else s
  | [] => []
  end.

(** The first place where "jl=" is followed by a decimal digit, and the
    digits that follow it. *)
Fixpoint scan_job_id (U : unicode_db) (s : pystr) : option pystr :=
  match s with
  | [] => None
  | _ :: r =>
      if starts_with (py "jl=") s
         && nonempty (take_while (is_decimal U) (drop 3 s))
      then Some (take_while (is_decimal U) (drop 3 s))
      else scan_job_id U r
  end.

(** The character before the position a star stops at. *)
Definition last_or (prev : option N) (l : pystr) : option N :=
  match last l with Some c => Some c | None => prev end.

(** ** The shape of the dictionary of the generative extractor *)

(** A skill as the normalisation leaves it: not empty, trimmed. *)
Definition clean_skill (s : pystr) : Prop := s <> [] /\ strip s = s.

(** Exactly the eight keys; a truthy value under each scalar key; a list of
    clean strings under each list key. *)
Definition fields_shape (n : gmap pystr value) : Prop :=
  (forall k, is_Some (n !! k) <-> k ∈ str_keys ++ list_keys)
  /\ (forall k, k ∈ str_keys -> exists v, n !! k = Some v /\ truthy v = true)
  /\ (forall k, k ∈ list_keys ->
        exists skills, n !! k = Some (content_list skills)
                       /\ Forall clean_skill skills).

(** What the older normalisation guarantees: a truthy value under each
    scalar key, and under each list key a list that is not the
    placeholder. *)
Definition legacy_shape (U : unicode_db) (n : gmap pystr value) : Prop :=
  (forall k, k ∈ str_keys -> exists v, n !! k = Some v /\ truthy v = true)
  /\ (forall k, k ∈ list_keys ->
        exists l, n !! k = Some (VList l) /\ Legacy.see_above U l = false).

(** ** Where the saved sections come from *)

(** The name of a section is the key of a header node of the traversal. *)
Definition from_header (U : unicode_db) (els : list node) (sec : pystr) : Prop :=
  exists h, h ∈ els /\ is_header h = true /\ sec = header_key U h.

(** A content string is the text of a content node of the traversal. *)
Definition from_content (els : list node) (s : pystr) : Prop :=
  exists e, e ∈ els /\ is_content e = true /\ s = get_text [] e.

Definition from_document (U : unicode_db) (els : list node)
    (kc : pystr * list pystr) : Prop :=
  from_header U els kc.1 /\ Forall (from_content els) kc.2.

(** The loop variables hold only what the nodes of [els] gave. *)
Definition state_from_document (U : unicode_db) (els : list node)
    (st : seg_state (list (pystr * list pystr))) : Prop :=
  Forall (from_document U els) (sections st)
  /\ (forall sec, current_section st = Some sec -> from_header U els sec)
  /\ Forall (from_content els) (current_content st).

(** A value of the section map: a string, or a list of at least two
    strings; the strings are not empty and are trimmed. *)
Definition section_value (v : value) : Prop :=
  (exists s, v = VStr s /\ clean_skill s)
  \/ (exists l, v = content_list l /\ Forall clean_skill l /\ (1 < length l)%nat).

(** ** What a returned record holds *)

(** A field declared [Optional[Union[str, List[str]]]] that holds
    something. *)
Definition filled (o : option (pystr + list pystr)) : Prop :=
  match o with
  | Some (inl s) => s <> []
  | Some (inr l) => l <> []
  | None => False
  end.

(** What reaches [ensure_list] for a skill variable: nothing, a string of
    the segmenter, or a list of clean strings. *)
Definition skill_source (v : value) : Prop :=
  v = VNone \/ (exists s, v = VStr s)
  \/ (exists l, v = content_list l /\ Forall clean_skill l).

(** A description whose "Job Type" section has two lines. *)
Definition two_line_job_type : node :=
  Tag (py "div")
    [ text_tag "b" "Job Type:";
      Tag (py "ul") [text_tag "li" "Full-time"; text_tag "li" "Permanent"] ].

Definition two_line_page : page :=
  toy_page
    [ ("h1", "Data Engineer");
      ("div.JobDetails_jobDescription__uW_fK", "Job Type: Full-time Permanent") ]
    (Some two_line_job_type).

(** The variables that go to fields declared [Optional[str]]. *)
Definition str_only_keys : list pystr :=
  [py "jobType"; py "pay"; py "workLocation"; py "education"].

(** ** Nested content and repeated headers *)

(** The saved sections named [k], in the order they are saved. *)
Definition commits_named (U : unicode_db) (els : list node) (k : pystr)
    : list (pystr * list pystr) :=
  List.filter (fun kc => bool_decide (kc.1 = k)) (commits U els).

(** A description with a paragraph wrapped in a block. *)
Definition wrapped_paragraph : node :=
  Tag (py "div")
    [ text_tag "b" "Benefits:";
      Tag (py "div") [text_tag "p" "Health insurance"] ].

(** ** The apply button and the logo *)

(** A locator whose element has text that is not blank. *)
Definition has_text (pg : page) (sel : pystr) : Prop :=
  exists raw, find_element_text pg sel = Some raw /\ nonempty (strip raw) = true.

(** A locator whose element has the attribute, with the value [v]. *)
Definition has_attribute (pg : page) (a v : pystr) (sel : pystr) : Prop :=
  find_element_attribute pg sel a = Some (Some v).

(** A locator that gives no usable attribute: no element, no attribute, or
    an empty value. *)
Definition no_attribute (pg : page) (a : pystr) (sel : pystr) : Prop :=
  match find_element_attribute pg sel a with
  | Some (Some v) => v = []
  | _ => True
  end.

(** A page with a title, an apply button without text under the first
    locator and with text under the second, and three logo elements: the
    first without a src, the other two with different ones. *)
Definition apply_page : page :=
  {| find_element_text := fun sel =>
       if pystr_eqb sel (py "h1") then Some (py "Data Engineer")
       else if pystr_eqb sel (py "button[data-test='easyApply']") then Some (py " ")
       else if pystr_eqb sel (py "button[data-test='apply-button']")
       then Some (py " Easy Apply ")
       else None;
     find_element_attribute := fun sel a =>
       if negb (pystr_eqb a (py "src")) then None
       else if pystr_eqb sel (py ".EmployerProfile_profileContainer__63w3R img")
       then Some None
       else if pystr_eqb sel (py ".EmployerProfile_logo__3xqON img")
       then Some (Some (py " https://example.test/logo.png"))
       else if pystr_eqb sel (py "img[alt*='logo']")
       then Some (Some (py "https://example.test/other.png"))
       else None;
     soup_find_div := fun _ => None;
     soup_select_one := fun _ => None |}.

(** ** The calls to the fallback extractors *)

(** The scalar variables that the section map left empty, in the order of
    the regex loop. *)
Definition missing_scalars (fr : frame) : list pystr :=
  List.filter (fun k => negb (truthy (dict_get fr k))) str_keys.

(** The calls the two fallback passes make for a description text. *)
Definition expected_calls (text : option pystr) (fr : frame) : list call :=
  match text with
  | Some t =>
      if nonempty t
      then (CallRegex t <$> missing_scalars fr)
           ++ (if any_missing fr then [CallLLM t] else [])
      else []
  | None => []
  end.

(* ===================================================================== *)
(** * Collecting the job links: [GlassdoorScraper._collect_job_urls]      *)
(* ===================================================================== *)

(** [self.config.selectors['job_links']] and
    [self.config.selectors.get('load_more', [])]. *)
Definition job_links_selectors : list pystr :=
  [ py "a.JobCard_jobTitle__GLyJ1[data-test='job-title']";
    py "a[data-test='job-title']";
    py ".JobCard_jobTitle__rw2J1 a" ].

Definition load_more_selectors : list pystr :=
  [ py "button[data-test='load-more']";
    py "button[data-test='pagination-footer-next']";
    py "button.css-1gpqj0y" ].

(** [l[:n]] for an integer [n] of either sign. *)
Definition py_slice_to {A} (n : Z) (l : list A) : list A :=
  if (0 <=? n)%Z then take (Z.to_nat n) l
  else take (length l - Z.to_nat (- n)) l.

(** An element of the results page, seen through the one query the loop
    makes: what [elem.get_attribute('href')] gives. *)
Definition link_element : Type := exc (option pystr).

Section Collect.
Context {D : Type}.
(** The browser, in a state [d : D]:
    [driver.find_elements(By.CSS_SELECTOR, s)];
    [driver.find_element(By.CSS_SELECTOR, s).is_displayed()];
    [btn.click()] followed by [time.sleep(2)], with the state it leaves. *)
Variable find_elements : D -> pystr -> exc (list link_element).
Variable find_button : D -> pystr -> exc bool.
Variable click : D -> pystr -> exc unit * D.
(** [list(job_urls)]: the set in the order Python iterates it. *)
Variable order : gset pystr -> list pystr.

(** [len(job_urls) >= num_jobs] *)
Definition enough (num_jobs : Z) (job_urls : gset pystr) : bool :=
  (num_jobs <=? Z.of_nat (size job_urls))%Z.

(** [for elem in elements: ...]: the set after the loop, and whether the
    loop ended without an exception. *)
Fixpoint scan_elements (num_jobs : Z) (elements : list link_element)
    (job_urls : gset pystr) : gset pystr * bool :=
  match elements with
  | [] => (job_urls, true)
  | Raise _ :: _ => (job_urls, false)
  | Ok href :: rest =>
      match href with
      | Some h =>
          if nonempty h && negb (bool_decide (h ∈ job_urls)) then
            let job_urls' := {[ h ]} ∪ job_urls in
            if enough num_jobs job_urls' then (job_urls', true)
            else scan_elements num_jobs rest job_urls'
          else scan_elements num_jobs rest job_urls
      | None => scan_elements num_jobs rest job_urls
      end
  end.

(** [for selector in selectors: try: ... except Exception: continue]: the
    set and the flag [found] after the loop. *)
Fixpoint scan_selectors (num_jobs : Z) (d : D) (sels : list pystr)
    (job_urls : gset pystr) (found : bool) : gset pystr * bool :=
  match sels with
  | [] => (job_urls, found)
  | selector :: rest =>
      match find_elements d selector with
      | Ok elements =>
          let '(job_urls', completed) := scan_elements num_jobs elements job_urls in
          if completed then
            if enough num_jobs job_urls' then (job_urls', true)
            else scan_selectors num_jobs d rest job_urls' true
          else scan_selectors num_jobs d rest job_urls' found
      | Raise _ => scan_selectors num_jobs d rest job_urls found
      end
  end.

(** [for btn_selector in load_more_selectors: ...]: the flag [clicked] and
    the state of the browser after the loop. *)
Fixpoint click_load_more (d : D) (sels : list pystr) : bool * D :=
  match sels with
  | [] => (false, d)
  | btn_selector :: rest =>
      match find_button d btn_selector with
      | Ok true =>
          match click d btn_selector with
          | (Ok _, d') => (true, d')
          | (Raise _, d') => click_load_more d' rest
          end
      | _ => click_load_more d rest
      end
  end.

(** [while len(job_urls) < num_jobs: ...], for at most [fuel] rounds. *)
Fixpoint collect_loop (fuel : nat) (num_jobs : Z) (d : D) (job_urls : gset pystr)
    : option (gset pystr) :=
  if enough num_jobs job_urls then Some job_urls
  else
    match fuel with
    | O => None
    | S fuel' =>
        let '(job_urls', found) :=
          scan_selectors num_jobs d job_links_selectors job_urls false in
        if negb found || enough num_jobs job_urls' then Some job_urls'
        else
          let '(clicked, d') := click_load_more d load_more_selectors in
          if clicked then collect_loop fuel' num_jobs d' job_urls'
          else Some job_urls'
    end.

(** [GlassdoorScraper._collect_job_urls]; [None] when the loop has not
    ended after [fuel] rounds. *)
Definition _collect_job_urls (fuel : nat) (d : D) (num_jobs : Z)
    : option (list pystr) :=
  job_urls ← collect_loop fuel num_jobs d ∅;
  Some (py_slice_to num_jobs (order job_urls)).

(** A link the browser showed: the href of an element that some locator
    found in some state. *)
Definition shown (h : pystr) : Prop :=
  exists d sel elements,
    find_elements d sel = Ok elements /\ Ok (Some h) ∈ elements.

(** The states of the browser that the loop goes through from [d0]: [d0]
    itself, and each state that a click on a "load more" button leaves. *)
Inductive visited (d0 : D) : D -> Prop :=
| visited_first : visited d0 d0
| visited_next d d' :
    visited d0 d ->
    click_load_more d load_more_selectors = (true, d') ->
    visited d0 d'.

(** The element with the href [h] is reached by the loop over [elements]:
    no element before it raised on [get_attribute]. *)
Definition reached (elements : list link_element) (h : pystr) : Prop :=
  exists pre post,
    elements = pre ++ Ok (Some h) :: post
    /\ Forall (fun e : link_element => raises e = false) pre.

(** A link that the loop read: the href of an element that a locator of
    the job links found, in a state the loop went through from [d0]. *)
Definition listed (d0 : D) (h : pystr) : Prop :=
  exists d sel elements,
    visited d0 d /\ sel ∈ job_links_selectors
    /\ find_elements d sel = Ok elements /\ reached elements h.

(** The set holds only non-empty links that the loop read. *)
Definition links_only (d0 : D) (job_urls : gset pystr) : Prop :=
  forall h, h ∈ job_urls -> h <> [] /\ listed d0 h.

(** The invariant of the loops: the set has at most [num_jobs] links, or
    is still empty, and holds only links that the loop read. *)
Definition collect_inv (d0 : D) (num_jobs : Z) (job_urls : gset pystr) : Prop :=
  (Z.of_nat (size job_urls) <= Z.max 0 num_jobs)%Z
  /\ links_only d0 job_urls.
End Collect.

(** A results page without job links whose "next" button stays in place. *)
Definition empty_results_find (d : unit) (sel : pystr) : exc (list link_element) :=
  Ok [].
Definition next_button (d : unit) (sel : pystr) : exc bool :=
  Ok (pystr_eqb sel (py "button[data-test='pagination-footer-next']")).
Definition next_click (d : unit) (sel : pystr) : exc unit * unit := (Ok (), ()).

(** A results page with three links, one of them twice, and no button. *)
Definition three_links_find (d : unit) (sel : pystr) : exc (list link_element) :=
  if pystr_eqb sel (py "a[data-test='job-title']")
  then Ok [ Ok (Some (py "https://example.test/job?jl=1"));
            Ok None;
            Ok (Some (py "https://example.test/job?jl=2"));
            Ok (Some (py "https://example.test/job?jl=1"));
            Ok (Some (py "https://example.test/job?jl=3")) ]
  else Raise KeyError.
Definition no_button (d : unit) (sel : pystr) : exc bool := Raise KeyError.

(** ** What a pattern can consume *)

(** The words a pattern matches, taken out of context: boundaries ask
    nothing of the word, groups are transparent. *)
Inductive lang (U : unicode_db) (fl : re_flags) : regex -> pystr -> Prop :=
| lang_char c t : char_test U fl c t = true -> lang U fl (RChar c) [t]
| lang_any t : DOTALL fl || negb (t =? 10) = true -> lang U fl RAny [t]
| lang_set neg items t :
    set_test U fl neg items t = true -> lang U fl (RSet neg items) [t]
| lang_boundary : lang U fl RBoundary []
| lang_empty : lang U fl REmpty []
| lang_seq r1 r2 w1 w2 :
    lang U fl r1 w1 -> lang U fl r2 w2 -> lang U fl (RSeq r1 r2) (w1 ++ w2)
| lang_alt_l r1 r2 w : lang U fl r1 w -> lang U fl (RAlt r1 r2) w
| lang_alt_r r1 r2 w : lang U fl r2 w -> lang U fl (RAlt r1 r2) w
| lang_opt_none r : lang U fl (ROpt r) []
| lang_opt_some r w : lang U fl r w -> lang U fl (ROpt r) w
| lang_star_nil r : lang U fl (RStar r) []
| lang_star_cons r w1 w2 :
    lang U fl r w1 -> lang U fl (RStar r) w2 -> lang U fl (RStar r) (w1 ++ w2)
| lang_group i r w : lang U fl r w -> lang U fl (RGroup i r) w.

(** The pattern has its group 1 around [body], with nothing after the
    group but a word boundary. *)
Inductive group1_at : regex -> regex -> Prop :=
| group1_here body : group1_at (RGroup 1 body) body
| group1_after r1 r2 body : group1_at r2 body -> group1_at (RSeq r1 r2) body
| group1_boundary r1 body : group1_at r1 body -> group1_at (RSeq r1 RBoundary) body.

(** A continuation that leaves group 1 as it finds it. *)
Definition keeps_group1 (k : option N -> pystr -> captures -> option captures)
    : Prop :=
  forall p s c m, k p s c = Some m -> group 1 m = group 1 c.

(** The patterns [<Label>[:\-]?\s*(.+)] of the two tables. *)
Definition line_fields : list (pystr * string) :=
  [ (py "benefits", "Benefits"); (py "schedule", "Schedule");
    (py "education", "Education") ].
Definition legacy_line_fields : list (pystr * string) :=
  line_fields ++ [ (py "mostRelevantSkills", "Most Relevant Skills");
                   (py "otherRelevantSkills", "Other Relevant Skills") ].

(** ** The job types the regex extractor can return *)

(** [w] is [form] up to case, character by character, as
    [re.IGNORECASE] compares. *)
Definition ieq_word (U : unicode_db) (form w : pystr) : Prop :=
  Forall2 (fun c t => char_test U re_IGNORECASE c t = true) form w.

Definition job_type_forms : list pystr :=
  [ py "fulltime"; py "full-time"; py "full time";
    py "parttime"; py "part-time"; py "part time";
    py "contract"; py "internship"; py "temporary" ].

(** The group of [jobType_pattern]. *)
Definition job_type_body : regex :=
  ralt [ rseq [lit "full"; ROpt (RSet false [CChar 45; CChar 32]); lit "time"];
         rseq [lit "part"; ROpt (RSet false [CChar 45; CChar 32]); lit "time"];
         lit "contract"; lit "internship"; lit "temporary" ].

(** A character of a form: ASCII and not an upper-case letter. *)
Definition plain_lower (c : N) : Prop := is_ascii c = true /\ ascii_lower c = c.

(* ===================================================================== *)
(** * The whole run: [GlassdoorScraper.scrape_jobs]                       *)
(* ===================================================================== *)

(** [ScraperConfig.max_retries] and [ScraperConfig.retry_delay]. *)
Definition max_retries : nat := 3.
Definition retry_delay : Z := 2.

(** What [scrape_jobs] returns: the records, and the two counts of the
    metadata, [requested_jobs] and [scraped_jobs]. *)
Record scrape_result := {
  scraped_jobs : list JobPosting;
  requested_jobs : Z;
  scraped_count : nat;
}.

(** How a run ends when it does not return: [create_driver] raised, or
    [_perform_search] raised its [RuntimeError]. *)
Inductive scrape_error := DriverError | RuntimeError.

Section Scrape.
Variable U : unicode_db.
Variable env : llm_env.
Variable browse : pystr -> option page.
Context {D : Type}.
Variable find_elements : D -> pystr -> exc (list link_element).
Variable find_button : D -> pystr -> exc bool.
Variable click : D -> pystr -> exc unit * D.
Variable order : gset pystr -> list pystr.
(** Whether [self.driver_manager.create_driver()] returns. *)
Variable create_driver : bool.
(** The call number [n] of [search_action]: it raises, or it returns
    [True] with the browser on the results page. *)
Variable search_action : nat -> browser_error + D.

(** [_perform_search]: [None] stands for
    [raise RuntimeError("Search action failed after retries.")].  The
    retries themselves do not raise here: a logger is passed, and the
    delay of the configuration can be slept. *)
Definition _perform_search : option D :=
  match outcome (safe_execute_with_retry search_action max_retries retry_delay true) with
  | Ok (Some d) => Some d
  | _ => None
  end.

(** [GlassdoorScraper.scrape_jobs]; [None] when the collecting loop has
    not ended after [fuel] rounds. *)
Definition scrape_jobs (fuel : nat) (num_jobs : Z)
    : option (scrape_error + scrape_result) :=
  if create_driver then
    match _perform_search with
    | Some d =>
        job_urls ← _collect_job_urls find_elements find_button click order
                      fuel d num_jobs;
        let jobs := _extract_jobs_concurrent U env browse job_urls in
        Some (inr {| scraped_jobs := jobs;
                     requested_jobs := num_jobs;
                     scraped_count := length jobs |})
    | None => Some (inl RuntimeError)
    end
  else Some (inl DriverError).
End Scrape.

(** A search that times out once, then reaches the results page. *)
Definition slow_search (n : nat) : browser_error + unit :=
  if (n <? 1)%nat then inl TimeoutException else inr ().

(** ** The job id in the older script *)

(** [\d+] *)
Definition digits : regex := RPlus (RSet false [CDigit]).

(** [job-title-(\d+)] and [jlid=(\d+)] *)
Definition job_title_id_pattern : regex := rseq [ lit "job-title-"; RGroup 1 digits ].
Definition jlid_pattern : regex := rseq [ lit "jlid="; RGroup 1 digits ].

(** The job id of [scrape_with_selenium]: the URL first, then the two
    patterns on [driver.page_source]. *)
Definition legacy_job_id (U : unicode_db) (job_url page_source : pystr)
    : option pystr :=
  let m :=
    match re_search U no_flags job_id_pattern job_url with
    | Some m => Some m
    | None =>
        match re_search U no_flags job_title_id_pattern page_source with
        | Some m => Some m
        | None => re_search U no_flags jlid_pattern page_source
        end
    end in
  m ≫= group 1.

(** [id] is a non-empty run of decimal digits inside [s]. *)
Definition digits_of (U : unicode_db) (s id : pystr) : Prop :=
  id <> [] /\ Forall (fun c => is_decimal U c = true) id
  /\ exists pre post, s = pre ++ id ++ post.

(* ===================================================================== *)
(** * The loop of the older script: [scrape_with_selenium]                *)
(* ===================================================================== *)

Section LegacyLoop.
(** [D]: the states of the browser; [J]: the dictionaries appended to
    [jobs]. *)
Context {D J : Type}.
(** [driver.find_elements(By.CSS_SELECTOR, "a.JobCard_jobTitle__GLyJ1[data-test='job-title']")],
    each element as what its [get_attribute("href")] gives. *)
Variable find_links : D -> exc (list link_element).
(** The body of [for job_url in job_links]: [driver.get(job_url)] and the
    extraction; the dictionary it appends and the browser after it. *)
Variable visit : D -> pystr -> exc (J * D).
(** The click on the "load-more" button: [None] when the button is
    missing or hidden, or when the click raises. *)
Variable load_more : D -> option D.

(** [for elem in job_link_elems: ...]: the new links in page order, and
    [seen_links] after the loop. *)
Fixpoint legacy_new_links (elems : list link_element) (seen_links : gset pystr)
    : exc (list pystr * gset pystr) :=
  match elems with
  | [] => Ok ([], seen_links)
  | Raise e :: _ => Raise e
  | Ok href :: rest =>
      match href with
      | Some h =>
          if nonempty h && negb (bool_decide (h ∈ seen_links)) then
            match legacy_new_links rest ({[ h ]} ∪ seen_links) with
            | Ok (job_links, seen') => Ok (h :: job_links, seen')
            | Raise e => Raise e
            end
          else legacy_new_links rest seen_links
      | None => legacy_new_links rest seen_links
      end
  end.

(** [for job_url in job_links: ...; jobs.append({...})] *)
Fixpoint visit_links (d : D) (job_links : list pystr) (jobs : list J)
    : exc (list J * D) :=
  match job_links with
  | [] => Ok (jobs, d)
  | job_url :: rest =>
      match visit d job_url with
      | Ok (job, d') => visit_links d' rest (jobs ++ [job])
      | Raise e => Raise e
      end
  end.

(** [while len(jobs) < num_jobs: ...], for at most [fuel] rounds; the
    outcome is the list [jobs] or the exception that ends the run. *)
Fixpoint legacy_loop (fuel : nat) (num_jobs : Z) (d : D) (jobs : list J)
    (seen_links : gset pystr) : option (exc (list J)) :=
  if (Z.of_nat (length jobs) <? num_jobs)%Z then
    match fuel with
    | O => None
    | S fuel' =>
        match find_links d with
        | Raise e => Some (Raise e)
        | Ok job_link_elems =>
            match legacy_new_links job_link_elems seen_links with
            | Raise e => Some (Raise e)
            | Ok (job_links, seen') =>
                let job_links' :=
                  py_slice_to (num_jobs - Z.of_nat (length jobs)) job_links in
                match visit_links d job_links' jobs with
                | Raise e => Some (Raise e)
                | Ok (jobs', d') =>
                    if (num_jobs <=? Z.of_nat (length jobs'))%Z then Some (Ok jobs')
                    else
                      match load_more d' with
                      | Some d'' => legacy_loop fuel' num_jobs d'' jobs' seen'
                      | None => Some (Ok jobs')
                      end
                end
            end
        end
    end
  else Some (Ok jobs).

(** The list under ['scraped_jobs'] in what [scrape_with_selenium]
    returns, from the results page on. *)
Definition scrape_with_selenium_jobs (fuel : nat) (d : D) (num_jobs : Z)
    : option (exc (list J)) :=
  legacy_loop fuel num_jobs d [] ∅.

(** The invariant of the loop, for the key ['jdURL'] of the
    dictionaries. *)
Definition legacy_inv (jdURL : J -> pystr) (num_jobs : Z) (jobs : list J)
    (seen_links : gset pystr) : Prop :=
  (Z.of_nat (length jobs) <= Z.max 0 num_jobs)%Z
  /\ NoDup (jdURL <$> jobs)
  /\ Forall (fun j => jdURL j <> [] /\ jdURL j ∈ seen_links) jobs.
End LegacyLoop.

(** A results page with three links, whose job pages all load. *)
Definition three_links (d : unit) : exc (list link_element) :=
  Ok [ Ok (Some (py "https://example.test/job?jl=1"));
       Ok None;
       Ok (Some (py "https://example.test/job?jl=2"));
       Ok (Some (py "https://example.test/job?jl=1"));
       Ok (Some (py "https://example.test/job?jl=3")) ].
Definition visit_any (d : unit) (job_url : pystr) : exc (pystr * unit) :=
  Ok (job_url, ()).
Definition no_load_more (d : unit) : option unit := None.

(* ===================================================================== *)
(** * Properties                                                          *)
(* ===================================================================== *)

(** ** Trimming *)

Lemma lstrip_no_lead s : no_lead (lstrip s).
Proof.
  induction s as [|c r IH]; simpl; [done|].
  destruct (is_space c) eqn:E; [exact IH | exact E].
Qed.

Lemma lstrip_fixed s : no_lead s -> lstrip s = s.
Proof. destruct s as [|c r]; simpl; [done|]. by intros ->. Qed.

Lemma lstrip_suffix s : exists pre, s = pre ++ lstrip s.
Proof.
  induction s as [|c r [pre IH]]; simpl.
  - by exists [].
  - destruct (is_space c).
    + exists (c :: pre). simpl. by f_equal.
    + by exists [].
Qed.

Lemma rstrip_prefix s : exists post, s = rstrip s ++ post.
Proof.
  unfold rstrip. destruct (lstrip_suffix (reverse s)) as [pre E].
  exists (reverse pre).
  rewrite <- reverse_app, <- E. by rewrite reverse_involutive.
Qed.

Lemma rstrip_no_lead s : no_lead s -> no_lead (rstrip s).
Proof.
  intros H. destruct (rstrip_prefix s) as [post E].
  destruct (rstrip s) as [|c r]; [done|].
  rewrite E in H. exact H.
Qed.

Lemma rstrip_fixed s : no_lead (reverse s) -> rstrip s = s.
Proof.
  intros H. unfold rstrip. rewrite lstrip_fixed by done.
  apply reverse_involutive.
Qed.

Lemma strip_no_lead s : no_lead (strip s).
Proof. apply rstrip_no_lead, lstrip_no_lead. Qed.

Lemma strip_no_trail s : no_lead (reverse (strip s)).
Proof.
  unfold strip, rstrip. rewrite reverse_involutive. apply lstrip_no_lead.
Qed.

(** A trimmed string is left as it is: [strip] is idempotent. *)
Lemma strip_idemp s : strip (strip s) = strip s.
Proof.
  unfold strip at 1.
  rewrite (lstrip_fixed (strip s)) by apply strip_no_lead.
  apply rstrip_fixed, strip_no_trail.
Qed.

Lemma nonempty_true s : nonempty s = true <-> s <> [].
Proof. destruct s; simpl; split; congruence. Qed.

(** ** The regex fallback extractor *)

Lemma regex_fallback_trimmed U text field :
  strip <$> extract_with_regex_fallback U text field
  = extract_with_regex_fallback U text field.
Proof.
  unfold extract_with_regex_fallback.
  destruct (nonempty text); simpl; [|done].
  destruct (patterns !! field) as [pattern|]; [|done].
  destruct (re_search U re_IGNORECASE pattern text) as [m|]; [|done].
  destruct (group 1 m) as [g|]; simpl; [|done].
  by rewrite strip_idemp.
Qed.

(** C4. The regex fallback extractor looks the field up in a static table
    of patterns, makes one case-insensitive search of the text and returns
    the first captured group, trimmed; it returns nothing when the text is
    empty, when the pattern does not match, or when the field has no
    pattern.  On the text "Job Type: Full-time. Some other text." the field
    jobType yields exactly "Full-time", in the class-based extractor and in
    the older function alike, whatever the Unicode tables say outside
    ASCII. *)
Theorem regex_fallback_contract :
  (forall U,
     extract_with_regex_fallback U
       (py "Job Type: Full-time. Some other text.") (py "jobType")
     = Some (py "Full-time"))
  /\ (forall U,
     Legacy.extract_field_by_regex U
       (py "Job Type: Full-time. Some other text.") (py "jobType")
     = Some (py "Full-time"))
  /\ (forall U text field,
     extract_with_regex_fallback U text field
     = match patterns !! field with
       | Some pattern =>
           if nonempty text then first_group_trimmed U pattern text else None
       | None => None
       end)
  /\ (forall U text field,
     strip <$> extract_with_regex_fallback U text field
     = extract_with_regex_fallback U text field)
  /\ (forall U text,
     extract_with_regex_fallback U text (py "title") = None
     /\ extract_with_regex_fallback U text (py "mostRelevantSkills") = None)
  /\ (forall U,
     extract_with_regex_fallback U (py "Some other text.") (py "jobType") = None
     /\ extract_with_regex_fallback U (py "JOB TYPE: PART TIME") (py "jobType")
        = Some (py "PART TIME")).
Proof.
  split; [intros U; vm_compute; reflexivity|].
  split; [intros U; vm_compute; reflexivity|].
  split.
  { intros U text field. unfold extract_with_regex_fallback, first_group_trimmed.
    destruct (patterns !! field) as [pattern|]; destruct (nonempty text); simpl; done. }
  split; [apply regex_fallback_trimmed|].
  split.
  { intros U text. unfold extract_with_regex_fallback.
    destruct (nonempty text); simpl; [|done].
    split; reflexivity. }
  intros U. split; vm_compute; reflexivity.
Qed.

(** ** The section segmenter *)

Section WalkFacts.
Variable U : unicode_db.
Context {S : Type} (store : S -> pystr -> list pystr -> S).

Lemma seg_step_header st name children :
  name_in name header_names = true ->
  seg_step U store st (Tag name children)
  = {| sections := save_section store st;
       current_section := Some (header_key U (Tag name children));
       current_content := [] |}.
Proof. intros H. simpl. by rewrite H. Qed.

Lemma seg_step_inert st e : inert e = true -> seg_step U store st e = st.
Proof.
  destruct e as [s|name cs]; [done|].
  unfold inert, is_header, is_content. simpl.
  destruct (name_in name header_names); simpl; [done|].
  destruct (name_in name content_names); simpl; [|done].
  intros ->%negb_true_iff. by destruct (section_open st).
Qed.

Lemma seg_step_closed st e :
  section_open st = false -> is_header e = false -> seg_step U store st e = st.
Proof.
  destruct e as [s|name cs]; [done|]. simpl. intros -> ->.
  by rewrite andb_false_r.
Qed.

Lemma foldl_inert st els :
  Forall (fun e => inert e = true) els -> foldl (seg_step U store) st els = st.
Proof.
  intros H. revert st. induction H as [|e els He _ IH]; intros st; simpl; [done|].
  by rewrite seg_step_inert.
Qed.

Lemma foldl_before_first_header empty els :
  Forall (fun e => is_header e = false) els ->
  foldl (seg_step U store) (seg_init empty) els = seg_init empty.
Proof.
  intros H. induction H as [|e els He _ IH]; simpl; [done|].
  by rewrite seg_step_closed.
Qed.

(** Content before the first header is passed over. *)
Lemma walk_drop_preamble empty pre rest :
  Forall (fun e => is_header e = false) pre ->
  walk U store empty (pre ++ rest) = walk U store empty rest.
Proof.
  intros H. unfold walk. by rewrite foldl_app, foldl_before_first_header.
Qed.

(** A header followed by no content leaves no trace. *)
Lemma walk_drop_empty_header empty pre h mid rest :
  is_header h = true ->
  Forall (fun e => inert e = true) mid ->
  at_section_start rest = true ->
  walk U store empty (pre ++ h :: mid ++ rest) = walk U store empty (pre ++ rest).
Proof.
  intros Hh Hmid Hrest. unfold walk.
  rewrite !foldl_app. simpl. rewrite foldl_app.
  set (st := foldl (seg_step U store) (seg_init empty) pre).
  destruct h as [s|name cs]; [done|]. simpl in Hh.
  rewrite seg_step_header by done. rewrite (foldl_inert _ mid) by done.
  destruct rest as [|e rest]; simpl.
  - reflexivity.
  - destruct e as [s|name' cs']; [done|]. simpl in Hrest.
    by rewrite !seg_step_header.
Qed.
End WalkFacts.

(** The two stores agree: the dictionary is the replay of the log. *)
Lemma walk_morphism U {S1 S2} (store1 : S1 -> pystr -> list pystr -> S1)
    (store2 : S2 -> pystr -> list pystr -> S2) (f : S2 -> S1) :
  (forall s k c, f (store2 s k c) = store1 (f s) k c) ->
  forall empty els, walk U store1 (f empty) els = f (walk U store2 empty els).
Proof.
  intros Hf empty els.
  set (F := fun st : seg_state S2 =>
              {| sections := f (sections st);
                 current_section := current_section st;
                 current_content := current_content st |}).
  assert (Hsave : forall st, save_section store1 (F st) = f (save_section store2 st)).
  { intros [m [sec|] [|c cc]]; unfold F, save_section; simpl; try done.
    by destruct (nonempty sec). }
  assert (Hstep : forall st e, seg_step U store1 (F st) e = F (seg_step U store2 st e)).
  { intros st [s|name cs]; [done|]. simpl.
    destruct (name_in name header_names).
    - unfold F at 2. simpl. by rewrite <- Hsave.
    - replace (section_open (F st)) with (section_open st) by done.
      destruct (name_in name content_names && section_open st); [|done].
      by destruct (nonempty (get_text [] (Tag name cs))). }
  assert (Hfold : forall st, foldl (seg_step U store1) (F st) els
                             = F (foldl (seg_step U store2) st els)).
  { induction els as [|e els IH]; intros st; simpl; [done|].
    by rewrite Hstep, IH. }
  unfold walk. change (seg_init (f empty)) with (F (seg_init empty)).
  by rewrite Hfold, Hsave.
Qed.

Lemma replay_snoc log k c :
  replay (log ++ [(k, c)]) = store_section (replay log) k c.
Proof. unfold replay. by rewrite foldl_snoc. Qed.

Lemma segment_replay U els : segment U els = replay (commits U els).
Proof.
  unfold segment, commits.
  change (∅ : gmap pystr value) with (replay []).
  apply (walk_morphism U store_section log_section replay).
  intros s k c. apply replay_snoc.
Qed.

Lemma replay_lookup log k v :
  replay log !! k = Some v ->
  exists content, (k, content) ∈ log /\ v = _process_section_content content.
Proof.
  induction log as [|[k' c'] log IH] using rev_ind.
  - unfold replay. simpl. by rewrite lookup_empty.
  - rewrite replay_snoc. unfold store_section.
    destruct (decide (k' = k)) as [->|Hne].
    + rewrite lookup_insert_eq. intros [= <-]. exists c'. split; [|done].
      apply elem_of_app. right. by apply list_elem_of_singleton.
    + rewrite lookup_insert_ne by done. intros H.
      destruct (IH H) as (c & Hin & ->). exists c. split; [|done].
      apply elem_of_app. by left.
Qed.

Lemma replay_named log k :
  replay log !! k
  = (fun kc => _process_section_content kc.2)
      <$> last (List.filter (fun kc : pystr * list pystr => bool_decide (kc.1 = k)) log).
Proof.
  induction log as [|[k' c'] log IH] using rev_ind.
  - unfold replay. simpl. by rewrite lookup_empty.
  - rewrite replay_snoc. unfold store_section. rewrite List.filter_app.
    cbn [List.filter fst snd].
    destruct (decide (k' = k)) as [->|Hne].
    + rewrite lookup_insert_eq. rewrite bool_decide_eq_true_2 by done.
      by rewrite last_snoc.
    + rewrite lookup_insert_ne by done. rewrite bool_decide_eq_false_2 by done.
      by rewrite app_nil_r.
Qed.

(** *** The log of saved sections *)

Lemma save_log_length (st : seg_state (list (pystr * list pystr))) :
  (length (save_section log_section st) <= length (sections st) + pending st)%nat.
Proof.
  destruct st as [log [sec|] [|c cc]]; unfold save_section, pending; simpl; try lia.
  destruct (nonempty sec); unfold log_section; rewrite ?length_app; simpl; lia.
Qed.

Lemma log_length_step U (st : seg_state (list (pystr * list pystr))) els :
  let st' := foldl (seg_step U log_section) st els in
  (length (sections st') + pending st'
   <= length (sections st) + pending st + length (List.filter is_header els))%nat.
Proof.
  revert st. induction els as [|e els IH]; intros st; simpl; [lia|].
  specialize (IH (seg_step U log_section st e)). simpl in IH.
  destruct e as [s|name cs]; simpl in *; [lia|].
  destruct (name_in name header_names) eqn:Hh; simpl in *.
  - pose proof (save_log_length st). unfold pending at 2 in IH. simpl in IH. lia.
  - destruct (name_in name content_names && section_open st); [|lia].
    destruct (nonempty (get_text [] (Tag name cs))); [|lia].
    unfold pending in *. simpl in *. lia.
Qed.

(** Every header accounts for at most one saved section. *)
Lemma commits_le_headers U els :
  (length (commits U els) <= length (List.filter is_header els))%nat.
Proof.
  unfold commits, walk.
  pose proof (log_length_step U (seg_init []) els) as H. simpl in H.
  pose proof (save_log_length (foldl (seg_step U log_section) (seg_init []) els)).
  lia.
Qed.

Lemma save_log_well_formed st :
  well_formed_state st -> Forall well_formed_commit (save_section log_section st).
Proof.
  intros [Hlog Hcc]. destruct st as [log [sec|] [|c cc]]; unfold save_section; simpl in *;
    try done.
  destruct (nonempty sec) eqn:Hsec; [|done].
  unfold log_section. apply Forall_app. split; [done|].
  apply Forall_singleton. repeat split; simpl; [|done|done].
  by apply nonempty_true.
Qed.

Lemma seg_step_well_formed U st e :
  well_formed_state st -> well_formed_state (seg_step U log_section st e).
Proof.
  intros Hst. destruct e as [s|name cs]; [done|]. simpl.
  destruct (name_in name header_names).
  - split; simpl; [by apply save_log_well_formed | constructor].
  - destruct (name_in name content_names && section_open st); [|done].
    destruct (nonempty (get_text [] (Tag name cs))) eqn:Ht; [|done].
    destruct Hst as [Hlog Hcc]. split; simpl; [done|].
    apply Forall_app. split; [done|]. apply Forall_singleton.
    by apply nonempty_true.
Qed.

(** Every saved section has a name and at least one non-empty string. *)
Lemma commits_well_formed U els : Forall well_formed_commit (commits U els).
Proof.
  unfold commits, walk. apply save_log_well_formed.
  assert (H : well_formed_state (seg_init [])) by (split; constructor).
  revert H. generalize (seg_init ([] : list (pystr * list pystr))).
  induction els as [|e els IH]; intros st Hst; simpl; [done|].
  apply IH. by apply seg_step_well_formed.
Qed.

(** *** The value stored for a section *)

Lemma process_many a b rest :
  _process_section_content (a :: b :: rest)
  = if forallb short (a :: b :: rest) then content_list (a :: b :: rest)
    else VStr (join (py " ") (a :: b :: rest)).
Proof. reflexivity. Qed.

Lemma not_all_short l :
  forallb short l = false -> Exists (fun item => (200 <= length item)%nat) l.
Proof.
  induction l as [|x l IH]; simpl; [done|].
  destruct (short x) eqn:Hx; simpl.
  - intros H. apply Exists_cons_tl. by apply IH.
  - intros _. apply Exists_cons_hd. unfold short in Hx.
    apply Nat.ltb_ge in Hx. exact Hx.
Qed.

Lemma process_stored_as (content : list pystr) :
  content <> [] -> stored_as content (_process_section_content content).
Proof.
  intros Hne. destruct content as [|a [|b rest]]; [done| |].
  - apply stored_single.
  - rewrite process_many.
    destruct (forallb short (a :: b :: rest)) eqn:Hall.
    + apply stored_list; [simpl; lia|].
      apply Forall_forall. intros item Hin.
      rewrite forallb_forall in Hall.
      apply list_elem_of_In in Hin. specialize (Hall item Hin).
      unfold short in Hall. by apply Nat.ltb_lt in Hall.
    + apply stored_joined; [simpl; lia|]. by apply not_all_short.
Qed.

Lemma process_not_empty (content : list pystr) :
  content <> [] -> Forall (fun s => s <> []) content ->
  _process_section_content content <> VStr []
  /\ _process_section_content content <> VList [].
Proof.
  intros Hne Hall. destruct content as [|a [|b rest]]; [done| |].
  - apply Forall_cons in Hall as [Ha _].
    change (_process_section_content [a]) with (VStr a). split; congruence.
  - apply Forall_cons in Hall as [Ha _]. rewrite process_many.
    destruct (forallb short (a :: b :: rest)).
    + unfold content_list. simpl. split; intros ?; discriminate.
    + split; [|intros ?; discriminate]. intros [= H].
      destruct a; [done|]. by simpl in H.
Qed.

Lemma segment_values_not_empty U els k :
  segment U els !! k <> Some (VStr []) /\ segment U els !! k <> Some (VList []).
Proof.
  rewrite segment_replay.
  destruct (replay (commits U els) !! k) as [v|] eqn:Hk; [|split; discriminate].
  apply replay_lookup in Hk as (content & Hin & ->).
  pose proof (commits_well_formed U els) as Hwf.
  rewrite Forall_forall in Hwf. destruct (Hwf _ Hin) as (_ & Hne & Hall).
  destruct (process_not_empty content Hne Hall) as [H1 H2].
  split; congruence.
Qed.

(** C6. Content nodes met before the first header are left out of every
    saved section: the saved sections, names and contents, are those of the
    traversal without them.  Each header accounts for at most one saved
    section: there are no more saved sections than header nodes. *)
Theorem preamble_discarded_one_commit_per_header U (pre rest : list node) :
  Forall (fun e => is_header e = false) pre ->
  commits U (pre ++ rest) = commits U rest
  /\ segment U (pre ++ rest) = segment U rest
  /\ (length (commits U (pre ++ rest))
      <= length (List.filter is_header (pre ++ rest)))%nat.
Proof.
  intros Hpre. split; [|split].
  - unfold commits. apply walk_drop_preamble. exact Hpre.
  - unfold segment. apply walk_drop_preamble. exact Hpre.
  - apply commits_le_headers.
Qed.

Lemma preamble_discarded_witness :
  Forall (fun e => is_header e = false) sample_preamble
  /\ commits ascii_db (sample_preamble ++ sample_sections)
     = commits ascii_db sample_sections
  /\ segment ascii_db (sample_preamble ++ sample_sections)
     = segment ascii_db sample_sections
  /\ (length (commits ascii_db (sample_preamble ++ sample_sections))
      <= length (List.filter is_header (sample_preamble ++ sample_sections)))%nat.
Proof.
  assert (H : Forall (fun e => is_header e = false) sample_preamble)
    by (repeat constructor).
  split; [exact H|].
  exact (preamble_discarded_one_commit_per_header ascii_db
           sample_preamble sample_sections H).
Defined.

Example sample_commits :
  commits ascii_db (sample_preamble ++ sample_sections)
  = [ (py "benefits", [py "Health insurance"]);
      (py "pay", [py "₹50,000 per month"]) ].
Proof. vm_compute. reflexivity. Qed.

Lemma stored_as_functional content v v' :
  stored_as content v -> stored_as content v' -> v = v'.
Proof.
  intros H H'.
  destruct H as [s|content Hlen Hall|content Hlen Hex]; inversion H'; subst;
    try done; try (cbn [length] in *; lia); exfalso.
  all: match goal with
       | Hex : Exists _ _, Hall : Forall _ _ |- _ =>
           apply Exists_exists in Hex as (item & Hin & Hge);
           rewrite Forall_forall in Hall; specialize (Hall item Hin); lia
       end.
Qed.

(** C7. The value stored for a saved section is decided by its content
    strings.  Every saved section has at least one content string.  The
    assignment that saves a section puts under its name exactly one
    string as that string, several strings that are all shorter than 200
    characters as the list of them in order, and several strings of which
    one has 200 characters or more as their join with a space; the three
    cases leave one value only.  So the dictionary that the method returns
    holds, under every name that was saved, the value that these cases
    give for the content saved last under that name, and it holds nothing
    under a name that was never saved. *)
Theorem stored_value_by_content U (els : list node) :
  Forall (fun kc => kc.2 <> []) (commits U els)
  /\ (forall m sec content,
        content <> [] ->
        exists v, store_section m sec content !! sec = Some v
                  /\ stored_as content v
                  /\ forall k, k <> sec -> store_section m sec content !! k = m !! k)
  /\ (forall k,
        match last (commits_named U els k) with
        | Some kc =>
            exists v, segment U els !! k = Some v /\ stored_as kc.2 v
        | None => segment U els !! k = None
        end)
  /\ (forall content v v',
        stored_as content v -> stored_as content v' -> v = v').
Proof.
  pose proof (commits_well_formed U els) as Hwf.
  split; [|split; [|split]].
  - eapply Forall_impl; [exact Hwf|]. by intros kc (_ & Hne & _).
  - intros m sec content Hne. exists (_process_section_content content).
    unfold store_section. rewrite lookup_insert_eq.
    split; [done|]. split; [by apply process_stored_as|].
    intros k Hk. by rewrite lookup_insert_ne.
  - intros k. rewrite segment_replay, replay_named. fold (commits_named U els k).
    destruct (last (commits_named U els k)) as [kc|] eqn:Hlast;
      cbn [fmap option_fmap option_map]; [|done].
    eexists. split; [done|]. apply process_stored_as.
    apply last_Some_elem_of in Hlast. unfold commits_named in Hlast.
    apply list_elem_of_In, filter_In in Hlast as [Hin _].
    apply list_elem_of_In in Hin.
    rewrite Forall_forall in Hwf. by destruct (Hwf kc Hin) as (_ & Hne & _).
  - apply stored_as_functional.
Qed.

(** C10. A header followed by no content node before the next header, or
    before the end of the traversal, leaves no entry: the section map and
    the saved sections are those of the traversal without that header; and
    no section is ever stored as an empty string or an empty list. *)
Theorem empty_section_not_stored U (pre : list node) (h : node)
    (mid rest : list node) :
  is_header h = true ->
  Forall (fun e => inert e = true) mid ->
  at_section_start rest = true ->
  segment U (pre ++ h :: mid ++ rest) = segment U (pre ++ rest)
  /\ commits U (pre ++ h :: mid ++ rest) = commits U (pre ++ rest)
  /\ (forall k,
        segment U (pre ++ h :: mid ++ rest) !! k <> Some (VStr [])
        /\ segment U (pre ++ h :: mid ++ rest) !! k <> Some (VList [])).
Proof.
  intros Hh Hmid Hrest. split; [|split].
  - unfold segment. apply walk_drop_empty_header; assumption.
  - unfold commits. apply walk_drop_empty_header; assumption.
  - intros k. apply segment_values_not_empty.
Qed.

Lemma empty_section_witness :
  (is_header sample_empty_header = true
   /\ Forall (fun e => inert e = true) sample_after_header
   /\ at_section_start sample_last = true)
  /\ segment ascii_db
       (sample_first ++ sample_empty_header :: sample_after_header ++ sample_last)
     = segment ascii_db (sample_first ++ sample_last)
  /\ commits ascii_db
       (sample_first ++ sample_empty_header :: sample_after_header ++ sample_last)
     = commits ascii_db (sample_first ++ sample_last)
  /\ (forall k,
        segment ascii_db
          (sample_first ++ sample_empty_header :: sample_after_header ++ sample_last)
          !! k <> Some (VStr [])
        /\ segment ascii_db
          (sample_first ++ sample_empty_header :: sample_after_header ++ sample_last)
          !! k <> Some (VList [])).
Proof.
  assert (H1 : is_header sample_empty_header = true) by reflexivity.
  assert (H2 : Forall (fun e => inert e = true) sample_after_header)
    by (repeat constructor).
  assert (H3 : at_section_start sample_last = true) by reflexivity.
  split; [by repeat split|].
  exact (empty_section_not_stored ascii_db sample_first sample_empty_header
           sample_after_header sample_last H1 H2 H3).
Defined.

Example sample_empty_header_absent :
  segment ascii_db
    (sample_first ++ sample_empty_header :: sample_after_header ++ sample_last)
    !! py "schedule" = None.
Proof. vm_compute. reflexivity. Qed.

(** ** The validated record *)

Lemma bind_Ok {A B} (m : exc A) (f : A -> exc B) (b : B) :
  m ≫= f = Ok b -> exists a, m = Ok a /\ f a = Ok b.
Proof. destruct m as [a|e]; simpl; [|done]. intros H. by exists a. Qed.

Ltac bind_inv H :=
  let a := fresh "a" in
  let Ha := fresh "Ha" in
  apply bind_Ok in H as (a & Ha & H).

Lemma title_validator_Ok v t :
  title_must_not_be_empty v = Ok t -> t = strip v /\ t <> [].
Proof.
  unfold title_must_not_be_empty.
  destruct (nonempty v); simpl; [|done].
  destruct (nonempty (strip v)) eqn:Hs; simpl; [|done].
  intros [= <-]. split; [done|]. by apply nonempty_true.
Qed.

Lemma title_validator_rejects v :
  nonempty (strip v) = false -> title_must_not_be_empty v = Raise ValidationError.
Proof.
  intros H. unfold title_must_not_be_empty. rewrite H. simpl.
  by rewrite orb_true_r.
Qed.

Lemma make_posting_Ok U a job :
  make_posting U a = Ok job ->
  title job = strip (a_title a) /\ title job <> []
  /\ salary job = normalize_currency U (a_salary a)
  /\ company_name job = a_company_name a
  /\ location job = a_location a
  /\ validate_opt_str (a_job_type a) = Ok (job_type job)
  /\ (exists p, validate_opt_str (a_pay a) = Ok p /\ pay job = normalize_currency U p)
  /\ validate_opt_list (ensure_list (a_most_relevant_skills a))
     = Ok (most_relevant_skills job).
Proof.
  unfold make_posting. intros H.
  do 9 bind_inv H. injection H as <-. simpl.
  apply title_validator_Ok in Ha as [-> Hne].
  repeat split; try done. by eexists.
Qed.

Lemma extract_single_job_Some U env browse job_url job :
  _extract_single_job U env browse job_url = Some job ->
  exists pg fr,
    browse job_url = Some pg
    /\ (merged_frame U env pg).1 = Ok fr
    /\ make_posting U (posting_args_of U pg job_url fr) = Ok job.
Proof.
  unfold _extract_single_job. destruct (browse job_url) as [pg|]; [|done].
  unfold extract_from_page.
  destruct (merged_frame U env pg) as [[fr|e] log] eqn:Hm; simpl; [|done].
  destruct (make_posting U _) as [j|e] eqn:Hj; [|done].
  intros [= ->]. exists pg, fr. by rewrite Hm.
Qed.

(** C9. Every record in a returned batch has a title that is non-empty
    and trimmed.  The constructor keeps the trimmed title or refuses the
    record: a title that is empty or only whitespace is a validation
    error, the job is then [None], and [None] is filtered out of the
    batch. *)
Theorem returned_titles_nonempty_trimmed U env browse (job_urls : list pystr) :
  Forall (fun job => title job <> [] /\ strip (title job) = title job)
         (_extract_jobs_concurrent U env browse job_urls)
  /\ (forall a,
        match make_posting U a with
        | Ok job => title job = strip (a_title a) /\ title job <> []
        | Raise _ => True
        end)
  /\ (forall a,
        nonempty (strip (a_title a)) = true
        \/ make_posting U a = Raise ValidationError)
  /\ (forall job_url,
        match browse job_url with
        | Some pg =>
            match safe_extract_text pg (selectors_for "title") None with
            | Some _ => True
            | None => _extract_single_job U env browse job_url = None
            end
        | None => _extract_single_job U env browse job_url = None
        end).
Proof.
  split; [|split; [|split]].
  - apply Forall_forall. intros job Hin.
    unfold _extract_jobs_concurrent in Hin.
    apply list_elem_of_omap in Hin as (url & _ & Hjob).
    apply extract_single_job_Some in Hjob as (pg & fr & _ & _ & Hmk).
    apply make_posting_Ok in Hmk as (Ht & Hne & _).
    split; [done|]. rewrite Ht. apply strip_idemp.
  - intros a. destruct (make_posting U a) as [job|e] eqn:Hmk; [|done].
    by apply make_posting_Ok in Hmk as (Ht & Hne & _).
  - intros a. destruct (nonempty (strip (a_title a))) eqn:Hs; [by left|right].
    unfold make_posting. by rewrite title_validator_rejects.
  - intros job_url. destruct (browse job_url) as [pg|] eqn:Hb.
    + destruct (safe_extract_text pg (selectors_for "title") None) eqn:Ht; [done|].
      destruct (_extract_single_job U env browse job_url) as [job|] eqn:Hjob; [|done].
      apply extract_single_job_Some in Hjob as (pg' & fr & Hb' & _ & Hmk).
      rewrite Hb in Hb'. injection Hb' as <-.
      unfold make_posting, posting_args_of in Hmk. simpl in Hmk.
      rewrite Ht in Hmk. done.
    + unfold _extract_single_job. by rewrite Hb.
Qed.

Example toy_batch_titles :
  title <$> _extract_jobs_concurrent ascii_db no_groq toy_browse
              [py "https://example.test/job?jl=2"; py "https://example.test/job?jl=1";
               py "https://example.test/job?jl=3"]
  = [py "Data Engineer"].
Proof. vm_compute. reflexivity. Qed.

(** ** The generative fallback *)

Lemma try_except_total {A} (body : exc A) (d : A) :
  exists a, try_except body (fun _ => Ok d) = Ok a.
Proof. destruct body as [a|e]; simpl; by eexists. Qed.

Lemma try_except_Raise {A} (body : exc A) (d : A) :
  raises body = true -> try_except body (fun _ => Ok d) = Ok d.
Proof. by destruct body. Qed.

(** The class-based extractor returns a dictionary on every input. *)
Lemma extract_fields_total U env text :
  exists fields, extract_fields U env text = Ok fields.
Proof.
  unfold extract_fields.
  destruct (negb (client env) || negb (nonempty text)); [by eexists|].
  apply try_except_total.
Qed.

Lemma extract_fields_no_client U env text :
  client env = false -> extract_fields U env text = Ok _get_default_fields.
Proof. intros H. unfold extract_fields. by rewrite H. Qed.

Lemma normalize_empty_dict : _normalize_llm_fields (VDict []) = Ok _get_default_fields.
Proof. reflexivity. Qed.

(** ** The merge *)

Lemma py_or_idemp a b : py_or (py_or a b) b = py_or a b.
Proof. unfold py_or. destruct (truthy a) eqn:Ha; [by rewrite Ha|]. by destruct (truthy b). Qed.

Lemma dict_get_insert (m : gmap pystr value) k k' v :
  dict_get (<[k := v]> m) k' = if decide (k = k') then v else dict_get m k'.
Proof.
  unfold dict_get. rewrite lookup_insert. by destruct (decide (k = k')).
Qed.

Lemma merge_llm_get (keys : list pystr) (fr llm : gmap pystr value) k :
  dict_get
    (foldl (fun f k => <[k := py_or (dict_get f k) (dict_get llm k)]> f) fr keys) k
  = if decide (k ∈ keys) then py_or (dict_get fr k) (dict_get llm k)
    else dict_get fr k.
Proof.
  revert fr. induction keys as [|k0 keys IH]; intros fr.
  - simpl. done.
  - cbn [foldl]. rewrite IH, dict_get_insert.
    destruct (decide (k0 = k)) as [->|Hne].
    + rewrite py_or_idemp.
      rewrite (decide_True (P := k ∈ k :: keys)) by (apply elem_of_cons; by left).
      by destruct (decide (k ∈ keys)).
    + destruct (decide (k ∈ keys)) as [Hin|Hnin].
      * by rewrite decide_True by (apply elem_of_cons; by right).
      * rewrite decide_False; [done|].
        intros Hc. apply elem_of_cons in Hc as [Hc|Hc]; [congruence|done].
Qed.

Lemma merge_llm_dict_get fr llm k :
  dict_get (merge_llm fr llm) k
  = if decide (k ∈ str_keys ++ list_keys)
    then py_or (dict_get fr k) (dict_get llm k) else dict_get fr k.
Proof. apply merge_llm_get. Qed.

Lemma frame_of_sections_get extra k :
  k ∈ str_keys ++ list_keys -> dict_get (frame_of_sections extra) k = dict_get extra k.
Proof.
  unfold frame_of_sections. generalize (str_keys ++ list_keys). intros ks.
  induction ks as [|k0 ks IH]; intros Hin; [by apply not_elem_of_nil in Hin|].
  simpl. rewrite dict_get_insert.
  destruct (decide (k0 = k)) as [->|Hne]; [done|].
  apply IH. apply elem_of_cons in Hin as [?|?]; [congruence|done].
Qed.

(** The regex loop leaves the variables as they were. *)
Lemma regex_pass_frame U text fr : (regex_pass U text fr).1 = fr.
Proof.
  unfold regex_pass. destruct text as [t|]; [|done].
  destruct (nonempty t); [|done].
  assert (H : forall keys st, (foldl (regex_step U t) st keys).1 = st.1).
  { induction keys as [|k keys IH]; intros st; simpl; [done|].
    rewrite IH. destruct st as [f l]. unfold regex_step.
    by destruct (negb (truthy (dict_get f k))). }
  by rewrite H.
Qed.

(** The regex extractor is called only for variables that are falsy. *)
Lemma regex_pass_log U text fr c :
  c ∈ (regex_pass U text fr).2 ->
  exists t field, c = CallRegex t field /\ truthy (dict_get fr field) = false.
Proof.
  unfold regex_pass. destruct text as [t|]; [|by intros ?%not_elem_of_nil].
  destruct (nonempty t); [|by intros ?%not_elem_of_nil].
  assert (H : forall keys st,
             st.1 = fr ->
             (forall c, c ∈ st.2 ->
                exists t field, c = CallRegex t field /\ truthy (dict_get fr field) = false) ->
             forall c, c ∈ (foldl (regex_step U t) st keys).2 ->
                exists t field, c = CallRegex t field /\ truthy (dict_get fr field) = false).
  { induction keys as [|k keys IH]; intros st Hfr Hst c'; simpl; [by apply Hst|].
    apply IH.
    - destruct st as [f l]. unfold regex_step.
      by destruct (negb (truthy (dict_get f k))).
    - destruct st as [f l]. simpl in Hfr. subst f. unfold regex_step.
      destruct (truthy (dict_get fr k)) eqn:Hk; simpl; [by apply Hst|].
      intros c'' [Hin|Hin]%elem_of_app; [by apply Hst|].
      apply list_elem_of_singleton in Hin as ->. by exists t, k. }
  apply (H str_keys (fr, [])); [done|]. by intros c' ?%not_elem_of_nil.
Qed.

(** ** Failure of the generative fallback *)

Lemma parse_retry U env content :
  json_loads env content = Raise JSONDecodeError ->
  _parse_llm_response U env (VStr content) = brace_retry U env content.
Proof. intros H. unfold _parse_llm_response. simpl. by rewrite H. Qed.

(** *** What a match consumes *)

(** A successful match ran its continuation on a suffix of the input. *)
Lemma rmatch_inv U fl {A} (r : regex) :
  forall prev s caps (k : option N -> pystr -> captures -> option A) x,
    rmatch U fl r prev s caps k = Some x ->
    exists p' s' c', s' `suffix_of` s /\ k p' s' c' = Some x.
Proof.
  induction r as [c| |neg items| | |r1 IH1 r2 IH2|r1 IH1 r2 IH2|r1 IH1|r1 IH1|i r1 IH1];
    intros prev s caps k x; cbn [rmatch].
  - destruct s as [|t s']; [done|]. destruct (char_test U fl c t); [|done].
    intros H. exists (Some t), s', caps. split; [by apply suffix_cons_r|done].
  - destruct s as [|t s']; [done|]. destruct (DOTALL fl || negb (t =? 10)); [|done].
    intros H. exists (Some t), s', caps. split; [by apply suffix_cons_r|done].
  - destruct s as [|t s']; [done|]. destruct (set_test U fl neg items t); [|done].
    intros H. exists (Some t), s', caps. split; [by apply suffix_cons_r|done].
  - destruct (xorb _ _); [|done]. intros H. by exists prev, s, caps.
  - intros H. by exists prev, s, caps.
  - intros H. apply IH1 in H as (p1 & s1 & c1 & Hs1 & H).
    apply IH2 in H as (p2 & s2 & c2 & Hs2 & H).
    exists p2, s2, c2. split; [by etrans|done].
  - destruct (rmatch U fl r1 prev s caps k) as [y|] eqn:H1.
    + intros [= ->]. by apply IH1 in H1.
    + apply IH2.
  - destruct (rmatch U fl r1 prev s caps k) as [y|] eqn:H1.
    + intros [= ->]. by apply IH1 in H1.
    + intros H. by exists prev, s, caps.
  - generalize (S (length s)). intros fuel. revert prev s caps.
    induction fuel as [|fuel IHf]; intros prev s caps; simpl.
    + intros H. by exists prev, s, caps.
    + match goal with
      | |- context [rmatch U fl r1 prev s caps ?k1] =>
          destruct (rmatch U fl r1 prev s caps k1) as [y|] eqn:H1
      end.
      * intros [= ->]. apply IH1 in H1 as (p1 & s1 & c1 & Hs1 & H1).
        destruct (length s1 <? length s)%nat; [|done].
        apply IHf in H1 as (p2 & s2 & c2 & Hs2 & H).
        exists p2, s2, c2. split; [by etrans|done].
      * intros H. by exists prev, s, caps.
  - intros H. apply IH1 in H as (p1 & s1 & c1 & Hs1 & H).
    by exists p1, s1, ((i, take (length s - length s1) s) :: c1).
Qed.

(** Group 0 of a match is the text it consumed at its position. *)
Lemma match_at_group0 U fl r prev s m :
  match_at U fl r prev s = Some m ->
  exists g post, group 0 m = Some g /\ s = g ++ post.
Proof.
  unfold match_at. simpl. intros H.
  apply rmatch_inv in H as (p' & s' & c' & [pre Hs] & [= <-]).
  exists pre, s'. split; [|done]. simpl. f_equal.
  rewrite Hs, length_app.
  replace (length pre + length s' - length s')%nat with (length pre) by lia.
  by rewrite take_app_length.
Qed.

(** The whole match of a search is a substring of the text. *)
Lemma re_search_group0 U fl r s m :
  re_search U fl r s = Some m ->
  exists pre g post, group 0 m = Some g /\ s = pre ++ g ++ post.
Proof.
  unfold re_search. generalize (@None N). revert m.
  induction s as [|t s IH]; intros m prev; simpl.
  - destruct (match_at U fl r prev []) as [m'|] eqn:Hm; [|done].
    intros [= ->]. apply match_at_group0 in Hm as (g & post & Hg & Hs).
    by exists [], g, post.
  - destruct (match_at U fl r prev (t :: s)) as [m'|] eqn:Hm.
    + intros [= ->]. apply match_at_group0 in Hm as (g & post & Hg & Hs).
      by exists [], g, post.
    + intros H. apply IH in H as (pre & g & post & Hg & ->).
      by exists (t :: pre), g, post.
Qed.

Lemma brace_retry_fails U env content :
  match brace_substring U content with
  | Some sub => json_loads env sub = Raise JSONDecodeError
  | None => True
  end ->
  brace_retry U env content = Ok (VDict []).
Proof.
  unfold brace_substring, brace_retry.
  destruct (re_search U re_DOTALL brace_pattern content) as [m|] eqn:Hm; simpl; [|done].
  apply re_search_group0 in Hm as (pre & g & post & -> & _). simpl.
  by intros ->.
Qed.

Lemma rmatch_seq U fl {A} r1 r2 prev s caps (k : option N -> pystr -> captures -> option A) :
  rmatch U fl (RSeq r1 r2) prev s caps k
  = rmatch U fl r1 prev s caps (fun p' s' c' => rmatch U fl r2 p' s' c' k).
Proof. reflexivity. Qed.

Lemma extract_fields_api_error U env text :
  raises (chat_completion env (_build_extraction_prompt text)) = true ->
  extract_fields U env text = Ok _get_default_fields.
Proof.
  intros H. unfold extract_fields.
  destruct (negb (client env) || negb (nonempty text)); [done|].
  apply try_except_Raise.
  by destruct (chat_completion env (_build_extraction_prompt text)).
Qed.

Lemma extract_fields_unparsable U env text content :
  chat_completion env (_build_extraction_prompt text) = Ok (VStr content) ->
  json_loads env content = Raise JSONDecodeError ->
  match brace_substring U content with
  | Some sub => json_loads env sub = Raise JSONDecodeError
  | None => True
  end ->
  extract_fields U env text = Ok _get_default_fields.
Proof.
  intros Hc Hj Hr. unfold extract_fields.
  destruct (negb (client env) || negb (nonempty text)); [done|].
  rewrite Hc. cbn [mbind exc_bind].
  rewrite parse_retry by done. by rewrite brace_retry_fails.
Qed.

Lemma legacy_total U env text :
  groq_imported env = true -> Groq env (GROQ_API_KEY env) = Ok () ->
  exists fields, Legacy.extract_fields_with_llama U env text = Ok fields.
Proof.
  intros Hg Hc. unfold Legacy.extract_fields_with_llama.
  rewrite Hg, Hc. cbn [negb mbind exc_bind]. apply try_except_total.
Qed.

Lemma legacy_api_error U env text :
  groq_imported env = true -> Groq env (GROQ_API_KEY env) = Ok () ->
  raises (chat_completion env text) = true ->
  Legacy.extract_fields_with_llama U env text = Ok _get_default_fields.
Proof.
  intros Hg Hc Hr. unfold Legacy.extract_fields_with_llama.
  rewrite Hg, Hc. cbn [negb mbind exc_bind]. apply try_except_Raise.
  by destruct (chat_completion env text).
Qed.

Example reply_parsed_directly :
  extract_fields ascii_db (stub_env stub_json) (py "We need Python and SQL.")
  = Ok stub_result.
Proof. vm_compute. reflexivity. Qed.

Example reply_parsed_on_retry :
  extract_fields ascii_db
    (stub_env (py "Here is the JSON you asked for: " ++ stub_json ++ py " Done."))
    (py "We need Python and SQL.")
  = Ok stub_result.
Proof. vm_compute. reflexivity. Qed.

Example reply_without_json :
  extract_fields ascii_db (stub_env (py "{ this is not JSON }"))
    (py "We need Python and SQL.")
  = Ok _get_default_fields.
Proof. vm_compute. reflexivity. Qed.

Lemma upto_last_brace_Some s r :
  upto_last_brace s = Some r ->
  exists mid post, s = mid ++ 125 :: post /\ r = mid ++ [125] /\ 125 ∉ post.
Proof.
  revert r. induction s as [|t s IH]; intros r; cbn [upto_last_brace]; [done|].
  destruct (upto_last_brace s) as [r'|] eqn:Hr.
  - intros [= <-]. destruct (IH r' eq_refl) as (mid & post & -> & -> & Hpost).
    by exists (t :: mid), post.
  - destruct (N.eqb_spec 125 t) as [<-|Hne]; [|done].
    intros [= <-]. exists [], s. split; [done|]. split; [done|].
    clear IH. induction s as [|c s IHs]; [apply not_elem_of_nil|].
    cbn [upto_last_brace] in Hr.
    destruct (upto_last_brace s) as [r'|]; [done|].
    destruct (N.eqb_spec 125 c) as [->|Hc]; [done|].
    apply not_elem_of_cons. split; [done|]. by apply IHs.
Qed.

Lemma upto_last_brace_None s : upto_last_brace s = None -> 125 ∉ s.
Proof.
  induction s as [|c s IH]; cbn [upto_last_brace]; [intros _; apply not_elem_of_nil|].
  destruct (upto_last_brace s) as [r'|]; [done|].
  destruct (N.eqb_spec 125 c) as [->|Hc]; [done|].
  intros _. apply not_elem_of_cons. split; [done|]. by apply IH.
Qed.

Lemma upto_last_brace_length s r :
  upto_last_brace s = Some r -> take (length r) s = r.
Proof.
  intros (mid & post & -> & -> & _)%upto_last_brace_Some.
  change (mid ++ 125 :: post) with (mid ++ [125] ++ post).
  rewrite app_assoc. by rewrite take_app_length.
Qed.

(** Under DOTALL the repetition of [.] runs to the end of the text and
    gives back as little as it must: the continuation that asks for a
    closing brace gets the last one. *)
Lemma star_any_brace U {A} (f : pystr -> captures -> A) :
  forall fuel prev s caps,
    (length s < fuel)%nat ->
    star_loop (rmatch U re_DOTALL RAny)
      (fun p' s' c' => rmatch U re_DOTALL (RChar 125) p' s' c'
                         (fun _ s'' c'' => Some (f s'' c'')))
      fuel prev s caps
    = (fun r => f (drop (length r) s) caps) <$> upto_last_brace s.
Proof.
  induction fuel as [|fuel IH]; intros prev s caps Hlen; [lia|].
  cbn [star_loop]. destruct s as [|t s'].
  - reflexivity.
  - cbn [rmatch upto_last_brace]. change (DOTALL re_DOTALL) with true. cbn [orb].
    assert (Hlt : (length s' <? length (t :: s'))%nat = true)
      by (apply Nat.ltb_lt; simpl; lia).
    rewrite Hlt. rewrite IH by (simpl in Hlen; lia).
    destruct (upto_last_brace s') as [r|]; cbn [fmap option_fmap option_map].
    + reflexivity.
    + unfold char_test. change (IGNORECASE re_DOTALL) with false. cbv iota.
      by destruct (125 =? t).
Qed.

Lemma match_at_brace U prev s :
  match_at U re_DOTALL brace_pattern prev s
  = match s with
    | t :: s1 =>
        if 123 =? t then (fun r => [(0%nat, t :: r)]) <$> upto_last_brace s1
        else None
    | [] => None
    end.
Proof.
  unfold match_at, brace_pattern. cbn [rseq].
  change (rmatch U re_DOTALL (RGroup 0 ?r) prev s [] ?k)
    with (rmatch U re_DOTALL r prev s []
            (fun p' s' c' => k p' s' ((0%nat, take (length s - length s') s) :: c'))).
  rewrite rmatch_seq. destruct s as [|t s1]; [done|].
  cbn [rmatch]. unfold char_test at 1. change (IGNORECASE re_DOTALL) with false.
  cbv iota. destruct (123 =? t); [|done].
  etrans; [apply (star_any_brace U
                    (fun s'' c'' =>
                       (0%nat, take (length (t :: s1) - length s'') (t :: s1)) :: c''));
           lia|].
  destruct (upto_last_brace s1) as [r|] eqn:Hr; cbn [fmap option_fmap option_map];
    [|done].
  do 3 f_equal. rewrite length_drop.
  pose proof (upto_last_brace_length s1 r Hr) as Htake.
  assert (Hle : (length r <= length s1)%nat).
  { rewrite <- Htake at 1. rewrite length_take. lia. }
  replace (length (t :: s1) - (length s1 - length r))%nat with (S (length r))
    by (simpl; lia).
  cbn [take]. by rewrite Htake.
Qed.

Lemma brace_substring_span U content : brace_substring U content = brace_span content.
Proof.
  unfold brace_substring, re_search. generalize (@None N).
  induction content as [|t s IH]; intros prev; cbn [search_from brace_span].
  - by rewrite match_at_brace.
  - rewrite match_at_brace.
    destruct (123 =? t); [|apply IH].
    destruct (upto_last_brace s) as [r|]; cbn [fmap option_fmap option_map];
      [reflexivity|apply IH].
Qed.

Lemma brace_span_Some s sub : brace_span s = Some sub -> first_to_last_brace s sub.
Proof.
  induction s as [|t s IH]; cbn [brace_span]; [done|].
  destruct (N.eqb_spec 123 t) as [<-|Hne].
  - destruct (upto_last_brace s) as [r|] eqn:Hr.
    + intros [= <-]. apply upto_last_brace_Some in Hr as (mid & post & -> & -> & Hp).
      exists [], mid, post. split; [done|]. split; [done|].
      split; [apply not_elem_of_nil|done].
    + intros H. apply upto_last_brace_None in Hr.
      destruct (IH H) as (pre & mid & post & -> & _). exfalso. apply Hr.
      apply elem_of_app. right. apply elem_of_cons. right.
      apply elem_of_app. right. by left.
  - intros H. destruct (IH H) as (pre & mid & post & -> & -> & Hpre & Hpost).
    exists (t :: pre), mid, post. split; [done|]. split; [done|].
    split; [|done]. apply not_elem_of_cons. split; [congruence|done].
Qed.

Lemma brace_span_None s : brace_span s = None -> no_brace_pair s.
Proof.
  induction s as [|t s IH]; cbn [brace_span]; intros H pre mid post Hs.
  - by destruct pre.
  - destruct pre as [|p pre]; cbn [app] in Hs; injection Hs as -> ->.
    + rewrite N.eqb_refl in H.
      destruct (upto_last_brace (mid ++ 125 :: post)) as [r|] eqn:Hr; [done|].
      apply upto_last_brace_None in Hr. apply Hr.
      apply elem_of_app. right. by left.
    + destruct (if 123 =? p then upto_last_brace (pre ++ 123 :: mid ++ 125 :: post)
                else None); [done|].
      by apply (IH H pre mid post).
Qed.

(** The substring that the retry parses. *)
Lemma brace_substring_exact U content :
  match brace_substring U content with
  | Some sub => first_to_last_brace content sub
  | None => no_brace_pair content
  end.
Proof.
  rewrite brace_substring_span.
  destruct (brace_span content) as [sub|] eqn:H.
  - by apply brace_span_Some.
  - by apply brace_span_None.
Qed.

(** What [extract_fields] returns: the defaults, unless the request, the
    parse and the normalisation all returned. *)
Lemma extract_fields_cases U env text :
  extract_fields U env text = Ok _get_default_fields
  \/ exists n, reply_accepted U env text n /\ extract_fields U env text = Ok n.
Proof.
  unfold extract_fields, reply_accepted.
  destruct (negb (client env) || negb (nonempty text)); [by left|].
  destruct (chat_completion env (_build_extraction_prompt text)) as [content|e];
    [|by left].
  cbn [mbind exc_bind].
  destruct (_parse_llm_response U env content) as [fields|e] eqn:Hp; [|by left].
  cbn [mbind exc_bind].
  destruct (_normalize_llm_fields fields) as [n|e] eqn:Hn; [|by left].
  right. exists n. split; [|done]. by exists content, fields.
Qed.

Lemma extract_fields_step_raises U env text content :
  chat_completion env (_build_extraction_prompt text) = Ok content ->
  (raises (_parse_llm_response U env content) = true
   \/ exists fields, _parse_llm_response U env content = Ok fields
                     /\ raises (_normalize_llm_fields fields) = true) ->
  extract_fields U env text = Ok _get_default_fields.
Proof.
  intros Hc H. unfold extract_fields.
  destruct (negb (client env) || negb (nonempty text)); [done|].
  rewrite Hc. cbn [mbind exc_bind].
  destruct H as [H|(fields & Hp & H)].
  - by destruct (_parse_llm_response U env content).
  - rewrite Hp. cbn [mbind exc_bind]. by destruct (_normalize_llm_fields fields).
Qed.

Lemma legacy_normalize_empty U :
  Legacy.normalize_llm_fields U (VDict []) = Ok _get_default_fields.
Proof. vm_compute. reflexivity. Qed.

(** The older function on a reply that cannot be parsed: the retry is
    under [except Exception], and the empty dictionary is normalised to
    the defaults. *)
Lemma legacy_unparsable U env text content :
  groq_imported env = true -> Groq env (GROQ_API_KEY env) = Ok () ->
  chat_completion env text = Ok (VStr content) ->
  json_loads env content = Raise JSONDecodeError ->
  match brace_substring U content with
  | Some sub => raises (json_loads env sub) = true
  | None => True
  end ->
  Legacy.extract_fields_with_llama U env text = Ok _get_default_fields.
Proof.
  intros Hg Hc Hchat Hj Hr. unfold Legacy.extract_fields_with_llama.
  rewrite Hg, Hc. cbn [negb mbind exc_bind]. rewrite Hchat. cbn [mbind exc_bind].
  unfold Legacy.parse_reply. cbn [py_json_loads]. rewrite Hj.
  unfold brace_substring in Hr.
  destruct (re_search U re_DOTALL brace_pattern content) as [m|] eqn:Hm.
  - apply re_search_group0 in Hm as (pre & g & post & Hg0 & _).
    cbn [mbind option_bind] in Hr. rewrite Hg0 in Hr |- *.
    change (default [] (Some g)) with g.
    destruct (json_loads env g) as [v|e]; [done|].
    cbn [mbind exc_bind]. by rewrite legacy_normalize_empty.
  - cbn [mbind exc_bind]. by rewrite legacy_normalize_empty.
Qed.

Lemma legacy_client_raises U env text e :
  groq_imported env = true -> Groq env (GROQ_API_KEY env) = Raise e ->
  Legacy.extract_fields_with_llama U env text = Raise e.
Proof.
  intros Hg Hc. unfold Legacy.extract_fields_with_llama. by rewrite Hg, Hc.
Qed.

(** C3, as the code has it.  [LLMFieldExtractor.extract_fields] never
    raises.  It returns the all-default structure without a client, when
    the request raises, when the parse of the reply raises and when the
    normalisation raises: it returns anything else only when the three
    steps all returned.  A reply that [json.loads] rejects is parsed again
    on the substring from the first opening brace to the last closing
    brace of the reply, and when there is no opening brace with a closing
    one after it, or [json.loads] rejects the substring too, the result is
    the same defaults.  The older [extract_fields_with_llama] returns the
    defaults on a failed request and on a reply that cannot be parsed, but
    only once it has a client: when the [groq] package is missing it
    raises [ImportError] to its caller, and an exception of the
    construction of the client reaches the caller as well. *)
Theorem generative_fallback_failure_semantics U env (text : pystr) :
  (exists fields, extract_fields U env text = Ok fields)
  /\ (extract_fields U env text = Ok _get_default_fields
      \/ exists n, reply_accepted U env text n /\ extract_fields U env text = Ok n)
  /\ (client env = false -> extract_fields U env text = Ok _get_default_fields)
  /\ (raises (chat_completion env (_build_extraction_prompt text)) = true ->
      extract_fields U env text = Ok _get_default_fields)
  /\ (forall content,
        chat_completion env (_build_extraction_prompt text) = Ok content ->
        (raises (_parse_llm_response U env content) = true
         \/ exists fields,
              _parse_llm_response U env content = Ok fields
              /\ raises (_normalize_llm_fields fields) = true) ->
        extract_fields U env text = Ok _get_default_fields)
  /\ (forall content,
        chat_completion env (_build_extraction_prompt text) = Ok (VStr content) ->
        json_loads env content = Raise JSONDecodeError ->
        _parse_llm_response U env (VStr content) = brace_retry U env content
        /\ match brace_substring U content with
           | Some sub =>
               first_to_last_brace content sub
               /\ brace_retry U env content
                  = match json_loads env sub with
                    | Raise JSONDecodeError => Ok (VDict [])
                    | r => r
                    end
               /\ (raises (json_loads env sub) = true ->
                   extract_fields U env text = Ok _get_default_fields)
           | None =>
               no_brace_pair content
               /\ extract_fields U env text = Ok _get_default_fields
           end)
  /\ (groq_imported env = false ->
      Legacy.extract_fields_with_llama U env text = Raise ImportError)
  /\ (forall e,
        groq_imported env = true -> Groq env (GROQ_API_KEY env) = Raise e ->
        Legacy.extract_fields_with_llama U env text = Raise e)
  /\ (groq_imported env = true -> Groq env (GROQ_API_KEY env) = Ok () ->
      (exists fields, Legacy.extract_fields_with_llama U env text = Ok fields)
      /\ (raises (chat_completion env text) = true ->
          Legacy.extract_fields_with_llama U env text = Ok _get_default_fields)
      /\ (forall content,
            chat_completion env text = Ok (VStr content) ->
            json_loads env content = Raise JSONDecodeError ->
            match brace_substring U content with
            | Some sub => raises (json_loads env sub) = true
            | None => True
            end ->
            Legacy.extract_fields_with_llama U env text = Ok _get_default_fields)).
Proof.
  split; [apply extract_fields_total|].
  split; [apply extract_fields_cases|].
  split; [apply extract_fields_no_client|].
  split; [apply extract_fields_api_error|].
  split; [apply extract_fields_step_raises|].
  split; [|split; [|split]].
  - intros content Hc Hj. split; [by apply parse_retry|].
    pose proof (brace_substring_exact U content) as Hex.
    destruct (brace_substring U content) as [sub|] eqn:Hsub.
    + assert (Hbr : brace_retry U env content
                    = match json_loads env sub with
                      | Raise JSONDecodeError => Ok (VDict [])
                      | r => r
                      end).
      { unfold brace_retry. unfold brace_substring in Hsub.
        destruct (re_search U re_DOTALL brace_pattern content) as [m|]; [|done].
        cbn [mbind option_bind] in Hsub. by rewrite Hsub. }
      split; [exact Hex|]. split; [exact Hbr|].
      intros Hr. destruct (json_loads env sub) as [v|e] eqn:Hjs; [done|].
      destruct e;
        try (apply (extract_fields_step_raises U env text (VStr content) Hc); left;
             rewrite parse_retry by done; by rewrite Hbr).
      eapply extract_fields_unparsable; [done..|]. by rewrite Hsub.
    + split; [exact Hex|]. eapply extract_fields_unparsable; [done..|].
      by rewrite Hsub.
  - intros Hg. unfold Legacy.extract_fields_with_llama. by rewrite Hg.
  - intros e. apply legacy_client_raises.
  - intros Hg Hc. split; [by apply legacy_total|].
    split; [by apply legacy_api_error|].
    intros content. by apply legacy_unparsable.
Qed.

Lemma generative_fallback_witness :
  extract_fields ascii_db no_groq (py "We need Python and SQL.")
  = Ok _get_default_fields
  /\ extract_fields ascii_db (stub_env (py "I found {no} fields}."))
       (py "We need Python and SQL.")
     = Ok _get_default_fields
  /\ brace_substring ascii_db (py "I found {no} fields}.") = Some (py "{no} fields}")
  /\ Legacy.extract_fields_with_llama ascii_db (stub_env (py "I found no fields."))
       (py "We need Python and SQL.")
     = Ok _get_default_fields.
Proof.
  pose proof (generative_fallback_failure_semantics ascii_db no_groq
                (py "We need Python and SQL.")) as (_ & _ & Hnone & _).
  pose proof (generative_fallback_failure_semantics ascii_db
                (stub_env (py "I found {no} fields}.")) (py "We need Python and SQL."))
    as (_ & _ & _ & _ & _ & Hretry & _).
  pose proof (generative_fallback_failure_semantics ascii_db
                (stub_env (py "I found no fields.")) (py "We need Python and SQL."))
    as (_ & _ & _ & _ & _ & _ & _ & _ & Hold).
  split; [exact (Hnone eq_refl)|]. split; [|split].
  - destruct (Hretry (py "I found {no} fields}.") eq_refl eq_refl) as [_ H].
    change (brace_substring ascii_db (py "I found {no} fields}."))
      with (Some (py "{no} fields}")) in H.
    destruct H as (_ & _ & H). exact (H eq_refl).
  - reflexivity.
  - destruct (Hold eq_refl eq_refl) as (_ & _ & H).
    exact (H (py "I found no fields.") eq_refl eq_refl I).
Defined.

(** The claim C3 fails on the older function: with the package missing it
    raises, where the class-based extractor returns the defaults. *)
Lemma legacy_fallback_raises_without_client :
  Legacy.extract_fields_with_llama ascii_db no_groq (py "We need Python and SQL.")
  = Raise ImportError
  /\ extract_fields ascii_db no_groq (py "We need Python and SQL.")
     = Ok _get_default_fields.
Proof. split; reflexivity. Qed.

(** ** The merged record *)

Lemma normalize_currency_filter U s :
  normalize_currency U (Some s)
  = if nonempty s then Some (strip (List.filter (retained U) s)) else Some s.
Proof. reflexivity. Qed.

Lemma retained_spec U c :
  retained U c
  = is_decimal U c || (c =? 44) || ((46 <=? c) && (c <=? 8377)) || (c =? 36)
    || is_space c.
Proof.
  unfold retained, set_test, currency_class. cbn [existsb item_test xorb negb].
  unfold char_test. simpl IGNORECASE. cbv iota.
  rewrite !(N.eqb_sym _ c).
  destruct (is_decimal U c); [done|]. cbn [orb].
  destruct (c =? 44); [done|]. cbn [orb].
  destruct ((46 <=? c) && (c <=? 8377)) eqn:Hr; cbn [orb]; [done|].
  destruct (c =? 36); [done|]. cbn [orb].
  destruct (c =? 8364) eqn:He.
  { apply N.eqb_eq in He. subst c. done. }
  destruct (c =? 163) eqn:Hp.
  { apply N.eqb_eq in Hp. subst c. done. }
  cbn [orb]. rewrite orb_false_r. by destruct (is_space c).
Qed.

Lemma retained_named U c :
  is_decimal U c = true \/ c ∈ [44; 46; 8377; 36; 8364; 163] \/ is_space c = true ->
  retained U c = true.
Proof.
  rewrite retained_spec. intros [H|[H|H]].
  - by rewrite H.
  - repeat (apply elem_of_cons in H as [->|H]; [by rewrite ?orb_true_r|]).
    by apply not_elem_of_nil in H.
  - by rewrite H, orb_true_r.
Qed.

Lemma retained_plain_eq U c : plain_char c = true -> retained U c = retained_plain c.
Proof.
  unfold plain_char, retained_plain. rewrite retained_spec. unfold is_decimal.
  destruct (is_ascii c) eqn:Ha; simpl.
  - intros _. destruct ((48 <=? c) && (c <=? 57)) eqn:Hd; simpl; [|done].
    apply andb_true_iff in Hd as [H1 H2].
    apply N.leb_le in H1, H2.
    assert ((46 <=? c) && (c <=? 8377) = true) as ->.
    { apply andb_true_iff. split; apply N.leb_le; lia. }
    by rewrite !orb_true_r.
  - intros ->. by rewrite !orb_true_r.
Qed.

Lemma filter_retained U s :
  forallb plain_char s = true ->
  List.filter (retained U) s = List.filter retained_plain s.
Proof.
  induction s as [|c s IH]; simpl; [done|].
  intros [Hc Hs]%andb_true_iff. by rewrite retained_plain_eq, IH.
Qed.

Lemma normalize_rupee_per_month U :
  normalize_currency U (Some (py "₹50,000 per month")) = Some (py "₹50,000 per month").
Proof.
  rewrite normalize_currency_filter.
  change (nonempty (py "₹50,000 per month")) with true. cbv iota.
  rewrite filter_retained by (vm_compute; reflexivity).
  apply (f_equal Some). vm_compute. reflexivity.
Qed.

(** The hyphen is not kept: in the class it only marks the range. *)
Example normalize_drops_hyphen U :
  normalize_currency U (Some (py "₹40,000 - ₹50,000 (approx.)"))
  = Some (py "₹40,000  ₹50,000 approx.").
Proof.
  rewrite normalize_currency_filter.
  change (nonempty (py "₹40,000 - ₹50,000 (approx.)")) with true. cbv iota.
  rewrite filter_retained by (vm_compute; reflexivity).
  apply (f_equal Some). vm_compute. reflexivity.
Qed.

(** The generative pass is gated on the description text and on a missing
    variable; the variables it does not fill are those of the segmenter. *)
Lemma merged_frame_spec U env pg :
  let fr0 := frame_of_sections (extract_job_description_sections U pg) in
  (exists text llm,
     description_text pg = Some text /\ nonempty text = true
     /\ any_missing fr0 = true
     /\ extract_fields U env text = Ok llm
     /\ merged_frame U env pg
        = (Ok (merge_llm fr0 llm), (regex_pass U (Some text) fr0).2 ++ [CallLLM text]))
  \/ (match description_text pg with
       | Some text => nonempty text && any_missing fr0 = false
       | None => True
       end
      /\ merged_frame U env pg
         = (Ok fr0, (regex_pass U (description_text pg) fr0).2)).
Proof.
  intros fr0. unfold merged_frame. fold fr0.
  pose proof (regex_pass_frame U (description_text pg) fr0) as Hfr.
  destruct (regex_pass U (description_text pg) fr0) as [fr1 log1] eqn:Hrp.
  simpl in Hfr. subst fr1. unfold llm_pass.
  destruct (description_text pg) as [text|] eqn:Hd.
  - destruct (nonempty text && any_missing fr0) eqn:Hgate.
    + left. apply andb_true_iff in Hgate as [Hne Hmiss].
      destruct (extract_fields_total U env text) as [llm Hllm].
      exists text, llm. rewrite Hllm. cbn [mbind exc_bind]. rewrite Hrp. done.
    + right. split; [done|]. simpl. by rewrite app_nil_r.
  - right. split; [done|]. simpl. by rewrite app_nil_r.
Qed.

(** A variable the segmenter filled keeps its value through the merge. *)
Lemma merged_frame_keeps_segmented U env pg k :
  k ∈ str_keys ++ list_keys ->
  truthy (dict_get (extract_job_description_sections U pg) k) = true ->
  exists fr, (merged_frame U env pg).1 = Ok fr
             /\ dict_get fr k = dict_get (extract_job_description_sections U pg) k.
Proof.
  intros Hk Ht.
  destruct (merged_frame_spec U env pg) as [(text & llm & _ & _ & _ & _ & ->)|[_ ->]];
    simpl.
  - eexists. split; [done|]. rewrite merge_llm_dict_get. rewrite decide_True by done.
    rewrite frame_of_sections_get by done. unfold py_or. by rewrite Ht.
  - eexists. split; [done|]. by apply frame_of_sections_get.
Qed.

(** The regex extractor is not called for a variable the segmenter filled. *)
Lemma merged_frame_no_regex_call U env pg k text :
  k ∈ str_keys ++ list_keys ->
  truthy (dict_get (extract_job_description_sections U pg) k) = true ->
  CallRegex text k ∉ (merged_frame U env pg).2.
Proof.
  intros Hk Ht Hin.
  assert (Hlog : forall d, CallRegex text k
            ∉ (regex_pass U d (frame_of_sections (extract_job_description_sections U pg))).2).
  { intros d Hc. apply regex_pass_log in Hc as (t & field & [= <- <-] & Hf).
    rewrite frame_of_sections_get in Hf by done. congruence. }
  destruct (merged_frame_spec U env pg) as [(t & llm & _ & _ & _ & _ & Hm)|[_ Hm]];
    rewrite Hm in Hin; cbn [snd] in Hin.
  - apply elem_of_app in Hin as [Hin|Hin]; [exact (Hlog _ Hin)|].
    by apply list_elem_of_singleton in Hin.
  - exact (Hlog _ Hin).
Qed.

Lemma extract_from_page_Ok U env pg job_url job :
  (extract_from_page U env pg job_url).1 = Ok job ->
  exists fr, (merged_frame U env pg).1 = Ok fr
             /\ make_posting U (posting_args_of U pg job_url fr) = Ok job.
Proof.
  unfold extract_from_page.
  destruct (merged_frame U env pg) as [[fr|e] log]; simpl; [|done].
  intros H. by exists fr.
Qed.

(** *** A sample page *)

Example sample_page_sections :
  extract_job_description_sections ascii_db sample_page
  = list_to_map [ (py "responsibilities", content_list [py "A"; py "B"]);
                  (py "pay", VStr (py "₹50,000 per month")) ]
  /\ description_text sample_page = Some sample_text.
Proof. split; vm_compute; reflexivity. Qed.

Lemma validate_strs_map l : validate_strs (map VStr l) = Ok l.
Proof. induction l as [|x l IH]; simpl; [done|]. by rewrite IH. Qed.

Lemma any_missing_true fr k :
  k ∈ str_keys ++ list_keys -> truthy (dict_get fr k) = false -> any_missing fr = true.
Proof.
  intros Hk Ht. unfold any_missing. apply existsb_exists. exists k.
  split; [by apply list_elem_of_In|]. by rewrite Ht.
Qed.

(** When the generative pass runs, a variable the segmenter left empty
    takes the value of the reply for it. *)
Lemma merged_frame_takes_llm U env pg text llm k :
  description_text pg = Some text -> nonempty text = true ->
  extract_fields U env text = Ok llm ->
  k ∈ str_keys ++ list_keys ->
  truthy (dict_get (extract_job_description_sections U pg) k) = false ->
  exists fr, (merged_frame U env pg).1 = Ok fr /\ dict_get fr k = dict_get llm k.
Proof.
  intros Hd Hne Hllm Hk Ht.
  assert (Hmiss : any_missing
            (frame_of_sections (extract_job_description_sections U pg)) = true).
  { apply (any_missing_true _ k); [done|]. by rewrite frame_of_sections_get. }
  destruct (merged_frame_spec U env pg)
    as [(text' & llm' & Hd' & _ & _ & Hllm' & ->)|[Hgate _]].
  - rewrite Hd in Hd'. injection Hd' as <-. rewrite Hllm in Hllm'. injection Hllm' as <-.
    eexists. split; [done|]. rewrite merge_llm_dict_get, decide_True by done.
    rewrite frame_of_sections_get by done. unfold py_or. by rewrite Ht.
  - rewrite Hd, Hne, Hmiss in Hgate. done.
Qed.

Lemma save_from_document U els st :
  state_from_document U els st ->
  Forall (from_document U els) (save_section log_section st).
Proof.
  intros (Hlog & Hsec & Hcc).
  destruct st as [log [sec|] [|c cc]]; unfold save_section; simpl in *; try done.
  destruct (nonempty sec); [|done].
  unfold log_section. apply Forall_app. split; [done|].
  apply Forall_singleton. split; simpl; [by apply Hsec|done].
Qed.

Lemma seg_step_from_document U els st e :
  e ∈ els -> state_from_document U els st ->
  state_from_document U els (seg_step U log_section st e).
Proof.
  intros He Hst. destruct e as [s|name cs]; [done|]. simpl.
  destruct (name_in name header_names) eqn:Hh.
  - split; [by apply save_from_document|]. split; [|constructor].
    simpl. intros sec [= <-]. by exists (Tag name cs).
  - destruct (name_in name content_names && section_open st) eqn:Hc; [|done].
    destruct (nonempty (get_text [] (Tag name cs))) eqn:Ht; [|done].
    destruct Hst as (Hlog & Hsec & Hcc). split; [done|]. split; [done|].
    simpl. apply Forall_app. split; [done|]. apply Forall_singleton.
    exists (Tag name cs). split; [done|]. split; [|done].
    unfold is_content. rewrite Hh, Ht.
    apply andb_true_iff in Hc as [-> _]. done.
Qed.

Lemma commits_from_document U els : Forall (from_document U els) (commits U els).
Proof.
  unfold commits, walk. apply save_from_document.
  assert (Hgen : forall part st,
            part ⊆ els -> state_from_document U els st ->
            state_from_document U els (foldl (seg_step U log_section) st part)).
  { induction part as [|e part IH]; intros st Hsub Hst; simpl; [done|].
    apply IH; [set_solver|]. apply seg_step_from_document; [set_solver|done]. }
  apply Hgen; [done|]. split; [constructor|]. split; [done|constructor].
Qed.

Lemma regex_fold_log U t fr keys log :
  foldl (regex_step U t) (fr, log) keys
  = (fr, log ++ (CallRegex t
                   <$> List.filter (fun k => negb (truthy (dict_get fr k))) keys)).
Proof.
  revert log. induction keys as [|k keys IH]; intros log.
  - simpl. by rewrite app_nil_r.
  - cbn [foldl List.filter]. unfold regex_step at 2.
    destruct (negb (truthy (dict_get fr k))).
    + rewrite IH. rewrite <- app_assoc. done.
    + apply IH.
Qed.

Lemma regex_pass_calls U text fr :
  (regex_pass U text fr).2
  = match text with
    | Some t => if nonempty t then CallRegex t <$> missing_scalars fr else []
    | None => []
    end.
Proof.
  unfold regex_pass. destruct text as [t|]; [|done].
  destruct (nonempty t); [|done]. by rewrite regex_fold_log.
Qed.

Lemma merged_frame_calls U env pg :
  (merged_frame U env pg).2
  = expected_calls (description_text pg)
      (frame_of_sections (extract_job_description_sections U pg)).
Proof.
  unfold expected_calls.
  destruct (merged_frame_spec U env pg)
    as [(text & llm & Hd & Hne & Hmiss & _ & ->)|[Hgate ->]]; cbn [snd].
  - rewrite regex_pass_calls, Hd, Hne, Hmiss. done.
  - rewrite regex_pass_calls.
    destruct (description_text pg) as [t|]; [|done].
    destruct (nonempty t); [|done]. simpl in Hgate. rewrite Hgate.
    by rewrite app_nil_r.
Qed.

Lemma extract_from_page_calls U env pg job_url :
  (extract_from_page U env pg job_url).2 = (merged_frame U env pg).2.
Proof. unfold extract_from_page. by destruct (merged_frame U env pg). Qed.

Lemma missing_scalars_elem fr k :
  k ∈ missing_scalars fr <-> k ∈ str_keys /\ truthy (dict_get fr k) = false.
Proof.
  unfold missing_scalars. rewrite list_elem_of_In, filter_In, <- list_elem_of_In.
  by rewrite negb_true_iff.
Qed.

Lemma any_missing_iff fr :
  any_missing fr = true
  <-> exists k, k ∈ str_keys ++ list_keys /\ truthy (dict_get fr k) = false.
Proof.
  unfold any_missing. rewrite existsb_exists. split.
  - intros (k & Hin & Hk). exists k. split; [by apply list_elem_of_In|].
    by apply negb_true_iff.
  - intros (k & Hin & Hk). exists k. split; [by apply list_elem_of_In|].
    by apply negb_true_iff.
Qed.

Lemma expected_calls_regex text fr t k :
  CallRegex t k ∈ expected_calls text fr
  <-> text = Some t /\ nonempty t = true
      /\ k ∈ str_keys /\ truthy (dict_get fr k) = false.
Proof.
  unfold expected_calls. destruct text as [t'|].
  2:{ split; [by intros ?%elem_of_nil|by intros [? _]]. }
  destruct (nonempty t') eqn:Hne.
  2:{ split; [by intros ?%elem_of_nil|]. intros ([= ->] & ? & _). congruence. }
  rewrite elem_of_app, list_elem_of_fmap. split.
  - intros [(k' & [= <- <-] & Hin)|Hin].
    + apply missing_scalars_elem in Hin. done.
    + destruct (any_missing fr); [|by apply elem_of_nil in Hin].
      by apply list_elem_of_singleton in Hin.
  - intros ([= ->] & _ & Hk). left. exists k. split; [done|].
    by apply missing_scalars_elem.
Qed.

Lemma expected_calls_llm text fr t :
  CallLLM t ∈ expected_calls text fr
  <-> text = Some t /\ nonempty t = true /\ any_missing fr = true.
Proof.
  unfold expected_calls. destruct text as [t'|].
  2:{ split; [by intros ?%elem_of_nil|by intros [? _]]. }
  destruct (nonempty t') eqn:Hne.
  2:{ split; [by intros ?%elem_of_nil|]. intros ([= ->] & ? & _). congruence. }
  rewrite elem_of_app, list_elem_of_fmap. split.
  - intros [(k' & [=] & _)|Hin].
    destruct (any_missing fr); [|by apply elem_of_nil in Hin].
    apply list_elem_of_singleton in Hin. by injection Hin as ->.
  - intros ([= ->] & _ & ->). right. by apply list_elem_of_singleton.
Qed.

(** A section of the map is named by a header node of the description. *)
Lemma sections_from_header U pg k v :
  extract_job_description_sections U pg !! k = Some v ->
  exists desc_div,
    find_desc_div pg = Some desc_div /\ from_header U (descendants desc_div) k.
Proof.
  unfold extract_job_description_sections.
  destruct (find_desc_div pg) as [desc_div|]; [|by rewrite lookup_empty].
  unfold sections_of. rewrite segment_replay.
  intros (content & Hin & _)%replay_lookup. exists desc_div. split; [done|].
  pose proof (commits_from_document U (descendants desc_div)) as Hdoc.
  rewrite Forall_forall in Hdoc. by destruct (Hdoc _ Hin) as [Hh _].
Qed.

(** C8, as the code has it.  Normalisation of a pay or salary string
    removes the characters outside the class and trims: decimal digits,
    comma and period, the signs ₹ $ € £ and whitespace are kept, so that
    "₹50,000 per month" stays as it is, the words included.  When the
    segmenter yields a pay string, the merged record holds that string
    normalised: the regex extractor is not called for pay and no reply of
    the generative model changes it.  The segmenter yields pay only under
    a header element (h1 to h4, b, strong) of the description whose text
    names it; the text of a paragraph that carries its own label goes to
    the section that is open.  The passes are gated for the document, not
    for the field: with description text, the regex extractor is called
    exactly for the scalar variables that the segmenter left empty, and
    the generative extractor exactly when one of the eight variables is
    empty. *)
Theorem segmented_pay_kept_and_normalized U env pg job_url :
  (forall c,
     is_decimal U c = true \/ c ∈ [44; 46; 8377; 36; 8364; 163]
     \/ is_space c = true ->
     retained U c = true)
  /\ normalize_currency U (Some (py "₹50,000 per month"))
     = Some (py "₹50,000 per month")
  /\ (forall p,
        dict_get (extract_job_description_sections U pg) (py "pay") = VStr p ->
        nonempty p = true ->
        (exists fr, (merged_frame U env pg).1 = Ok fr
                    /\ dict_get fr (py "pay") = VStr p)
        /\ (forall text,
              CallRegex text (py "pay") ∉ (extract_from_page U env pg job_url).2)
        /\ (forall job,
              (extract_from_page U env pg job_url).1 = Ok job ->
              pay job = Some (strip (List.filter (retained U) p))))
  /\ (forall v,
        extract_job_description_sections U pg !! py "pay" = Some v ->
        exists desc_div,
          find_desc_div pg = Some desc_div
          /\ from_header U (descendants desc_div) (py "pay"))
  /\ (extract_from_page U env pg job_url).2
     = expected_calls (description_text pg)
         (frame_of_sections (extract_job_description_sections U pg))
  /\ (forall text k,
        CallRegex text k ∈ (extract_from_page U env pg job_url).2
        <-> description_text pg = Some text /\ nonempty text = true
            /\ k ∈ str_keys
            /\ truthy (dict_get (extract_job_description_sections U pg) k) = false)
  /\ (forall text,
        CallLLM text ∈ (extract_from_page U env pg job_url).2
        <-> description_text pg = Some text /\ nonempty text = true
            /\ exists k,
                 k ∈ str_keys ++ list_keys
                 /\ truthy (dict_get (extract_job_description_sections U pg) k)
                    = false).
Proof.
  assert (Hk : py "pay" ∈ str_keys ++ list_keys)
    by (apply (bool_decide_unpack _); vm_compute; exact I).
  split; [apply retained_named|]. split; [apply normalize_rupee_per_month|].
  split; [|split; [|split; [|split]]].
  - intros p Hp Hne.
    assert (Ht : truthy (dict_get (extract_job_description_sections U pg) (py "pay"))
                 = true) by (by rewrite Hp).
    assert (Hfr : exists fr, (merged_frame U env pg).1 = Ok fr
                             /\ dict_get fr (py "pay") = VStr p).
    { destruct (merged_frame_keeps_segmented U env pg _ Hk Ht) as (fr & Hm & Hg).
      exists fr. by rewrite Hg. }
    split; [exact Hfr|]. split.
    + intros text. rewrite extract_from_page_calls.
      by apply merged_frame_no_regex_call.
    + intros job Hjob. apply extract_from_page_Ok in Hjob as (fr & Hm & Hmk).
      destruct Hfr as (fr' & Hm' & Hg). rewrite Hm in Hm'. injection Hm' as <-.
      apply make_posting_Ok in Hmk as (_ & _ & _ & _ & _ & _ & (p' & Hv & ->) & _).
      cbn [posting_args_of a_pay] in Hv. rewrite Hg in Hv. injection Hv as <-.
      rewrite normalize_currency_filter. by rewrite Hne.
  - intros v. apply sections_from_header.
  - rewrite extract_from_page_calls. apply merged_frame_calls.
  - intros text k. rewrite extract_from_page_calls, merged_frame_calls.
    rewrite expected_calls_regex. split.
    + intros (Hd & Hne & Hin & Ht). rewrite frame_of_sections_get in Ht; [done|].
      apply elem_of_app. by left.
    + intros (Hd & Hne & Hin & Ht). rewrite frame_of_sections_get; [done|].
      apply elem_of_app. by left.
  - intros text. rewrite extract_from_page_calls, merged_frame_calls.
    rewrite expected_calls_llm, any_missing_iff. split.
    + intros (Hd & Hne & k & Hin & Ht). split; [done|]. split; [done|].
      exists k. split; [done|]. by rewrite frame_of_sections_get in Ht.
    + intros (Hd & Hne & k & Hin & Ht). split; [done|]. split; [done|].
      exists k. split; [done|]. by rewrite frame_of_sections_get.
Qed.

Lemma segmented_pay_witness :
  pay <$> _extract_single_job ascii_db (stub_env stub_json)
            (fun _ => Some sample_page) sample_url
  = Some (Some (py "₹50,000 per month"))
  /\ extract_job_description_sections ascii_db (labelled_page labelled_desc_div)
     !! py "pay" = None
  /\ CallRegex labelled_text (py "pay")
     ∈ (extract_from_page ascii_db (stub_env stub_json)
          (labelled_page labelled_desc_div) sample_url).2
  /\ CallLLM labelled_text
     ∈ (extract_from_page ascii_db (stub_env stub_json)
          (labelled_page labelled_desc_div) sample_url).2.
Proof.
  pose proof (segmented_pay_kept_and_normalized ascii_db (stub_env stub_json)
                sample_page sample_url) as (_ & _ & Hkept & _).
  pose proof (segmented_pay_kept_and_normalized ascii_db (stub_env stub_json)
                (labelled_page labelled_desc_div) sample_url)
    as (_ & _ & _ & _ & _ & Hregex & Hllm).
  split; [|split; [|split]].
  - destruct (Hkept (py "₹50,000 per month")) as (_ & _ & Hjob).
    + vm_compute. reflexivity.
    + reflexivity.
    + unfold _extract_single_job.
      destruct (extract_from_page ascii_db (stub_env stub_json) sample_page
                  sample_url).1 as [job|e] eqn:Hex.
      * simpl. rewrite (Hjob job eq_refl). vm_compute. reflexivity.
      * vm_compute in Hex. discriminate Hex.
  - vm_compute. reflexivity.
  - apply Hregex. split; [vm_compute; reflexivity|]. split; [reflexivity|].
    split; [|vm_compute; reflexivity].
    apply (bool_decide_unpack _). vm_compute. exact I.
  - apply Hllm. split; [vm_compute; reflexivity|]. split; [reflexivity|].
    exists (py "pay"). split; [|vm_compute; reflexivity].
    apply (bool_decide_unpack _). vm_compute. exact I.
Defined.

(** The claim C8 fails where it says that no fallback pass is invoked.  On
    the sample page, whose pay is segmented under a header, the regex
    extractor is called for the five other scalar variables and the
    generative extractor once.  On the description with the labelled
    paragraph the segmenter yields no pay at all: the text of the
    paragraph is added to the responsibilities, the regex extractor is
    called for all six scalar variables and the generative extractor
    once. *)
Lemma segmented_pay_fallbacks_still_run :
  ((extract_from_page ascii_db (stub_env stub_json) sample_page sample_url).2
   = [ CallRegex sample_text (py "jobType");
       CallRegex sample_text (py "workLocation");
       CallRegex sample_text (py "benefits");
       CallRegex sample_text (py "schedule");
       CallRegex sample_text (py "education");
       CallLLM sample_text ]
   /\ pay <$> _extract_single_job ascii_db (stub_env stub_json)
                (fun _ => Some sample_page) sample_url
      = Some (Some (py "₹50,000 per month")))
  /\ (extract_job_description_sections ascii_db (labelled_page labelled_desc_div)
      = {[ py "responsibilities"
           := content_list [py "A"; py "B"; py "Pay: ₹50,000 per month"] ]}
      /\ (extract_from_page ascii_db (stub_env stub_json)
            (labelled_page labelled_desc_div) sample_url).2
         = [ CallRegex labelled_text (py "jobType");
             CallRegex labelled_text (py "pay");
             CallRegex labelled_text (py "workLocation");
             CallRegex labelled_text (py "benefits");
             CallRegex labelled_text (py "schedule");
             CallRegex labelled_text (py "education");
             CallLLM labelled_text ])
  /\ (extract_job_description_sections ascii_db
        (labelled_page labelled_bold_desc_div)
      = {[ py "responsibilities"
           := content_list [py "A"; py "B"; py "Pay:₹50,000 per month"] ]}
      /\ length (extract_from_page ascii_db (stub_env stub_json)
                   (labelled_page labelled_bold_desc_div) sample_url).2
         = 7%nat).
Proof. repeat split; vm_compute; reflexivity. Qed.

(** *** A page without a description container *)

Lemma fallback_desc_div_none pg sels :
  Forall (fun sel =>
            soup_select_one pg sel = None
            /\ soup_select_one pg
                 (str_replace (py "div") [] (str_replace (py "div.") [] sel)) = None)
         sels ->
  fallback_desc_div pg sels = None.
Proof.
  induction 1 as [|sel sels [_ Hs] _ IH]; simpl; [done|]. by rewrite Hs.
Qed.

Lemma no_container_sections U pg :
  no_description_container pg -> extract_job_description_sections U pg = ∅.
Proof.
  intros [Hf Hs]. unfold extract_job_description_sections, find_desc_div.
  by rewrite Hf, fallback_desc_div_none.
Qed.

Lemma job_description_selectors :
  selectors_for "job_description"
  = [py "div.JobDetails_jobDescription__uW_fK";
     py ".JobDetails_jobDescription__6VeBn";
     py "[data-test='jobDescriptionContent']"].
Proof. reflexivity. Qed.

Lemma no_container_text pg :
  no_description_container pg -> description_text pg = None.
Proof.
  intros [_ Hs]. unfold description_text.
  destruct (safe_extract_text pg (selectors_for "job_description") None); [|done].
  rewrite job_description_selectors in Hs |- *.
  apply Forall_cons in Hs as [[H1 _] _].
  change (default [] (head [py "div.JobDetails_jobDescription__uW_fK";
                            py ".JobDetails_jobDescription__6VeBn";
                            py "[data-test='jobDescriptionContent']"]))
    with (py "div.JobDetails_jobDescription__uW_fK").
  by rewrite H1.
Qed.

(** C5. When the description container is absent, the segmenter returns
    the empty section map, there is no description text, neither the
    regex extractor nor the generative extractor is called, and the record
    that is built (it is built unless the title is refused) has every
    description-derived field absent: the scalars are [None], the two
    skill lists are empty, the description and the extra sections are
    empty. *)
Theorem no_container_no_fallback (U : unicode_db) (env : llm_env) (pg : page)
    (job_url : pystr) :
  no_description_container pg ->
  extract_job_description_sections U pg = ∅
  /\ description_text pg = None
  /\ (extract_from_page U env pg job_url).2 = []
  /\ (extract_from_page U env pg job_url).1
     = (title_must_not_be_empty
          (default [] (safe_extract_text pg (selectors_for "title") None))
        ≫= fun t => Ok (structured_only U pg job_url t)).
Proof.
  intros Hno.
  pose proof (no_container_sections U pg Hno) as Hsec.
  pose proof (no_container_text pg Hno) as Htxt.
  split; [done|]. split; [done|].
  unfold extract_from_page, merged_frame. rewrite Hsec, Htxt.
  cbn [regex_pass llm_pass app fst snd mbind exc_bind].
  split; [done|].
  unfold make_posting, posting_args_of. rewrite Hsec, Htxt.
  cbn [a_title a_job_type a_pay a_work_location a_benefits a_schedule a_education
       a_most_relevant_skills a_other_relevant_skills a_company_name a_location
       a_salary a_easy_apply a_company_logo a_job_description a_extra_sections
       a_job_id a_jd_url].
  destruct (title_must_not_be_empty _) as [t|e]; [|done].
  cbn [mbind exc_bind]. reflexivity.
Qed.

Lemma no_container_witness :
  no_description_container bare_page
  /\ (extract_from_page ascii_db (stub_env stub_json) bare_page sample_url).2 = []
  /\ (extract_from_page ascii_db (stub_env stub_json) bare_page sample_url).1
     = Ok (structured_only ascii_db bare_page sample_url (py "Data Engineer")).
Proof.
  assert (H : no_description_container bare_page).
  { split; [reflexivity|]. repeat constructor. }
  split; [exact H|].
  destruct (no_container_no_fallback ascii_db (stub_env stub_json) bare_page
              sample_url H) as (_ & _ & Hlog & Hjob).
  split; [exact Hlog|]. rewrite Hjob. reflexivity.
Defined.

(** *** The order of the strategies *)

Lemma safe_extract_text_trimmed pg sels t :
  safe_extract_text pg sels None = Some t -> strip t = t /\ t <> [].
Proof.
  induction sels as [|sel sels IH]; simpl; [done|].
  destruct (find_element_text pg sel) as [raw|]; simpl; [|exact IH].
  destruct (nonempty (strip raw)) eqn:Hn; [|exact IH].
  intros [= <-]. split; [apply strip_idemp|by apply nonempty_true].
Qed.

(** The structured extractor returns the trimmed text of the first locator
    that yields any. *)
Lemma safe_extract_text_first pg pre sel post raw :
  Forall (unusable pg) pre ->
  find_element_text pg sel = Some raw ->
  nonempty (strip raw) = true ->
  safe_extract_text pg (pre ++ sel :: post) None = Some (strip raw).
Proof.
  intros Hpre Hsel Hraw. induction Hpre as [|s pre Hs _ IH]; simpl.
  - rewrite Hsel. simpl. by rewrite Hraw.
  - unfold unusable in Hs. destruct (find_element_text pg s) as [r|]; simpl; [|exact IH].
    by rewrite Hs.
Qed.

Lemma legacy_regex_step_get U text fr k0 k :
  dict_get (Legacy.regex_step U text fr k0) k
  = if decide (k0 = k) then legacy_after_regex U text fr k else dict_get fr k.
Proof.
  unfold Legacy.regex_step, legacy_after_regex.
  destruct (decide (k0 = k)) as [->|Hne].
  - destruct (truthy (dict_get fr k)); simpl; [done|].
    rewrite dict_get_insert. by rewrite decide_True.
  - destruct (truthy (dict_get fr k0)); simpl; [done|].
    rewrite dict_get_insert. by rewrite decide_False.
Qed.

Lemma legacy_regex_fold_get U text keys fr k :
  dict_get (foldl (Legacy.regex_step U text) fr keys) k
  = if decide (k ∈ keys) then legacy_after_regex U text fr k else dict_get fr k.
Proof.
  revert fr. induction keys as [|k0 keys IH]; intros fr.
  - simpl. done.
  - cbn [foldl]. rewrite IH.
    assert (Hidem : legacy_after_regex U text (Legacy.regex_step U text fr k0) k
                    = if decide (k0 = k) then legacy_after_regex U text fr k
                      else legacy_after_regex U text fr k).
    { unfold legacy_after_regex at 1. rewrite legacy_regex_step_get.
      destruct (decide (k0 = k)) as [->|Hne]; [|done].
      unfold legacy_after_regex.
      destruct (truthy (dict_get fr k)) eqn:Ht; [by rewrite Ht|].
      by destruct (truthy (Legacy.opt_value (Legacy.extract_field_by_regex U text k))). }
    rewrite Hidem, legacy_regex_step_get.
    destruct (decide (k0 = k)) as [->|Hne].
    + rewrite (decide_True (P := k ∈ k :: keys)) by (apply elem_of_cons; by left).
      by destruct (decide (k ∈ keys)).
    + destruct (decide (k ∈ keys)) as [Hin|Hnin].
      * by rewrite decide_True by (apply elem_of_cons; by right).
      * rewrite decide_False; [done|].
        intros Hc. apply elem_of_cons in Hc as [Hc|Hc]; [congruence|done].
Qed.

(** The older script: a variable keeps the value the regex block left in
    it when that value is truthy, and takes the reply's otherwise. *)
Lemma legacy_fallbacks_get U env text fr0 fr1 k :
  Legacy.fallbacks U env (Some text) fr0 = Ok fr1 ->
  nonempty text = true ->
  k ∈ str_keys ++ list_keys ->
  (truthy (legacy_after_regex U text fr0 k) = true ->
   dict_get fr1 k = legacy_after_regex U text fr0 k)
  /\ (truthy (legacy_after_regex U text fr0 k) = false ->
      exists llama,
        Legacy.extract_fields_with_llama U env text = Ok llama
        /\ dict_get fr1 k = dict_get llama k).
Proof.
  intros Hf Hne Hk. unfold Legacy.fallbacks in Hf. rewrite Hne in Hf.
  pose proof (legacy_regex_fold_get U text (str_keys ++ list_keys) fr0 k) as Hget.
  rewrite decide_True in Hget by done.
  set (fr := foldl (Legacy.regex_step U text) fr0 (str_keys ++ list_keys)) in *.
  destruct (any_missing fr) eqn:Hmiss.
  - destruct (Legacy.extract_fields_with_llama U env text) as [llama|e]; [|done].
    cbn [mbind exc_bind] in Hf. injection Hf as <-.
    rewrite merge_llm_dict_get, decide_True by done. rewrite Hget. unfold py_or.
    split; intros Ht; rewrite Ht; [done|]. by exists llama.
  - injection Hf as <-. rewrite Hget. split; [done|]. intros Ht.
    exfalso. rewrite <- Hget in Ht.
    pose proof (any_missing_true fr k Hk Ht). congruence.
Qed.

(** C1, as the code has it.  The structured fields come from the
    locators alone: title, company and location hold the trimmed text of
    the first locator that yields any, and salary holds that text after
    normalisation.  The description-derived variables come from the
    segmenter first: a truthy segmented value is kept, whatever the regex
    and the generative extractors return.  A variable that the segmenter
    and the regex search both leave empty takes the value of the
    generative reply as it is, the string "Not specified" included, when
    there is description text.  In the older script a regex hit on a
    variable that is still empty is kept in preference to the reply. *)
Theorem merge_precedence (U : unicode_db) (env : llm_env) (pg : page)
    (job_url : pystr) (job : JobPosting) :
  (extract_from_page U env pg job_url).1 = Ok job ->
  (safe_extract_text pg (selectors_for "title") None = Some (title job)
   /\ company_name job = safe_extract_text pg (selectors_for "company") None
   /\ location job = safe_extract_text pg (selectors_for "location") None
   /\ salary job
      = normalize_currency U (safe_extract_text pg (selectors_for "salary") None))
  /\ (forall pre sel post raw,
        Forall (unusable pg) pre ->
        find_element_text pg sel = Some raw ->
        nonempty (strip raw) = true ->
        safe_extract_text pg (pre ++ sel :: post) None = Some (strip raw))
  /\ (exists fr,
        (merged_frame U env pg).1 = Ok fr
        /\ validate_opt_str (dict_get fr (py "jobType")) = Ok (job_type job)
        /\ forall k,
             k ∈ str_keys ++ list_keys ->
             (truthy (dict_get (extract_job_description_sections U pg) k) = true ->
              dict_get fr k = dict_get (extract_job_description_sections U pg) k)
             /\ (truthy (dict_get (extract_job_description_sections U pg) k) = false ->
                 forall text,
                   description_text pg = Some text ->
                   nonempty text = true ->
                   regex_miss (extract_with_regex_fallback U text k) ->
                   exists llm,
                     extract_fields U env text = Ok llm
                     /\ dict_get fr k = dict_get llm k))
  /\ (forall text fr0 fr1 k,
        Legacy.fallbacks U env (Some text) fr0 = Ok fr1 ->
        nonempty text = true ->
        k ∈ str_keys ++ list_keys ->
        (truthy (dict_get fr0 k) = true -> dict_get fr1 k = dict_get fr0 k)
        /\ (forall v,
              truthy (dict_get fr0 k) = false ->
              Legacy.extract_field_by_regex U text k = Some v ->
              nonempty v = true ->
              dict_get fr1 k = VStr v)
        /\ (truthy (dict_get fr0 k) = false ->
            regex_miss (Legacy.extract_field_by_regex U text k) ->
            exists llama,
              Legacy.extract_fields_with_llama U env text = Ok llama
              /\ dict_get fr1 k = dict_get llama k)).
Proof.
  intros Hjob. apply extract_from_page_Ok in Hjob as (fr & Hm & Hmk).
  apply make_posting_Ok in Hmk as (Ht & Hne & Hsal & Hco & Hlo & Hjt & _ & _).
  cbn [posting_args_of a_title a_salary a_company_name a_location a_job_type]
    in Ht, Hsal, Hco, Hlo, Hjt.
  split; [|split; [|split]].
  - repeat split; try done.
    destruct (safe_extract_text pg (selectors_for "title") None) as [t|] eqn:Hti.
    + apply safe_extract_text_trimmed in Hti as [Hs _].
      simpl in Ht. rewrite Hs in Ht. by rewrite Ht.
    + simpl in Ht. by rewrite Ht in Hne.
  - intros pre sel post raw. apply safe_extract_text_first.
  - exists fr. split; [done|]. split; [done|]. intros k Hk. split.
    + intros Hseg.
      destruct (merged_frame_keeps_segmented U env pg k Hk Hseg) as (fr' & Hm' & Hg).
      rewrite Hm in Hm'. by injection Hm' as <-.
    + intros Hseg text Hd Htext _.
      destruct (extract_fields_total U env text) as [llm Hllm].
      destruct (merged_frame_takes_llm U env pg text llm k Hd Htext Hllm Hk Hseg)
        as (fr' & Hm' & Hg).
      rewrite Hm in Hm'. injection Hm' as <-. by exists llm.
  - intros text fr0 fr1 k Hf Htext Hk.
    destruct (legacy_fallbacks_get U env text fr0 fr1 k Hf Htext Hk) as [Hkeep Htake].
    unfold legacy_after_regex in Hkeep, Htake.
    split; [|split].
    + intros Hv. rewrite Hv in Hkeep. by apply Hkeep.
    + intros v Hv Hr Hnv. rewrite Hv, Hr in Hkeep. by apply Hkeep.
    + intros Hv Hmiss. rewrite Hv in Htake. apply Htake.
      destruct (Legacy.extract_field_by_regex U text k) as [v|]; [|done].
      exact Hmiss.
Qed.

Lemma merge_precedence_witness :
  title <$> _extract_single_job ascii_db (stub_env stub_json)
              (fun _ => Some sample_page) sample_url
  = Some (py "Data Engineer")
  /\ salary <$> _extract_single_job ascii_db (stub_env stub_json)
              (fun _ => Some sample_page) sample_url
     = Some (Some (py "₹40,000  ₹50,000 approx.")).
Proof.
  unfold _extract_single_job.
  destruct (extract_from_page ascii_db (stub_env stub_json) sample_page sample_url).1
    as [job|e] eqn:Hex.
  - destruct (merge_precedence ascii_db (stub_env stub_json) sample_page sample_url
                job Hex) as ((Ht & _ & _ & Hs) & _).
    assert (Hc : safe_extract_text sample_page (selectors_for "title") None
                 = Some (py "Data Engineer")) by (vm_compute; reflexivity).
    rewrite Hc in Ht. injection Ht as Ht.
    cbn [fmap option_fmap option_map]. rewrite <- Ht, Hs. split; [reflexivity|].
    vm_compute. reflexivity.
  - vm_compute in Hex. discriminate Hex.
Defined.

(** The claim C1 fails on the sample page: the salary that a locator
    found is stored without its hyphen and parentheses, and the job type,
    which no strategy resolved, is the string "Not specified". *)
Lemma merge_normalizes_and_accepts_sentinel :
  safe_extract_text sample_page (selectors_for "salary") None
  = Some (py "₹40,000 - ₹50,000 (approx.)")
  /\ salary <$> _extract_single_job ascii_db no_groq
                (fun _ => Some sample_page) sample_url
     = Some (Some (py "₹40,000  ₹50,000 approx."))
  /\ job_type <$> _extract_single_job ascii_db no_groq
                (fun _ => Some sample_page) sample_url
     = Some (Some (py "Not specified")).
Proof. repeat split; vm_compute; reflexivity. Qed.

(** The older script keeps a regex hit where the class-based script, whose
    regex loop stores into [locals()], takes the reply. *)
Example regex_hit_in_both_scripts :
  (exists fr,
     Legacy.fallbacks ascii_db (stub_env stub_json)
       (Some (py "Job Type: Full-time. Some other text."))
       (frame_of_sections ∅) = Ok fr
     /\ dict_get fr (py "jobType") = VStr (py "Full-time"))
  /\ (exists fr log,
        llm_pass ascii_db (stub_env stub_json)
          (Some (py "Job Type: Full-time. Some other text."))
          (regex_pass ascii_db (Some (py "Job Type: Full-time. Some other text."))
             (frame_of_sections ∅)).1 = Ok (fr, log)
        /\ dict_get fr (py "jobType") = VStr (py "Not specified")).
Proof.
  split.
  - eexists. split; [vm_compute; reflexivity|]. vm_compute. reflexivity.
  - eexists _, _. split; [vm_compute; reflexivity|]. vm_compute. reflexivity.
Qed.

(** *** The sentinel in the merged record *)

Lemma keys_disjoint k : k ∈ str_keys -> k ∈ list_keys -> False.
Proof.
  intros H1 H2. unfold str_keys, list_keys in *.
  repeat (apply elem_of_cons in H1 as [->|H1];
          [apply (bool_decide_pack _) in H2; vm_compute in H2; exact H2
          |]).
  by apply not_elem_of_nil in H1.
Qed.

Lemma default_fields_scalar k :
  k ∈ str_keys -> dict_get _get_default_fields k = VStr sentinel.
Proof.
  intros Hk. unfold str_keys in Hk.
  repeat (apply elem_of_cons in Hk as [->|Hk]; [vm_compute; reflexivity|]).
  by apply not_elem_of_nil in Hk.
Qed.

(** One step of the normalisation leaves a scalar at its value, unless
    the step is for that key and the reply has something other than the
    sentinel under it. *)
Lemma normalize_key_keeps fields n key n' k :
  normalize_key fields n key = Ok n' ->
  k ∈ str_keys ->
  (key = k -> py_getitem fields k = Ok (VStr sentinel)) ->
  dict_get n' k = dict_get n k.
Proof.
  intros Hn Hk Hsent. unfold normalize_key in Hn.
  destruct (py_contains fields key) as [present|e]; [|done].
  cbn [mbind exc_bind] in Hn.
  destruct present; [|by injection Hn as <-].
  destruct (py_getitem fields key) as [v|e] eqn:Hv; [|done].
  cbn [mbind exc_bind] in Hn.
  destruct (truthy v); [|by injection Hn as <-].
  destruct (decide (key = k)) as [->|Hne].
  - rewrite (Hsent eq_refl) in Hv. injection Hv as <-.
    rewrite bool_decide_eq_false_2 in Hn by (intros Hl; exact (keys_disjoint k Hk Hl)).
    assert (Hs : is_str sentinel (VStr sentinel) = true)
      by (unfold is_str, pystr_eqb; by apply bool_decide_eq_true_2).
    rewrite Hs in Hn. cbn [negb] in Hn. by injection Hn as <-.
  - assert (Hins : forall v', dict_get (<[key := v']> n) k = dict_get n k)
      by (intros v'; rewrite dict_get_insert; by rewrite decide_False).
    destruct (bool_decide (key ∈ list_keys)).
    + destruct v as [| | | |t|l|d]; try (by injection Hn as <-).
      * destruct (negb (pystr_eqb t sentinel)); injection Hn as <-; [apply Hins|done].
      * destruct (strip_skills l) as [skills|e]; [|done].
        cbn [mbind exc_bind] in Hn. injection Hn as <-. apply Hins.
    + destruct (negb (is_str sentinel v)); injection Hn as <-; [apply Hins|done].
Qed.

Lemma normalize_keys_keeps fields keys k :
  k ∈ str_keys ->
  py_getitem fields k = Ok (VStr sentinel) ->
  forall n n', normalize_keys fields n keys = Ok n' -> dict_get n' k = dict_get n k.
Proof.
  intros Hk Hsent. induction keys as [|key keys IH]; intros n n'; cbn [normalize_keys].
  - by intros [= <-].
  - destruct (normalize_key fields n key) as [n1|e] eqn:H1; [|done].
    cbn [mbind exc_bind]. intros H2.
    rewrite (IH _ _ H2). by apply (normalize_key_keeps fields n key).
Qed.

(** Normalising a reply leaves the sentinel under a scalar key for which
    the reply has the sentinel. *)
Lemma normalize_keeps_sentinel fields n k :
  k ∈ str_keys ->
  _normalize_llm_fields fields = Ok n ->
  py_getitem fields k = Ok (VStr sentinel) ->
  dict_get n k = VStr sentinel.
Proof.
  intros Hk Hn Hsent. unfold _normalize_llm_fields in Hn.
  rewrite (normalize_keys_keeps fields _ k Hk Hsent _ _ Hn).
  by apply default_fields_scalar.
Qed.

(** What the extractor returns has the sentinel under such a key, whether
    the normalisation of the reply returned or raised. *)
Lemma extract_fields_keeps_sentinel U env text content fields k :
  k ∈ str_keys ->
  chat_completion env (_build_extraction_prompt text) = Ok content ->
  _parse_llm_response U env content = Ok fields ->
  py_getitem fields k = Ok (VStr sentinel) ->
  exists llm, extract_fields U env text = Ok llm /\ dict_get llm k = VStr sentinel.
Proof.
  intros Hk Hc Hp Hsent. unfold extract_fields.
  destruct (negb (client env) || negb (nonempty text)).
  { eexists. split; [done|]. by apply default_fields_scalar. }
  rewrite Hc. cbn [mbind exc_bind]. rewrite Hp. cbn [mbind exc_bind].
  destruct (_normalize_llm_fields fields) as [n|e] eqn:Hn; cbn [try_except].
  - exists n. split; [done|]. by apply (normalize_keeps_sentinel fields).
  - eexists. split; [done|]. by apply default_fields_scalar.
Qed.

Lemma ensure_list_content skills :
  validate_opt_list (ensure_list (content_list skills)) = Ok (Some skills).
Proof.
  assert (H : ensure_list (content_list skills) = content_list skills)
    by (by destruct skills).
  rewrite H. unfold content_list, validate_opt_list. by rewrite validate_strs_map.
Qed.

(** C2, as the code has it.  The sentinel is not excluded by the merge.
    Normalising a reply keeps "Not specified" under every scalar key for
    which the reply has "Not specified", and what the extractor returns
    has it there whether the normalisation returned or raised.  The merge
    takes the value of the reply for every variable that the segmenter
    left empty and for which the regex search found nothing: with a reply
    of jobType "Not specified" and mostRelevantSkills ["Python", "SQL"],
    nothing segmented for the two and no job type found by the regex
    search, the merged record has the string "Not specified" as its job
    type and ["Python", "SQL"] as its most relevant skills.  The older
    script does the same with the reply of its own extractor. *)
Theorem sentinel_reaches_record (U : unicode_db) (env : llm_env) (pg : page)
    (job_url text : pystr) (llm : gmap pystr value) (skills : list pystr) :
  description_text pg = Some text ->
  nonempty text = true ->
  truthy (dict_get (extract_job_description_sections U pg) (py "jobType")) = false ->
  regex_miss (extract_with_regex_fallback U text (py "jobType")) ->
  truthy (dict_get (extract_job_description_sections U pg) (py "mostRelevantSkills"))
  = false ->
  extract_fields U env text = Ok llm ->
  dict_get llm (py "jobType") = VStr sentinel ->
  dict_get llm (py "mostRelevantSkills") = content_list skills ->
  (exists fr,
     (merged_frame U env pg).1 = Ok fr
     /\ dict_get fr (py "jobType") = VStr sentinel
     /\ dict_get fr (py "mostRelevantSkills") = content_list skills)
  /\ (forall job,
        (extract_from_page U env pg job_url).1 = Ok job ->
        job_type job = Some sentinel /\ most_relevant_skills job = Some skills)
  /\ (forall fields n k,
        k ∈ str_keys ->
        _normalize_llm_fields fields = Ok n ->
        py_getitem fields k = Ok (VStr sentinel) ->
        dict_get n k = VStr sentinel)
  /\ (forall content fields k,
        k ∈ str_keys ->
        chat_completion env (_build_extraction_prompt text) = Ok content ->
        _parse_llm_response U env content = Ok fields ->
        py_getitem fields k = Ok (VStr sentinel) ->
        dict_get llm k = VStr sentinel)
  /\ _normalize_llm_fields stub_fields = Ok stub_result
  /\ (forall fr0 fr1 llama,
        Legacy.fallbacks U env (Some text) fr0 = Ok fr1 ->
        truthy (dict_get fr0 (py "jobType")) = false ->
        regex_miss (Legacy.extract_field_by_regex U text (py "jobType")) ->
        Legacy.extract_fields_with_llama U env text = Ok llama ->
        dict_get llama (py "jobType") = VStr sentinel ->
        dict_get fr1 (py "jobType") = VStr sentinel).
Proof.
  intros Hd Hne Hjt _ Hms Hllm Hljt Hlms.
  assert (Hk1 : py "jobType" ∈ str_keys ++ list_keys)
    by (apply (bool_decide_unpack _); vm_compute; exact I).
  assert (Hk2 : py "mostRelevantSkills" ∈ str_keys ++ list_keys)
    by (apply (bool_decide_unpack _); vm_compute; exact I).
  destruct (merged_frame_takes_llm U env pg text llm _ Hd Hne Hllm Hk1 Hjt)
    as (fr & Hm & Hg1).
  destruct (merged_frame_takes_llm U env pg text llm _ Hd Hne Hllm Hk2 Hms)
    as (fr' & Hm' & Hg2).
  rewrite Hm in Hm'. injection Hm' as <-.
  rewrite Hljt in Hg1. rewrite Hlms in Hg2.
  split; [by exists fr|]. split; [|split; [|split; [|split]]].
  - intros job Hjob. apply extract_from_page_Ok in Hjob as (fr2 & Hm2 & Hmk).
    rewrite Hm in Hm2. injection Hm2 as <-.
    apply make_posting_Ok in Hmk as (_ & _ & _ & _ & _ & Hv & _ & Hl).
    cbn [posting_args_of a_job_type a_most_relevant_skills] in Hv, Hl.
    rewrite Hg1 in Hv. rewrite Hg2, ensure_list_content in Hl.
    injection Hv as <-. injection Hl as <-. done.
  - intros fields n k. apply normalize_keeps_sentinel.
  - intros content fields k Hk Hc Hp Hsent.
    destruct (extract_fields_keeps_sentinel U env text content fields k Hk Hc Hp Hsent)
      as (llm' & Hllm' & Hget).
    rewrite Hllm in Hllm'. by injection Hllm' as <-.
  - vm_compute. reflexivity.
  - intros fr0 fr1 llama Hf Hfr0 Hmiss Hllama Hsent.
    destruct (legacy_fallbacks_get U env text fr0 fr1 _ Hf Hne Hk1) as [_ Htake].
    destruct Htake as (llama' & Hllama' & Hget).
    + unfold legacy_after_regex. rewrite Hfr0.
      destruct (Legacy.extract_field_by_regex U text (py "jobType")) as [v|]; [|done].
      exact Hmiss.
    + rewrite Hllama in Hllama'. injection Hllama' as <-. by rewrite Hget.
Qed.

Lemma sentinel_reaches_record_witness :
  job_type <$> _extract_single_job ascii_db
                 (stub_env (py "Result: " ++ stub_json))
                 (fun _ => Some sample_page) sample_url
  = Some (Some (py "Not specified"))
  /\ most_relevant_skills <$> _extract_single_job ascii_db
                 (stub_env (py "Result: " ++ stub_json))
                 (fun _ => Some sample_page) sample_url
     = Some (Some [py "Python"; py "SQL"]).
Proof.
  pose proof (sentinel_reaches_record ascii_db (stub_env (py "Result: " ++ stub_json))
                sample_page sample_url sample_text stub_result [py "Python"; py "SQL"])
    as H.
  destruct H as (_ & Hjob & _).
  - vm_compute. reflexivity.
  - reflexivity.
  - vm_compute. reflexivity.
  - vm_compute. exact I.
  - vm_compute. reflexivity.
  - vm_compute. reflexivity.
  - vm_compute. reflexivity.
  - vm_compute. reflexivity.
  - unfold _extract_single_job.
    destruct (extract_from_page ascii_db (stub_env (py "Result: " ++ stub_json))
                sample_page sample_url).1 as [job|e] eqn:Hex.
    + destruct (Hjob job eq_refl) as [Hj Hs]. simpl. rewrite Hj, Hs. by split.
    + vm_compute in Hex. discriminate Hex.
Defined.

(** The claim C2 fails on the specification's own stub: the merged record
    carries the literal "Not specified" as its job type, on a page where
    the regex search finds no job type. *)
Lemma sentinel_not_excluded :
  extract_with_regex_fallback ascii_db sample_text (py "jobType") = None
  /\ job_type <$> _extract_single_job ascii_db (stub_env stub_json)
                    (fun _ => Some sample_page) sample_url
     = Some (Some (py "Not specified"))
  /\ most_relevant_skills <$> _extract_single_job ascii_db (stub_env stub_json)
                 (fun _ => Some sample_page) sample_url
     = Some (Some [py "Python"; py "SQL"]).
Proof. repeat split; vm_compute; reflexivity. Qed.

(* ===================================================================== *)
(** * Further properties of the code                                      *)
(* ===================================================================== *)

(** ** Retrying a browser action *)

Lemma retry_strategies_bounds st (delay : Z) :
  (0 <= delay)%Z ->
  (delay <= retry_strategies st delay <= delay * 2)%Z.
Proof. destruct st; simpl; lia. Qed.



Lemma time_sleep_Ok secs : (0 <= secs <= time_sleep_max)%Z -> time_sleep secs = Ok ().
Proof.
  intros [H1 H2]. unfold time_sleep.
  destruct (Z.ltb_spec secs 0); [lia|].
  destruct (Z.ltb_spec time_sleep_max secs); [lia|done].
Qed.




(** A delay whose doublings fit the clock can be slept, and what is left
    of it fits the clock as well. *)
Lemma retry_pause st (delay : Z) (k : nat) :
  (0 <= delay)%Z ->
  (delay * 2 ^ Z.of_nat (S k) <= time_sleep_max)%Z ->
  time_sleep (retry_strategies st delay) = Ok ()
  /\ (0 <= retry_strategies st delay)%Z
  /\ (retry_strategies st delay * 2 ^ Z.of_nat k <= time_sleep_max)%Z.
Proof.
  intros Hd Hmax.
  pose proof (retry_strategies_bounds st delay Hd) as [Hlo Hhi].
  rewrite Nat2Z.inj_succ, Z.pow_succ_r in Hmax by lia.
  assert (Hp : (1 <= 2 ^ Z.of_nat k)%Z) by (apply Z.pow_le_mono_r with (b := 0%Z) (a := 2%Z); lia).
  assert (H2 : (retry_strategies st delay * 2 ^ Z.of_nat k <= time_sleep_max)%Z) by nia.
  split; [|split; [lia|done]].
  apply time_sleep_Ok. nia.
Qed.


Lemma retry_loop_exhausted {A} (func : nat -> browser_error + A) retries :
  forall remaining attempt delay,
    (attempt + remaining = retries)%nat ->
    (0 <= delay)%Z ->
    (delay * 2 ^ Z.of_nat (remaining - 1) <= time_sleep_max)%Z ->
    (forall j, (j < remaining)%nat -> exists e, func (attempt + j)%nat = inl e) ->
    let run := retry_loop func true retries attempt remaining delay in
    outcome run = Ok None /\ calls run = remaining
    /\ length (sleeps run) = (remaining - 1)%nat.
Proof.
  induction remaining as [|rem IH]; intros attempt delay Hsum Hd Hmax Hfail;
    cbn [retry_loop]; [done|].
  destruct (Hfail 0%nat) as [e He]; [lia|]. rewrite Nat.add_0_r in He. rewrite He.
  destruct (attempt =? retries - 1)%nat eqn:Hlast.
  - apply Nat.eqb_eq in Hlast. assert (rem = 0)%nat as -> by lia. done.
  - apply Nat.eqb_neq in Hlast.
    destruct rem as [|k]; [lia|].
    replace (S (S k) - 1)%nat with (S k) in Hmax by lia.
    destruct (retry_pause (determine_retry_strategy e) delay k Hd Hmax)
      as (Hsleep & Hd' & Hmax').
    rewrite Hsleep. cbn [outcome calls sleeps length].
    destruct (IH (S attempt)
                (retry_strategies (determine_retry_strategy e) delay)) as (H1 & H2 & H3).
    + lia.
    + done.
    + by replace (S k - 1)%nat with k by lia.
    + intros j Hj. replace (S attempt + j)%nat with (attempt + S j)%nat by lia.
      apply Hfail. lia.
    + rewrite H1, H2, H3. repeat split; try done. lia.
Qed.







(** ** The job id *)

Lemma take_drop_while p s : take_while p s ++ drop_while p s = s.
Proof. induction s as [|c r IH]; simpl; [done|]. destruct (p c); simpl; by f_equal. Qed.

Lemma take_while_all p s : Forall (fun c => p c = true) (take_while p s).
Proof.
  induction s as [|c r IH]; simpl; [constructor|].
  destruct (p c) eqn:Hc; by constructor.
Qed.

Lemma drop_while_length p s :
  (length (drop_while p s) + length (take_while p s) = length s)%nat.
Proof. rewrite <- (take_drop_while p s) at 3. rewrite length_app. lia. Qed.

Lemma last_or_cons prev c l : last_or prev (c :: l) = last_or (Some c) l.
Proof.
  unfold last_or. destruct l as [|d l]; [done|]. rewrite last_cons_cons.
  by destruct (last_is_Some (d :: l)) as [_ [x ->]].
Qed.

(** A greedy star over a character class takes every character of the
    class when what follows it cannot fail. *)
Lemma star_set_greedy U fl {A} neg items
    (k : option N -> pystr -> captures -> option A) :
  (forall p s c, is_Some (k p s c)) ->
  forall fuel prev s caps,
    (length s < fuel)%nat ->
    star_loop (rmatch U fl (RSet neg items)) k fuel prev s caps
    = k (last_or prev (take_while (set_test U fl neg items) s))
        (drop_while (set_test U fl neg items) s) caps.
Proof.
  intros Hk. induction fuel as [|fuel IH]; intros prev s caps Hlen; [lia|].
  cbn [star_loop rmatch]. destruct s as [|t s']; [done|].
  cbn [take_while drop_while].
  destruct (set_test U fl neg items t) eqn:Ht; [|done].
  assert (Hlt : (length s' <? length (t :: s'))%nat = true)
    by (apply Nat.ltb_lt; simpl; lia).
  rewrite Hlt. rewrite IH by (simpl in Hlen; lia).
  rewrite last_or_cons.
  by destruct (Hk (last_or (Some t) (take_while (set_test U fl neg items) s'))
                 (drop_while (set_test U fl neg items) s') caps) as [x ->].
Qed.

Lemma starts_with_spec p s : starts_with p s = true <-> exists r, s = p ++ r.
Proof.
  revert s. induction p as [|a p IH]; intros s; simpl.
  - split; [by exists s|done].
  - destruct s as [|b s]; [split; [done|by intros [r ?]]|].
    rewrite andb_true_iff, N.eqb_eq, IH. split.
    + intros [-> [r ->]]. by exists r.
    + intros [r [= -> ->]]. split; [done|by exists r].
Qed.

Lemma take_while_ext p q s :
  (forall c, p c = q c) -> take_while p s = take_while q s.
Proof. intros H. induction s as [|c r IH]; simpl; [done|]. by rewrite H, IH. Qed.

Lemma drop_while_ext p q s :
  (forall c, p c = q c) -> drop_while p s = drop_while q s.
Proof. intros H. induction s as [|c r IH]; simpl; [done|]. by rewrite H, IH. Qed.

Lemma take_while_take p s :
  take (length s - length (drop_while p s)) s = take_while p s.
Proof.
  pose proof (drop_while_length p s) as Hl.
  replace (length s - length (drop_while p s))%nat with (length (take_while p s)) by lia.
  rewrite <- (take_drop_while p s) at 2. by rewrite take_app_length.
Qed.

Lemma drop_while_head p s c :
  head (drop_while p s) = Some c -> p c = false.
Proof.
  induction s as [|d r IH]; simpl; [done|].
  destruct (p d) eqn:Hd; [done|]. simpl. by intros [= <-].
Qed.

Lemma digit_set_test U t : set_test U no_flags false [CDigit] t = is_decimal U t.
Proof. unfold set_test. simpl. by rewrite orb_false_r. Qed.

Lemma py_jl : py "jl=" = [106; 108; 61].
Proof. reflexivity. Qed.

(** One attempt of the pattern at a position. *)
Lemma job_id_match_at U prev s :
  match_at U no_flags job_id_pattern prev s
  = if starts_with (py "jl=") s
       && nonempty (take_while (is_decimal U) (drop 3 s))
    then Some [ (0%nat, py "jl=" ++ take_while (is_decimal U) (drop 3 s));
                (1%nat, take_while (is_decimal U) (drop 3 s)) ]
    else None.
Proof.
  rewrite py_jl. unfold match_at, job_id_pattern, lit. rewrite py_jl.
  cbn [rseq map]. unfold RPlus.
  destruct s as [|a s]; [done|]. cbn [rmatch starts_with]. unfold char_test. cbn [IGNORECASE no_flags].
  destruct (106 =? a) eqn:Ha; [|done]. apply N.eqb_eq in Ha as <-.
  destruct s as [|b s]; [done|]. cbn [rmatch starts_with andb].
  destruct (108 =? b) eqn:Hb; [|done]. apply N.eqb_eq in Hb as <-.
  destruct s as [|c s]; [done|]. cbn [rmatch starts_with andb].
  destruct (61 =? c) eqn:Hc; [|done]. apply N.eqb_eq in Hc as <-.
  cbn [andb]. change (drop 3 (106 :: 108 :: 61 :: s)) with s.
  destruct s as [|d s]; [done|]. cbn [take_while].
  rewrite digit_set_test. destruct (is_decimal U d) eqn:Hd; [|done].
  cbn [nonempty].
  etrans; [apply (star_set_greedy U no_flags false [CDigit]); [by eauto|lia]|]. cbv beta.
  rewrite (drop_while_ext _ (is_decimal U)) by apply digit_set_test.
  pose proof (drop_while_length (is_decimal U) s) as Hl.
  assert (H1 : take (length (d :: s) - length (drop_while (is_decimal U) s)) (d :: s)
               = d :: take_while (is_decimal U) s).
  { simpl length.
    replace (S (length s) - length (drop_while (is_decimal U) s))%nat
      with (S (length s - length (drop_while (is_decimal U) s))) by lia.
    cbn [take firstn]. by rewrite take_while_take. }
  assert (H0 : take (length (106 :: 108 :: 61 :: d :: s)
                     - length (drop_while (is_decimal U) s))
                 (106 :: 108 :: 61 :: d :: s)
               = 106 :: 108 :: 61 :: d :: take_while (is_decimal U) s).
  { simpl length.
    replace (S (S (S (S (length s)))) - length (drop_while (is_decimal U) s))%nat
      with (S (S (S (S (length s - length (drop_while (is_decimal U) s)))))) by lia.
    cbn [take firstn]. by rewrite take_while_take. }
  by rewrite H0, H1.
Qed.

Lemma job_id_search U prev s :
  (m ← search_from U no_flags job_id_pattern prev s; group 1 m) = scan_job_id U s.
Proof.
  revert prev. induction s as [|a s IH]; intros prev.
  - cbn [search_from]. by rewrite job_id_match_at.
  - cbn [search_from scan_job_id]. rewrite job_id_match_at.
    destruct (starts_with (py "jl=") (a :: s)
              && nonempty (take_while (is_decimal U) (drop 3 (a :: s)))); [done|].
    apply IH.
Qed.

(** The regular expression reads what the scan reads. *)
Lemma job_id_of_scan U url : job_id_of U url = scan_job_id U url.
Proof. apply job_id_search. Qed.

Lemma scan_job_id_found U pre c rest :
  is_decimal U c = true ->
  is_Some (scan_job_id U (pre ++ py "jl=" ++ c :: rest)).
Proof.
  intros Hc. induction pre as [|a pre IH].
  - rewrite py_jl. simpl. rewrite Hc. simpl. by eexists.
  - cbn [app scan_job_id].
    destruct (starts_with (py "jl=") (a :: pre ++ py "jl=" ++ c :: rest)
              && nonempty (take_while (is_decimal U)
                             (drop 3 (a :: pre ++ py "jl=" ++ c :: rest))));
      [by eexists|exact IH].
Qed.

Lemma scan_job_id_Some U s id :
  scan_job_id U s = Some id ->
  exists pre post,
    s = pre ++ py "jl=" ++ id ++ post
    /\ id <> []
    /\ Forall (fun c => is_decimal U c = true) id
    /\ (forall c, head post = Some c -> is_decimal U c = false)
    /\ (forall pre1 c rest, s = pre1 ++ py "jl=" ++ c :: rest ->
          is_decimal U c = true -> (length pre <= length pre1)%nat).
Proof.
  induction s as [|a s IH]; [done|]. cbn [scan_job_id].
  destruct (starts_with (py "jl=") (a :: s)
            && nonempty (take_while (is_decimal U) (drop 3 (a :: s)))) eqn:Ht.
  - clear IH. apply andb_true_iff in Ht as [[r Hr]%starts_with_spec Hne].
    rewrite Hr in *. rewrite py_jl in *.
    change (drop 3 ([106; 108; 61] ++ r)) with r in *. intros [= <-].
    exists [], (drop_while (is_decimal U) r). repeat split.
    + by rewrite take_drop_while.
    + intros E. by rewrite E in Hne.
    + apply take_while_all.
    + apply drop_while_head.
    + intros. simpl. lia.
  - intros (pre & post & -> & Hne & Hall & Hpost & Hfirst)%IH.
    exists (a :: pre), post. repeat split; try done.
    intros pre1 c rest Hs Hc. destruct pre1 as [|b pre1].
    + exfalso. rewrite py_jl in Hs, Ht. cbn [app] in Hs, Ht. rewrite Hs in Ht.
      simpl in Ht. rewrite Hc in Ht. done.
    + injection Hs as _ Hs. simpl. apply le_n_S. by apply (Hfirst pre1 c rest).
Qed.

(** X3. The job id read from a job URL is the run of decimal digits that
    follows the first "jl=" that has a digit after it: it is not empty, it
    holds decimal digits only, what follows it in the URL is not a digit,
    and no earlier place of the URL has "jl=" followed by a digit. *)
Theorem job_id_first_digit_run (U : unicode_db) (job_url id : pystr) :
  job_id_of U job_url = Some id ->
  exists pre post,
    job_url = pre ++ py "jl=" ++ id ++ post
    /\ id <> []
    /\ Forall (fun c => is_decimal U c = true) id
    /\ (forall c, head post = Some c -> is_decimal U c = false)
    /\ (forall pre1 c rest, job_url = pre1 ++ py "jl=" ++ c :: rest ->
          is_decimal U c = true -> (length pre <= length pre1)%nat).
Proof. rewrite job_id_of_scan. apply scan_job_id_Some. Qed.

Lemma job_id_first_digit_run_witness :
  job_id_of ascii_db (py "https://www.glassdoor.co.in/job-listing/dev?jl=1009871&jl=5")
    = Some (py "1009871")
  /\ exists pre post,
       py "https://www.glassdoor.co.in/job-listing/dev?jl=1009871&jl=5"
         = pre ++ py "jl=" ++ py "1009871" ++ post
       /\ py "1009871" <> []
       /\ Forall (fun c => is_decimal ascii_db c = true) (py "1009871")
       /\ (forall c, head post = Some c -> is_decimal ascii_db c = false)
       /\ (forall pre1 c rest,
             py "https://www.glassdoor.co.in/job-listing/dev?jl=1009871&jl=5"
               = pre1 ++ py "jl=" ++ c :: rest ->
             is_decimal ascii_db c = true -> (length pre <= length pre1)%nat).
Proof.
  split; [vm_compute; reflexivity|].
  apply (job_id_first_digit_run ascii_db). vm_compute. reflexivity.
Defined.

(** X4. A job URL gives no job id exactly when no "jl=" in it is followed
    by a decimal digit. *)
Theorem job_id_absent_iff (U : unicode_db) (job_url : pystr) :
  job_id_of U job_url = None
  <-> ~ exists pre c rest,
          job_url = pre ++ py "jl=" ++ c :: rest /\ is_decimal U c = true.
Proof.
  rewrite job_id_of_scan. split.
  - intros Hn (pre & c & rest & -> & Hc).
    destruct (scan_job_id_found U pre c rest Hc) as [x Hx]. congruence.
  - intros Hno. destruct (scan_job_id U job_url) as [id|] eqn:Hs; [|done].
    exfalso. apply Hno.
    apply scan_job_id_Some in Hs as (pre & post & -> & Hne & Hall & _).
    destruct id as [|c id]; [done|]. exists pre, c, (id ++ post).
    split; [done|]. by apply Forall_cons in Hall as [? _].
Qed.

(** ** The batch *)

(** What the constructor copies and what it validates. *)
Lemma make_posting_inv U a job :
  make_posting U a = Ok job ->
  job_id job = a_job_id a
  /\ jd_url job = Some (a_jd_url a)
  /\ job_description job = a_job_description a
  /\ extra_sections job = a_extra_sections a
  /\ easy_apply job = a_easy_apply a
  /\ company_logo job = a_company_logo a
  /\ validate_opt_str (a_work_location a) = Ok (work_location job)
  /\ validate_str_or_list (a_benefits a) = Ok (benefits job)
  /\ validate_str_or_list (a_schedule a) = Ok (schedule job)
  /\ validate_opt_str (a_education a) = Ok (education job)
  /\ validate_opt_list (ensure_list (a_other_relevant_skills a))
     = Ok (other_relevant_skills job).
Proof.
  unfold make_posting. intros H.
  do 9 bind_inv H. injection H as <-. simpl. repeat split; done.
Qed.

Lemma extract_single_job_ids U env browse job_url job :
  _extract_single_job U env browse job_url = Some job ->
  jd_url job = Some job_url /\ job_id job = job_id_of U job_url
  /\ is_Some (browse job_url).
Proof.
  intros (pg & fr & Hb & _ & Hmk)%extract_single_job_Some.
  apply make_posting_inv in Hmk as (Hid & Hurl & _).
  rewrite Hb. split; [exact Hurl|]. split; [exact Hid|]. by eexists.
Qed.

(** X5. The batch follows the list of URLs: the records come in the order
    of the URLs they were read from, at most one for each URL, each with
    the URL it was read from as its jd_url and with the job id read from
    that URL, and only for URLs whose page loaded. *)
Theorem batch_follows_urls (U : unicode_db) (env : llm_env)
    (browse : pystr -> option page) (job_urls : list pystr) :
  (jd_url <$> _extract_jobs_concurrent U env browse job_urls)
    `sublist_of` (Some <$> job_urls)
  /\ (length (_extract_jobs_concurrent U env browse job_urls)
      <= length job_urls)%nat
  /\ Forall (fun job =>
               exists url, url ∈ job_urls /\ is_Some (browse url)
                 /\ jd_url job = Some url /\ job_id job = job_id_of U url)
            (_extract_jobs_concurrent U env browse job_urls).
Proof.
  assert (Hsub : (jd_url <$> _extract_jobs_concurrent U env browse job_urls)
                   `sublist_of` (Some <$> job_urls)).
  { unfold _extract_jobs_concurrent.
    induction job_urls as [|url l IH]; [done|].
    rewrite fmap_cons. cbn [omap list_omap].
    destruct (_extract_single_job U env browse url) as [job|] eqn:Hj.
    - apply extract_single_job_ids in Hj as (Hu & _).
      rewrite fmap_cons, Hu. by apply sublist_skip.
    - by apply sublist_cons. }
  split; [exact Hsub|]. split.
  - apply sublist_length in Hsub. by rewrite !length_fmap in Hsub.
  - apply Forall_forall. intros job Hin. unfold _extract_jobs_concurrent in Hin.
    apply list_elem_of_omap in Hin as (url & Hurl & Hjob).
    apply extract_single_job_ids in Hjob as (? & ? & ?). by exists url.
Qed.

(** ** The currency validator *)

Lemma strip_sublist s : strip s `sublist_of` s.
Proof.
  unfold strip.
  destruct (lstrip_suffix s) as [pre E].
  destruct (rstrip_prefix (lstrip s)) as [post E'].
  rewrite E at 2. rewrite E' at 2.
  apply sublist_inserts_l, sublist_inserts_r. done.
Qed.

Lemma filter_all {A} (p : A -> bool) l :
  Forall (fun c => p c = true) l -> List.filter p l = l.
Proof.
  induction 1 as [|c l Hc _ IH]; simpl; [done|]. by rewrite Hc, IH.
Qed.

Lemma filter_Forall {A} (p : A -> bool) l :
  Forall (fun c => p c = true) (List.filter p l).
Proof.
  induction l as [|c l IH]; simpl; [constructor|].
  destruct (p c) eqn:Hc; [by constructor|done].
Qed.

Lemma filter_sublist {A} (p : A -> bool) l : List.filter p l `sublist_of` l.
Proof.
  induction l as [|c l IH]; simpl; [done|].
  destruct (p c); [by apply sublist_skip|by apply sublist_cons].
Qed.

Lemma normalized_currency_retained U s :
  Forall (fun c => retained U c = true) (strip (List.filter (retained U) s)).
Proof.
  apply Forall_forall. intros c Hc.
  eapply elem_of_sublist in Hc; [|apply strip_sublist].
  revert c Hc. apply Forall_forall, filter_Forall.
Qed.

(** X6. The currency validator, as the character class is read: a value
    it returns is trimmed, is what is left of the input after dropping
    characters, and holds only decimal digits, commas, dollar, euro and
    pound signs, whitespace and the characters from '.' to the rupee sign,
    letters among them; the hyphen-minus is always dropped.  Validating a
    validated value changes nothing. *)
Theorem normalize_currency_stable (U : unicode_db) (v : option pystr) :
  normalize_currency U (normalize_currency U v) = normalize_currency U v
  /\ (forall s t,
        v = Some s -> normalize_currency U v = Some t ->
        strip t = t /\ t `sublist_of` s
        /\ Forall (fun c => retained U c = true) t /\ 45 ∉ t)
  /\ (forall c,
        retained U c
        = is_decimal U c || (c =? 44) || ((46 <=? c) && (c <=? 8377))
          || (c =? 36) || is_space c)
  /\ (normalize_currency U v = None <-> v = None).
Proof.
  split; [|split; [|split]].
  - destruct v as [s|]; [|done]. rewrite normalize_currency_filter.
    destruct (nonempty s) eqn:Hs.
    + rewrite normalize_currency_filter.
      destruct (nonempty (strip (List.filter (retained U) s))); [|done].
      f_equal. rewrite filter_all by apply normalized_currency_retained.
      apply strip_idemp.
    + rewrite normalize_currency_filter. by rewrite Hs.
  - intros s t -> Ht. rewrite normalize_currency_filter in Ht.
    destruct (nonempty s) eqn:Hs.
    + injection Ht as <-. split; [apply strip_idemp|]. split.
      { etrans; [apply strip_sublist|apply filter_sublist]. }
      split; [apply normalized_currency_retained|].
      intros Hin.
      pose proof (normalized_currency_retained U s) as Hall.
      rewrite Forall_forall in Hall. apply Hall in Hin.
      rewrite retained_spec in Hin. unfold is_decimal in Hin. done.
    + injection Ht as <-. destruct s; [|done]. repeat split; try done.
      apply not_elem_of_nil.
  - apply retained_spec.
  - destruct v as [s|]; [|done]. rewrite normalize_currency_filter.
    by destruct (nonempty s).
Qed.

(** ** The shape of the dictionary of the generative extractor *)

Lemma strip_skills_clean l skills :
  strip_skills l = Ok skills -> Forall clean_skill skills.
Proof.
  revert skills. induction l as [|v l IH]; intros skills; simpl.
  - intros [= <-]. constructor.
  - destruct v as [| | | |s| |]; try done.
    intros H. bind_inv H. injection H as <-.
    destruct (nonempty (strip s)) eqn:Hs; [|by apply IH].
    constructor; [|by apply IH]. split; [by apply nonempty_true|apply strip_idemp].
Qed.

Lemma split_skills_clean s : Forall clean_skill (split_skills s).
Proof.
  unfold split_skills. generalize (split_char 44 s). intros parts.
  induction parts as [|p parts IH]; simpl; [constructor|].
  destruct (nonempty (strip p)) eqn:Hp; [|done].
  constructor; [|done]. split; [by apply nonempty_true|apply strip_idemp].
Qed.

Lemma default_fields_shape : fields_shape _get_default_fields.
Proof.
  split; [|split].
  - intros k. split.
    + intros [v Hv]. unfold _get_default_fields in Hv.
      apply elem_of_list_to_map_2 in Hv.
      repeat (apply elem_of_cons in Hv as [[= -> _]|Hv];
              [apply (bool_decide_unpack _); vm_compute; exact I|]).
      by apply not_elem_of_nil in Hv.
    + unfold str_keys, list_keys. intros Hk. cbn [app] in Hk.
      repeat (apply elem_of_cons in Hk as [->|Hk];
              [vm_compute; by eexists|]).
      by apply not_elem_of_nil in Hk.
  - unfold str_keys. intros k Hk.
    repeat (apply elem_of_cons in Hk as [->|Hk];
            [exists (VStr sentinel); split; vm_compute; reflexivity|]).
    by apply not_elem_of_nil in Hk.
  - unfold list_keys. intros k Hk.
    repeat (apply elem_of_cons in Hk as [->|Hk];
            [exists []; split; [vm_compute; reflexivity|constructor]|]).
    by apply not_elem_of_nil in Hk.
Qed.

(** Writing a scalar key keeps the shape when the value is truthy. *)
Lemma shape_insert_str n key v :
  fields_shape n -> key ∈ str_keys -> truthy v = true ->
  fields_shape (<[key := v]> n).
Proof.
  intros (Hdom & Hstr & Hlist) Hkey Hv. split; [|split].
  - intros k. rewrite lookup_insert. destruct (decide (key = k)) as [<-|Hne].
    + split; [intros _; apply elem_of_app; by left|by eexists].
    + apply Hdom.
  - intros k Hk. rewrite lookup_insert. destruct (decide (key = k)) as [<-|Hne].
    + by exists v.
    + by apply Hstr.
  - intros k Hk. rewrite lookup_insert. destruct (decide (key = k)) as [<-|Hne].
    + exfalso. by apply (keys_disjoint key).
    + by apply Hlist.
Qed.

(** Writing a list key keeps the shape when the value is a list of clean
    strings. *)
Lemma shape_insert_list n key skills :
  fields_shape n -> key ∈ list_keys -> Forall clean_skill skills ->
  fields_shape (<[key := content_list skills]> n).
Proof.
  intros (Hdom & Hstr & Hlist) Hkey Hv. split; [|split].
  - intros k. rewrite lookup_insert. destruct (decide (key = k)) as [<-|Hne].
    + split; [intros _; apply elem_of_app; by right|by eexists].
    + apply Hdom.
  - intros k Hk. rewrite lookup_insert. destruct (decide (key = k)) as [<-|Hne].
    + exfalso. by apply (keys_disjoint key).
    + by apply Hstr.
  - intros k Hk. rewrite lookup_insert. destruct (decide (key = k)) as [<-|Hne].
    + by exists skills.
    + by apply Hlist.
Qed.

Lemma normalize_key_shape fields n key n' :
  fields_shape n -> key ∈ str_keys ++ list_keys ->
  normalize_key fields n key = Ok n' -> fields_shape n'.
Proof.
  intros Hn Hkey. unfold normalize_key. intros H.
  bind_inv H. destruct a; [|by injection H as <-].
  bind_inv H. destruct (truthy a) eqn:Ht; [|by injection H as <-].
  case_bool_decide as Hl.
  - destruct a as [| | | |t|l|]; try by injection H as <-.
    + destruct (negb (pystr_eqb t sentinel)); injection H as <-; [|done].
      apply shape_insert_list; [done|done|apply split_skills_clean].
    + bind_inv H. injection H as <-.
      apply shape_insert_list; [done|done|by eapply strip_skills_clean].
  - destruct (negb (is_str sentinel a)); injection H as <-; [|done].
    apply shape_insert_str; [done| |done].
    apply elem_of_app in Hkey as [?|?]; done.
Qed.

Lemma normalize_keys_shape fields keys :
  forall n n',
    fields_shape n -> keys ⊆ str_keys ++ list_keys ->
    normalize_keys fields n keys = Ok n' -> fields_shape n'.
Proof.
  induction keys as [|key keys IH]; intros n n' Hn Hsub; simpl.
  - by intros [= <-].
  - intros H. bind_inv H.
    apply (IH a n'); [|set_solver|done].
    eapply normalize_key_shape; [done| |done]. set_solver.
Qed.

Lemma normalize_llm_shape fields n :
  _normalize_llm_fields fields = Ok n -> fields_shape n.
Proof.
  unfold _normalize_llm_fields.
  apply normalize_keys_shape; [apply default_fields_shape|done].
Qed.

Lemma extract_fields_shaped U env text :
  exists n, extract_fields U env text = Ok n /\ fields_shape n.
Proof.
  unfold extract_fields.
  destruct (negb (client env) || negb (nonempty text)).
  { eexists. split; [done|apply default_fields_shape]. }
  destruct (chat_completion env (_build_extraction_prompt text)) as [content|e];
    cbn [mbind exc_bind]; [|eexists; split; [done|apply default_fields_shape]].
  destruct (_parse_llm_response U env content) as [fields|e];
    cbn [mbind exc_bind]; [|eexists; split; [done|apply default_fields_shape]].
  destruct (_normalize_llm_fields fields) as [n|e] eqn:Hn; cbn [try_except].
  - exists n. split; [done|by eapply normalize_llm_shape].
  - eexists. split; [done|apply default_fields_shape].
Qed.

(** X7. Whatever the generative model replies, [extract_fields] returns a
    dictionary with exactly the eight keys, a truthy value under each of
    the six scalar keys, and under the two skill keys a list of strings
    that are not empty and are trimmed.  The normalisation alone gives
    this shape whenever it returns: a reply that is not a dictionary with
    usable members is replaced, member by member, by the defaults. *)
Theorem extract_fields_shape (U : unicode_db) (env : llm_env) (text : pystr) :
  (exists n, extract_fields U env text = Ok n /\ fields_shape n)
  /\ (forall fields n, _normalize_llm_fields fields = Ok n -> fields_shape n)
  /\ fields_shape _get_default_fields.
Proof.
  split; [apply extract_fields_shaped|].
  split; [apply normalize_llm_shape|apply default_fields_shape].
Qed.

(** ** The older normalisation *)

Lemma foldl_keeps {S K} (f : S -> K -> S) (Q : S -> Prop) (ks : list K) :
  forall s,
    (forall s k', k' ∈ ks -> Q s -> Q (f s k')) -> Q s -> Q (foldl f s ks).
Proof.
  induction ks as [|k0 ks IH]; intros s Hkeep Hs; [done|]. simpl.
  apply IH.
  - intros s' k' Hk'. apply Hkeep. by apply elem_of_cons; right.
  - apply Hkeep; [by apply elem_of_cons; left|done].
Qed.

Lemma foldl_sets {S K} (f : S -> K -> S) (Q : S -> Prop) (ks : list K) (k : K) :
  forall s,
    (forall s, Q (f s k)) ->
    (forall s k', k' ∈ ks -> Q s -> Q (f s k')) ->
    k ∈ ks -> Q (foldl f s ks).
Proof.
  induction ks as [|k0 ks IH]; intros s Hset Hkeep Hk.
  - by apply not_elem_of_nil in Hk.
  - simpl. apply elem_of_cons in Hk as [<-|Hk].
    + apply foldl_keeps; [|apply Hset].
      intros s' k' Hk'. apply Hkeep. by apply elem_of_cons; right.
    + apply IH; [done| |done].
      intros s' k' Hk'. apply Hkeep. by apply elem_of_cons; right.
Qed.

Lemma normalize_str_key_other m k' k :
  k' <> k -> Legacy.normalize_str_key m k' !! k = m !! k.
Proof.
  intros Hne. unfold Legacy.normalize_str_key.
  destruct (m !! k') as [v|]; [destruct (truthy v); [done|]|];
    rewrite lookup_insert; by destruct (decide (k' = k)).
Qed.

Lemma normalize_str_key_sets m k :
  exists v, Legacy.normalize_str_key m k !! k = Some v /\ truthy v = true.
Proof.
  unfold Legacy.normalize_str_key.
  destruct (m !! k) as [v|] eqn:Hv; [destruct (truthy v) eqn:Ht; [by exists v|]|];
    exists (VStr sentinel); rewrite lookup_insert;
    (destruct (decide (k = k)); [done|congruence]).
Qed.

Lemma normalize_list_key_other U m k' k :
  k' <> k -> Legacy.normalize_list_key U m k' !! k = m !! k.
Proof.
  intros Hne. unfold Legacy.normalize_list_key.
  destruct (m !! k') as [[| | | | |l|]|]; try destruct (Legacy.see_above U l);
    try done; rewrite lookup_insert; by destruct (decide (k' = k)).
Qed.

Lemma normalize_list_key_sets U m k :
  exists l, Legacy.normalize_list_key U m k !! k = Some (VList l)
            /\ Legacy.see_above U l = false.
Proof.
  unfold Legacy.normalize_list_key.
  destruct (m !! k) as [[| | | | |l|]|] eqn:Hv;
    try (exists []; rewrite lookup_insert;
         destruct (decide (k = k)); [done|congruence]).
  destruct (Legacy.see_above U l) eqn:Hs.
  - exists []. rewrite lookup_insert. destruct (decide (k = k)); [done|congruence].
  - by exists l.
Qed.

Lemma legacy_normalize_shape U d :
  legacy_shape U
    (foldl (Legacy.normalize_list_key U)
       (foldl Legacy.normalize_str_key (list_to_map d) str_keys) list_keys).
Proof.
  split.
  - intros k Hk.
    apply (foldl_keeps _ (fun m : gmap pystr value => exists v, m !! k = Some v /\ truthy v = true)).
    + intros m k' Hk' Hm. rewrite normalize_list_key_other; [done|].
      intros ->. by apply (keys_disjoint k).
    + apply (foldl_sets _ (fun m : gmap pystr value => exists v, m !! k = Some v /\ truthy v = true)
               str_keys k); [intros m; apply normalize_str_key_sets| |done].
      intros m k' _ Hm. destruct (decide (k' = k)) as [->|Hne].
      * apply normalize_str_key_sets.
      * by rewrite normalize_str_key_other.
  - intros k Hk.
    apply (foldl_sets _ (fun m : gmap pystr value => exists l, m !! k = Some (VList l)
                                   /\ Legacy.see_above U l = false)
             list_keys k); [intros m; apply normalize_list_key_sets| |done].
    intros m k' _ Hm. destruct (decide (k' = k)) as [->|Hne].
    + apply normalize_list_key_sets.
    + by rewrite normalize_list_key_other.
Qed.

Lemma legacy_normalize_other U d k :
  k ∉ str_keys ++ list_keys ->
  foldl (Legacy.normalize_list_key U)
    (foldl Legacy.normalize_str_key (list_to_map d) str_keys) list_keys !! k
  = (list_to_map d : gmap pystr value) !! k.
Proof.
  intros Hk.
  apply (foldl_keeps _ (fun m : gmap pystr value => m !! k = (list_to_map d : gmap pystr value) !! k)).
  - intros m k' Hk' Hm. rewrite normalize_list_key_other; [done|].
    intros ->. apply Hk, elem_of_app. by right.
  - apply (foldl_keeps _ (fun m : gmap pystr value => m !! k = (list_to_map d : gmap pystr value) !! k));
      [|done].
    intros m k' Hk' Hm. rewrite normalize_str_key_other; [done|].
    intros ->. apply Hk, elem_of_app. by left.
Qed.

Lemma Ok_inj {A} (a b : A) : Ok a = Ok b -> a = b.
Proof. by intros [= ->]. Qed.

Lemma legacy_default_shape U : legacy_shape U _get_default_fields.
Proof.
  destruct default_fields_shape as (_ & Hstr & Hlist). split; [exact Hstr|].
  unfold list_keys. intros k Hk.
  repeat (apply elem_of_cons in Hk as [->|Hk];
          [exists []; split; [vm_compute; reflexivity|reflexivity]|]).
  by apply not_elem_of_nil in Hk.
Qed.

(** X8. The older normalisation of the reply.  On a dictionary it always
    returns, with a truthy value under each of the six scalar keys and a
    list under each of the two skill keys, never the one-string "see
    above" placeholder; the members of the reply under other keys stay as
    they are, so the result can hold more than the eight keys, and the
    skill lists are kept as the model gave them.  On any reply that is
    not a dictionary it raises, and the function around it then returns
    the defaults: whenever [extract_fields_with_llama] returns, its
    result has the shape. *)
Theorem legacy_reply_shape (U : unicode_db) (env : llm_env) :
  (forall d,
     exists n, Legacy.normalize_llm_fields U (VDict d) = Ok n
               /\ legacy_shape U n
               /\ forall k, k ∉ str_keys ++ list_keys ->
                            n !! k = (list_to_map d : gmap pystr value) !! k)
  /\ (forall fields,
        (forall d, fields <> VDict d) ->
        Legacy.normalize_llm_fields U fields = Raise TypeError)
  /\ (forall text n,
        Legacy.extract_fields_with_llama U env text = Ok n -> legacy_shape U n).
Proof.
  split; [|split].
  - intros d. eexists. split; [reflexivity|]. split.
    + apply legacy_normalize_shape.
    + intros k. apply legacy_normalize_other.
  - intros fields Hf. destruct fields; try done. by destruct (Hf d).
  - intros text n. unfold Legacy.extract_fields_with_llama.
    destruct (negb (groq_imported env)); [done|].
    destruct (Groq env (GROQ_API_KEY env)) as [[]|e]; cbn [mbind exc_bind]; [|done].
    destruct (chat_completion env text) as [content|e]; cbn [mbind exc_bind];
      [|intros <-%Ok_inj; apply legacy_default_shape].
    destruct (Legacy.parse_reply U env content) as [fields|e]; cbn [mbind exc_bind];
      [|intros <-%Ok_inj; apply legacy_default_shape].
    destruct fields; cbn [Legacy.normalize_llm_fields try_except];
      intros <-%Ok_inj; try apply legacy_default_shape.
    apply legacy_normalize_shape.
Qed.

(** ** Where the saved sections come from *)

Lemma node_nested_ind (P : node -> Prop) :
  (forall s, P (NavigableString s)) ->
  (forall name cs, Forall P cs -> P (Tag name cs)) ->
  forall n, P n.
Proof.
  intros Hs Ht. fix IH 1. intros [s|name cs]; [apply Hs|].
  apply Ht. induction cs as [|c cs IHcs]; constructor; [apply IH|exact IHcs].
Qed.

Lemma clean_skill_intro s :
  s <> [] -> no_lead s -> no_lead (reverse s) -> clean_skill s.
Proof.
  intros Hne Hl Hr. split; [done|]. unfold strip.
  rewrite lstrip_fixed by done. by apply rstrip_fixed.
Qed.

Lemma clean_skill_ends s :
  clean_skill s -> s <> [] /\ no_lead s /\ no_lead (reverse s).
Proof.
  intros [Hne Hs]. split; [done|]. rewrite <- Hs.
  split; [apply strip_no_lead|apply strip_no_trail].
Qed.

Lemma no_lead_app a b : a <> [] -> no_lead a -> no_lead (a ++ b).
Proof. by destruct a. Qed.

(** Joining clean strings, whatever the separator, gives a clean string. *)
Lemma join_clean sep l : l <> [] -> Forall clean_skill l -> clean_skill (join sep l).
Proof.
  intros Hne Hall. induction Hall as [|a l Ha Hl IH]; [done|].
  destruct l as [|b l]; [exact Ha|].
  change (join sep (a :: b :: l)) with (a ++ sep ++ join sep (b :: l)).
  destruct (clean_skill_ends a Ha) as (Hane & Hal & Har).
  destruct (clean_skill_ends _ (IH ltac:(done))) as (Hjne & Hjl & Hjr).
  apply clean_skill_intro.
  - by destruct a.
  - by apply no_lead_app.
  - rewrite !reverse_app. rewrite <- app_assoc. apply no_lead_app; [|done].
    intros E. apply Hjne. apply (f_equal reverse) in E.
    by rewrite reverse_involutive in E.
Qed.

Lemma stripped_strings_clean n : Forall clean_skill (stripped_strings n).
Proof.
  induction n as [s|name cs IH] using node_nested_ind.
  - simpl. destruct (nonempty (strip s)) eqn:Hs; [|constructor].
    apply Forall_singleton. split; [by apply nonempty_true|apply strip_idemp].
  - simpl. induction IH as [|c cs Hc _ IHcs]; [constructor|].
    apply Forall_app. by split.
Qed.

(** The text of a node, when it has any, is trimmed. *)
Lemma get_text_clean sep e :
  nonempty (get_text sep e) = true -> clean_skill (get_text sep e).
Proof.
  unfold get_text. intros Hne. apply join_clean; [|apply stripped_strings_clean].
  intros E. by rewrite E in Hne.
Qed.

Lemma from_content_clean els s : from_content els s -> clean_skill s.
Proof.
  intros (e & _ & He & ->). apply get_text_clean.
  destruct e as [t|name cs]; [done|]. unfold is_content in He.
  by apply andb_true_iff in He as [_ He].
Qed.

Lemma process_section_value (content : list pystr) :
  content <> [] -> Forall clean_skill content ->
  section_value (_process_section_content content).
Proof.
  intros Hne Hall. destruct content as [|a [|b rest]]; [done| |].
  - left. exists a. split; [done|]. exact (Forall_inv Hall).
  - rewrite process_many. destruct (forallb short (a :: b :: rest)).
    + right. exists (a :: b :: rest). split; [done|]. split; [done|simpl; lia].
    + left. eexists. split; [done|]. by apply join_clean.
Qed.

(** X9. What the section map holds comes from the document.  Every saved
    section is named by the key of a header node of the traversal, and
    its content strings are the texts of content nodes (p, li, div) of the
    traversal, each not empty and trimmed.  So every key of the returned
    dictionary is the key of a header node, and every value is a trimmed,
    non-empty string or a list of at least two such strings. *)
Theorem sections_come_from_document (U : unicode_db) (els : list node) :
  Forall (fun kc => from_document U els kc /\ Forall clean_skill kc.2)
         (commits U els)
  /\ (forall k v,
        segment U els !! k = Some v -> from_header U els k /\ section_value v).
Proof.
  assert (H1 : Forall (fun kc => from_document U els kc /\ Forall clean_skill kc.2)
                 (commits U els)).
  { eapply Forall_impl; [apply commits_from_document|].
    intros kc Hkc. split; [done|]. destruct Hkc as [_ Hcc].
    eapply Forall_impl; [exact Hcc|]. apply from_content_clean. }
  split; [exact H1|].
  intros k v Hv. rewrite segment_replay in Hv.
  apply replay_lookup in Hv as (content & Hin & ->).
  rewrite Forall_forall in H1. destruct (H1 _ Hin) as [[Hh _] Hclean].
  split; [exact Hh|].
  pose proof (commits_well_formed U els) as Hwf. rewrite Forall_forall in Hwf.
  destruct (Hwf _ Hin) as (_ & Hne & _).
  by apply process_section_value.
Qed.

(** ** What a returned record holds *)

Lemma ensure_list_clean v :
  skill_source v ->
  exists l, validate_opt_list (ensure_list v) = Ok (Some l) /\ Forall clean_skill l.
Proof.
  intros [->|[[s ->]|(l & -> & Hl)]].
  - exists []. split; [done|constructor].
  - exists (split_skills s). split; [|apply split_skills_clean].
    cbn [ensure_list]. unfold content_list, validate_opt_list.
    by rewrite validate_strs_map.
  - exists l. split; [apply ensure_list_content|done].
Qed.

Lemma section_value_truthy v : section_value v -> truthy v = true.
Proof.
  intros [(s & -> & Hne & _)|(l & -> & _ & Hlen)].
  - by apply nonempty_true.
  - destruct l; [simpl in Hlen; lia|done].
Qed.

(** A variable read from the section map holds nothing or a value of the
    map. *)
Lemma sections_get_cases U pg k :
  dict_get (extract_job_description_sections U pg) k = VNone
  \/ section_value (dict_get (extract_job_description_sections U pg) k).
Proof.
  unfold dict_get, extract_job_description_sections.
  destruct (find_desc_div pg) as [desc_div|]; [|left; by rewrite lookup_empty].
  unfold sections_of.
  destruct (segment U (descendants desc_div) !! k) as [v|] eqn:Hv; [|by left].
  right. simpl.
  pose proof (commits_from_document U (descendants desc_div)) as Hdoc.
  pose proof (commits_well_formed U (descendants desc_div)) as Hwf.
  rewrite segment_replay in Hv. apply replay_lookup in Hv as (content & Hin & ->).
  rewrite Forall_forall in Hdoc, Hwf.
  destruct (Hdoc _ Hin) as [_ Hcc]. destruct (Hwf _ Hin) as (_ & Hne & _).
  apply process_section_value; [done|].
  eapply Forall_impl; [exact Hcc|]. apply from_content_clean.
Qed.

(** The value of a variable after the merge: that of the section map, or
    that of the reply when the section map left the variable empty. *)
Lemma merged_value_cases U env pg fr k :
  (merged_frame U env pg).1 = Ok fr ->
  k ∈ str_keys ++ list_keys ->
  dict_get fr k = dict_get (extract_job_description_sections U pg) k
  \/ (truthy (dict_get (extract_job_description_sections U pg) k) = false
      /\ exists text llm,
           extract_fields U env text = Ok llm /\ dict_get fr k = dict_get llm k).
Proof.
  intros Hm Hk.
  destruct (merged_frame_spec U env pg)
    as [(text & llm & _ & _ & _ & Hllm & Hmf)|[_ Hmf]];
    rewrite Hmf in Hm; injection Hm as <-.
  - rewrite merge_llm_dict_get, decide_True by done.
    rewrite frame_of_sections_get by done. unfold py_or.
    destruct (truthy (dict_get (extract_job_description_sections U pg) k)) eqn:Ht;
      [by left|right]. split; [done|]. by exists text, llm.
  - left. by apply frame_of_sections_get.
Qed.

Lemma shaped_reply U env text llm :
  extract_fields U env text = Ok llm -> fields_shape llm.
Proof.
  intros H. destruct (extract_fields_shaped U env text) as (n & Hn & Hshape).
  rewrite H in Hn. by injection Hn as ->.
Qed.

Lemma merged_skill_source U env pg fr k :
  (merged_frame U env pg).1 = Ok fr -> k ∈ list_keys ->
  skill_source (dict_get fr k).
Proof.
  intros Hm Hk.
  assert (Hk' : k ∈ str_keys ++ list_keys) by (apply elem_of_app; by right).
  destruct (merged_value_cases U env pg fr k Hm Hk')
    as [->|(_ & text & llm & Hllm & ->)].
  - destruct (sections_get_cases U pg k) as [->|[(s & -> & _)|(l & -> & Hl & _)]].
    + by left.
    + right; left. by exists s.
    + right; right. by exists l.
  - apply shaped_reply in Hllm as (_ & _ & Hlist).
    destruct (Hlist k Hk) as (skills & Hs & Hclean).
    right; right. exists skills. unfold dict_get. by rewrite Hs.
Qed.

(** With description text every scalar variable is truthy after the
    merge. *)
Lemma merged_scalar_truthy U env pg fr text k :
  (merged_frame U env pg).1 = Ok fr ->
  description_text pg = Some text -> nonempty text = true ->
  k ∈ str_keys -> truthy (dict_get fr k) = true.
Proof.
  intros Hm Hd Hne Hk.
  assert (Hk' : k ∈ str_keys ++ list_keys) by (apply elem_of_app; by left).
  destruct (merged_frame_spec U env pg)
    as [(text' & llm & _ & _ & _ & Hllm & Hmf)|[Hgate Hmf]];
    rewrite Hmf in Hm; injection Hm as <-.
  - rewrite merge_llm_dict_get, decide_True by done. unfold py_or.
    destruct (truthy (dict_get _ k)) eqn:Ht; [done|].
    apply shaped_reply in Hllm as (_ & Hstr & _).
    destruct (Hstr k Hk) as (v & Hv & Htv). unfold dict_get. by rewrite Hv.
  - rewrite Hd, Hne in Hgate. simpl in Hgate.
    destruct (truthy (dict_get (frame_of_sections
                (extract_job_description_sections U pg)) k)) eqn:Ht; [done|].
    by rewrite (any_missing_true _ k Hk' Ht) in Hgate.
Qed.

Lemma validate_opt_str_truthy v o :
  validate_opt_str v = Ok o -> truthy v = true -> exists s, o = Some s /\ s <> [].
Proof.
  destruct v; try done. intros [= <-] Ht. eexists. split; [done|].
  by apply nonempty_true.
Qed.

Lemma validate_str_or_list_truthy v o :
  validate_str_or_list v = Ok o -> truthy v = true -> filled o.
Proof.
  destruct v as [| | | |s|l|]; try done.
  - intros [= <-] Ht. by apply nonempty_true.
  - simpl. intros H Ht. bind_inv H. injection H as <-. simpl.
    destruct l as [|x l]; [done|]. simpl in Ha.
    destruct x; try done. bind_inv Ha. by injection Ha as <-.
Qed.

Lemma scalar_key_elems :
  py "jobType" ∈ str_keys /\ py "pay" ∈ str_keys /\ py "workLocation" ∈ str_keys
  /\ py "benefits" ∈ str_keys /\ py "schedule" ∈ str_keys
  /\ py "education" ∈ str_keys.
Proof. repeat split; apply (bool_decide_unpack _); vm_compute; exact I. Qed.

Lemma list_key_elems :
  py "mostRelevantSkills" ∈ list_keys /\ py "otherRelevantSkills" ∈ list_keys.
Proof. split; apply (bool_decide_unpack _); vm_compute; exact I. Qed.

Lemma record_filled U env pg job_url job :
  (extract_from_page U env pg job_url).1 = Ok job ->
  (exists ms os,
     most_relevant_skills job = Some ms /\ other_relevant_skills job = Some os
     /\ Forall clean_skill ms /\ Forall clean_skill os)
  /\ (forall text,
        job_description job = Some text -> text <> [] ->
        (exists s, job_type job = Some s /\ s <> [])
        /\ is_Some (pay job)
        /\ (exists s, work_location job = Some s /\ s <> [])
        /\ (exists s, education job = Some s /\ s <> [])
        /\ filled (benefits job) /\ filled (schedule job)).
Proof.
  intros (fr & Hm & Hmk)%extract_from_page_Ok.
  pose proof Hmk as Hmk'.
  apply make_posting_Ok in Hmk as (_ & _ & _ & _ & _ & Hjt & (p & Hp & Hpay) & Hms).
  apply make_posting_inv
    in Hmk' as (_ & _ & Hdesc & _ & _ & _ & Hwl & Hb & Hs & He & Hos).
  cbn [posting_args_of a_job_type a_pay a_most_relevant_skills a_work_location
       a_benefits a_schedule a_education a_other_relevant_skills
       a_job_description] in *.
  destruct scalar_key_elems as (K1 & K2 & K3 & K4 & K5 & K6).
  destruct list_key_elems as (L1 & L2).
  split.
  - destruct (ensure_list_clean _ (merged_skill_source U env pg fr _ Hm L1))
      as (ms & Hms' & Hcms).
    destruct (ensure_list_clean _ (merged_skill_source U env pg fr _ Hm L2))
      as (os & Hos' & Hcos).
    rewrite Hms' in Hms. rewrite Hos' in Hos.
    injection Hms as <-. injection Hos as <-. by exists ms, os.
  - intros text Ht Hne. rewrite Hdesc in Ht. apply nonempty_true in Hne.
    pose proof (fun k => merged_scalar_truthy U env pg fr text k Hm Ht Hne) as Htr.
    split; [by apply (validate_opt_str_truthy _ _ Hjt), Htr|].
    split.
    { destruct (validate_opt_str_truthy _ _ Hp (Htr _ K2)) as (s & -> & Hs').
      rewrite Hpay, normalize_currency_filter. by destruct (nonempty s). }
    split; [by apply (validate_opt_str_truthy _ _ Hwl), Htr|].
    split; [by apply (validate_opt_str_truthy _ _ He), Htr|].
    split; [by apply (validate_str_or_list_truthy _ _ Hb), Htr
           |by apply (validate_str_or_list_truthy _ _ Hs), Htr].
Qed.

(** X10. Every record of a returned batch has its two skill lists set,
    to lists of strings that are not empty and are trimmed, wherever the
    skills came from: a section of the page, stored as one string or as
    several, or the reply of the generative model.  When the record has
    description text, none of its six description fields is missing:
    job type, work location and education are non-empty strings, pay is
    set, benefits and schedule are a non-empty string or list. *)
Theorem returned_records_filled (U : unicode_db) (env : llm_env)
    (browse : pystr -> option page) (job_urls : list pystr) :
  Forall (fun job =>
            (exists ms os,
               most_relevant_skills job = Some ms
               /\ other_relevant_skills job = Some os
               /\ Forall clean_skill ms /\ Forall clean_skill os)
            /\ (forall text,
                  job_description job = Some text -> text <> [] ->
                  (exists s, job_type job = Some s /\ s <> [])
                  /\ is_Some (pay job)
                  /\ (exists s, work_location job = Some s /\ s <> [])
                  /\ (exists s, education job = Some s /\ s <> [])
                  /\ filled (benefits job) /\ filled (schedule job)))
         (_extract_jobs_concurrent U env browse job_urls).
Proof.
  apply Forall_forall. intros job Hin. unfold _extract_jobs_concurrent in Hin.
  apply list_elem_of_omap in Hin as (url & _ & Hjob).
  unfold _extract_single_job in Hjob.
  destruct (browse url) as [pg|]; [|done].
  destruct (extract_from_page U env pg url).1 as [j|e] eqn:Hj; [|done].
  injection Hjob as ->. by apply (record_filled U env pg url).
Qed.

Lemma str_only_keys_scalar k : k ∈ str_only_keys -> k ∈ str_keys ++ list_keys.
Proof.
  unfold str_only_keys. intros Hk.
  repeat (apply elem_of_cons in Hk as [->|Hk];
          [apply (bool_decide_unpack _); vm_compute; exact I|]).
  by apply not_elem_of_nil in Hk.
Qed.

Lemma make_posting_str_only U pg job_url fr job k :
  make_posting U (posting_args_of U pg job_url fr) = Ok job ->
  k ∈ str_only_keys -> exists o, validate_opt_str (dict_get fr k) = Ok o.
Proof.
  intros Hmk Hk. pose proof Hmk as Hmk'.
  apply make_posting_Ok in Hmk as (_ & _ & _ & _ & _ & Hjt & (p & Hp & _) & _).
  apply make_posting_inv in Hmk' as (_ & _ & _ & _ & _ & _ & Hwl & _ & _ & He & _).
  cbn [posting_args_of a_job_type a_pay a_work_location a_education] in *.
  unfold str_only_keys in Hk.
  repeat (apply elem_of_cons in Hk as [->|Hk]; [by eexists|]).
  by apply not_elem_of_nil in Hk.
Qed.

(** X11. A section stored as a list under jobType, pay, workLocation or
    education costs the whole record.  The segmenter stores a section
    with several short lines as a list; the merge keeps it; the record
    declares these four fields as strings, so the constructor refuses the
    list, and [_extract_single_job] returns [None] for the page. *)
Theorem list_section_loses_record (U : unicode_db) (env : llm_env)
    (browse : pystr -> option page) (job_url : pystr) (pg : page)
    (k : pystr) (l : list value) :
  browse job_url = Some pg ->
  k ∈ str_only_keys ->
  extract_job_description_sections U pg !! k = Some (VList l) ->
  _extract_single_job U env browse job_url = None
  /\ _extract_jobs_concurrent U env browse [job_url] = [].
Proof.
  intros Hb Hk Hsec.
  assert (Hnone : _extract_single_job U env browse job_url = None).
  { destruct (_extract_single_job U env browse job_url) as [job|] eqn:Hjob; [|done].
    exfalso.
    apply extract_single_job_Some in Hjob as (pg' & fr & Hb' & Hm & Hmk).
    rewrite Hb in Hb'. injection Hb' as <-.
    destruct (make_posting_str_only U pg job_url fr job k Hmk Hk) as [o Ho].
    assert (Hget : dict_get (extract_job_description_sections U pg) k = VList l)
      by (unfold dict_get; by rewrite Hsec).
    assert (Htruthy : truthy (dict_get (extract_job_description_sections U pg) k)
                      = true).
    { destruct (sections_get_cases U pg k) as [E|Hv].
      - rewrite Hget in E. discriminate.
      - by apply section_value_truthy. }
    destruct (merged_frame_keeps_segmented U env pg k
                (str_only_keys_scalar k Hk) Htruthy) as (fr' & Hm' & Hfr).
    rewrite Hm in Hm'. injection Hm' as <-.
    rewrite Hfr, Hget in Ho. discriminate. }
  split; [exact Hnone|]. unfold _extract_jobs_concurrent. simpl. by rewrite Hnone.
Qed.

Lemma list_section_loses_record_witness :
  extract_job_description_sections ascii_db two_line_page !! py "jobType"
  = Some (VList [VStr (py "Full-time"); VStr (py "Permanent")])
  /\ _extract_single_job ascii_db no_groq (fun _ => Some two_line_page)
       (py "https://example.test/job?jl=7") = None
  /\ _extract_jobs_concurrent ascii_db no_groq (fun _ => Some two_line_page)
       [py "https://example.test/job?jl=7"] = [].
Proof.
  assert (Hsec : extract_job_description_sections ascii_db two_line_page
                   !! py "jobType"
                 = Some (VList [VStr (py "Full-time"); VStr (py "Permanent")]))
    by (vm_compute; reflexivity).
  assert (Hk : py "jobType" ∈ str_only_keys)
    by (apply (bool_decide_unpack _); vm_compute; exact I).
  split; [exact Hsec|].
  exact (list_section_loses_record ascii_db no_groq (fun _ => Some two_line_page)
           (py "https://example.test/job?jl=7") two_line_page (py "jobType") _
           eq_refl Hk Hsec).
Defined.

(** ** Nested content and repeated headers *)

Lemma get_text_only_child sep name c :
  get_text sep (Tag name [c]) = get_text sep c.
Proof. unfold get_text. simpl. by rewrite app_nil_r. Qed.

Lemma content_not_header name :
  name_in name content_names = true -> name_in name header_names = false.
Proof.
  unfold name_in. intros H. apply bool_decide_eq_true in H.
  unfold content_names in H.
  repeat (apply elem_of_cons in H as [->|H]; [vm_compute; reflexivity|]).
  by apply not_elem_of_nil in H.
Qed.

Lemma seg_step_content U {S} (store : S -> pystr -> list pystr -> S) st name cs :
  name_in name content_names = true ->
  section_open st = true ->
  nonempty (get_text [] (Tag name cs)) = true ->
  seg_step U store st (Tag name cs)
  = {| sections := sections st;
       current_section := current_section st;
       current_content := current_content st ++ [get_text [] (Tag name cs)] |}.
Proof.
  intros Hc Ho Ht. cbn [seg_step].
  rewrite (content_not_header name Hc), Hc, Ho. cbn [andb]. by rewrite Ht.
Qed.

(** X12. Text in nested content tags is collected once for each level.
    The traversal visits a block and then the blocks inside it, and takes
    the whole text of each: under an open section, a content tag (p, li,
    div) that only wraps another content tag gives the same text twice,
    so the section holds the text two times. *)
Theorem nested_content_collected_twice (U : unicode_db)
    (hname : pystr) (hkids : list node) (outer inner : pystr) (kids : list node) :
  name_in hname header_names = true ->
  Forall (fun e => inert e = true) (descendants (Tag hname hkids)) ->
  nonempty (header_key U (Tag hname hkids)) = true ->
  name_in outer content_names = true ->
  name_in inner content_names = true ->
  Forall (fun e => inert e = true) (descendants (Tag inner kids)) ->
  nonempty (get_text [] (Tag inner kids)) = true ->
  commits U (descendants
               (Tag (py "div") [Tag hname hkids; Tag outer [Tag inner kids]]))
  = [ (header_key U (Tag hname hkids),
       [get_text [] (Tag inner kids); get_text [] (Tag inner kids)]) ]
  /\ sections_of U (Tag (py "div") [Tag hname hkids; Tag outer [Tag inner kids]])
       !! header_key U (Tag hname hkids)
     = Some (_process_section_content
               [get_text [] (Tag inner kids); get_text [] (Tag inner kids)]).
Proof.
  intros Hh Hhd Hkey Ho Hi Hid Ht.
  assert (Hc : commits U (descendants
                 (Tag (py "div") [Tag hname hkids; Tag outer [Tag inner kids]]))
               = [ (header_key U (Tag hname hkids),
                    [get_text [] (Tag inner kids); get_text [] (Tag inner kids)]) ]).
  { change (descendants
              (Tag (py "div") [Tag hname hkids; Tag outer [Tag inner kids]]))
      with (Tag hname hkids :: descendants (Tag hname hkids)
            ++ Tag outer [Tag inner kids]
               :: (Tag inner kids :: descendants (Tag inner kids) ++ []) ++ []).
    rewrite !app_nil_r. unfold commits, walk.
    cbn [foldl]. rewrite (seg_step_header U log_section _ hname hkids Hh).
    rewrite foldl_app. rewrite (foldl_inert U log_section _ _ Hhd).
    cbn [foldl].
    rewrite (seg_step_content U log_section _ outer);
      [|exact Ho|unfold section_open; cbn [current_section]; exact Hkey
       |rewrite get_text_only_child; exact Ht].
    rewrite (seg_step_content U log_section _ inner);
      [|exact Hi|unfold section_open; cbn [current_section]; exact Hkey|exact Ht].
    rewrite (foldl_inert U log_section _ _ Hid).
    rewrite get_text_only_child.
    unfold save_section. cbn [current_section current_content sections app].
    rewrite Hkey. reflexivity. }
  split; [exact Hc|].
  unfold sections_of. rewrite segment_replay, Hc. unfold replay.
  cbn [foldl fst snd]. unfold store_section. apply lookup_insert_eq.
Qed.

Lemma nested_content_witness :
  sections_of ascii_db wrapped_paragraph !! py "benefits"
  = Some (VList [VStr (py "Health insurance"); VStr (py "Health insurance")])
  /\ commits ascii_db (descendants wrapped_paragraph)
     = [ (py "benefits", [py "Health insurance"; py "Health insurance"]) ].
Proof.
  destruct (nested_content_collected_twice ascii_db (py "b")
              [NavigableString (py "Benefits:")] (py "div") (py "p")
              [NavigableString (py "Health insurance")])
    as [Hc Hs]; try (vm_compute; reflexivity).
  - repeat constructor.
  - repeat constructor.
  - split.
    + etrans; [exact Hs|]. vm_compute. reflexivity.
    + etrans; [exact Hc|]. vm_compute. reflexivity.
Defined.

(** X13. When two saved sections have the same name, the later one
    replaces the earlier one: the section map holds under a key what the
    last section saved under that key gives, and nothing when no section
    was saved under it.  Headers that the table maps to one key
    ("Pay" and "Stipend", "Benefits" twice) thus leave one entry. *)
Theorem later_section_replaces_earlier (U : unicode_db) (els : list node)
    (k : pystr) :
  segment U els !! k
  = (fun kc => _process_section_content kc.2) <$> last (commits_named U els k).
Proof. rewrite segment_replay. apply replay_named. Qed.

(** ** The apply button and the logo *)

Lemma safe_extract_text_None pg sels :
  safe_extract_text pg sels None = None <-> Forall (unusable pg) sels.
Proof.
  induction sels as [|sel sels IH]; cbn [safe_extract_text].
  - split; [constructor|done].
  - rewrite Forall_cons. unfold unusable at 1.
    destruct (find_element_text pg sel) as [raw|]; cbn [fmap option_fmap option_map].
    + destruct (nonempty (strip raw)); [split; [done|by intros [? _]]|].
      rewrite IH. tauto.
    + rewrite IH. tauto.
Qed.

Lemma safe_extract_text_Some pg sels :
  is_Some (safe_extract_text pg sels None) <-> Exists (has_text pg) sels.
Proof.
  induction sels as [|sel sels IH]; cbn [safe_extract_text].
  - split; [by intros [? ?]|by intros ?%Exists_nil].
  - rewrite Exists_cons. unfold has_text at 1.
    destruct (find_element_text pg sel) as [raw|]; cbn [fmap option_fmap option_map].
    + destruct (nonempty (strip raw)) eqn:Hr.
      * split; [intros _; left; by exists raw|by eexists].
      * rewrite IH. split; [by right|].
        intros [(r & [= <-] & Hr')|H]; [congruence|done].
    + rewrite IH. split; [by right|]. by intros [(r & ? & _)|H].
Qed.

(** The attribute that is returned is that of the first locator that has
    a non-empty one. *)
Lemma safe_extract_attribute_Some pg sels a v :
  nonempty a = true ->
  safe_extract_text pg sels (Some a) = Some v <->
  v <> []
  /\ exists pre sel post,
       sels = pre ++ sel :: post
       /\ Forall (no_attribute pg a) pre
       /\ has_attribute pg a v sel.
Proof.
  intros Ha. induction sels as [|sel sels IH]; cbn [safe_extract_text].
  - split; [done|]. intros (_ & pre & sel & post & H & _). by destruct pre.
  - rewrite Ha.
    assert (Hskip : no_attribute pg a sel ->
              safe_extract_text pg sels (Some a) = Some v <->
              v <> []
              /\ exists pre sel' post,
                   sel :: sels = pre ++ sel' :: post
                   /\ Forall (no_attribute pg a) pre
                   /\ has_attribute pg a v sel').
    { intros Hno. rewrite IH. split.
      - intros (Hv & pre & sel' & post & -> & Hpre & Hsel).
        split; [done|]. exists (sel :: pre), sel', post.
        split; [done|]. split; [by constructor|done].
      - intros (Hv & pre & sel' & post & Heq & Hpre & Hsel). split; [done|].
        destruct pre as [|p pre]; cbn [app] in Heq; injection Heq as <- ->.
        + unfold no_attribute in Hno. unfold has_attribute in Hsel.
          rewrite Hsel in Hno. done.
        + apply Forall_cons in Hpre as [_ Hpre]. by exists pre, sel', post. }
    destruct (find_element_attribute pg sel a) as [[r|]|] eqn:Hf;
      cbn [mjoin option_join].
    + destruct (nonempty r) eqn:Hr.
      * apply nonempty_true in Hr. split.
        -- intros [= <-]. split; [done|]. exists [], sel, sels.
           split; [done|]. split; [constructor|exact Hf].
        -- intros (Hv & pre & sel' & post & Heq & Hpre & Hsel).
           destruct pre as [|p pre]; cbn [app] in Heq; injection Heq as <- ->.
           ++ unfold has_attribute in Hsel. rewrite Hf in Hsel. by injection Hsel as ->.
           ++ apply Forall_cons in Hpre as [Hno _]. unfold no_attribute in Hno.
              rewrite Hf in Hno. done.
      * apply Hskip. unfold no_attribute. rewrite Hf.
        destruct r; [done|discriminate Hr].
    + apply Hskip. unfold no_attribute. by rewrite Hf.
    + apply Hskip. unfold no_attribute. by rewrite Hf.
Qed.

Lemma safe_extract_attribute_None pg sels a :
  nonempty a = true ->
  safe_extract_text pg sels (Some a) = None <-> Forall (no_attribute pg a) sels.
Proof.
  intros Ha. induction sels as [|sel sels IH]; cbn [safe_extract_text].
  - split; [constructor|done].
  - rewrite Ha, Forall_cons. unfold no_attribute at 1.
    destruct (find_element_attribute pg sel a) as [[r|]|]; cbn [mjoin option_join].
    + destruct r as [|c r]; cbn [nonempty].
      * rewrite IH. tauto.
      * split; [done|]. by intros [? _].
    + rewrite IH. tauto.
    + rewrite IH. tauto.
Qed.

(** X14. The apply flag and the logo of a record.  The record has
    easy_apply set exactly when one of the locators of the apply button
    finds an element whose text is not blank: a button without text does
    not count.  Its logo is the src attribute of the first logo locator
    that has a non-empty one, as the page gives it, without trimming: the
    record has the logo [v] exactly when [v] is not empty and is the src
    under a locator before which every locator of the table finds no
    element, no src, or an empty src.  The logo is missing exactly when
    that holds of every locator. *)
Theorem apply_flag_and_logo (U : unicode_db) (env : llm_env) (pg : page)
    (job_url : pystr) (job : JobPosting) :
  (extract_from_page U env pg job_url).1 = Ok job ->
  (easy_apply job = true <-> Exists (has_text pg) (selectors_for "easy_apply"))
  /\ (forall v,
        company_logo job = Some v <->
        v <> []
        /\ exists pre sel post,
             selectors_for "company_logo" = pre ++ sel :: post
             /\ Forall (no_attribute pg (py "src")) pre
             /\ has_attribute pg (py "src") v sel)
  /\ (company_logo job = None
      <-> Forall (no_attribute pg (py "src")) (selectors_for "company_logo")).
Proof.
  intros (fr & _ & Hmk)%extract_from_page_Ok.
  apply make_posting_inv in Hmk as (_ & _ & _ & _ & He & Hl & _).
  cbn [posting_args_of a_easy_apply a_company_logo] in He, Hl.
  split; [|split].
  - rewrite He, bool_decide_eq_true. apply safe_extract_text_Some.
  - intros v. rewrite Hl.
    by apply (safe_extract_attribute_Some pg _ (py "src")).
  - rewrite Hl. by apply safe_extract_attribute_None.
Qed.

Lemma apply_flag_and_logo_witness :
  easy_apply <$> _extract_single_job ascii_db no_groq (fun _ => Some apply_page)
                   sample_url
  = Some true
  /\ company_logo <$> _extract_single_job ascii_db no_groq
                        (fun _ => Some apply_page) sample_url
     = Some (Some (py " https://example.test/logo.png"))
  /\ has_attribute apply_page (py "src") (py "https://example.test/other.png")
       (py "img[alt*='logo']").
Proof.
  unfold _extract_single_job.
  destruct (extract_from_page ascii_db no_groq apply_page sample_url).1
    as [job|e] eqn:Hex.
  - destruct (apply_flag_and_logo ascii_db no_groq apply_page sample_url job Hex)
      as (He & Hlogo & _).
    assert (Hb : Exists (has_text apply_page) (selectors_for "easy_apply")).
    { apply Exists_cons_tl, Exists_cons_hd. exists (py " Easy Apply ").
      split; vm_compute; reflexivity. }
    apply He in Hb.
    assert (Hl : company_logo job = Some (py " https://example.test/logo.png")).
    { apply Hlogo. split; [done|].
      exists [py ".EmployerProfile_profileContainer__63w3R img"],
             (py ".EmployerProfile_logo__3xqON img"), [py "img[alt*='logo']"].
      split; [vm_compute; reflexivity|]. split.
      - constructor; [|constructor]. vm_compute. exact I.
      - vm_compute. reflexivity. }
    cbn [fmap option_fmap option_map]. rewrite Hb, Hl.
    split; [done|]. split; [done|]. vm_compute. reflexivity.
  - vm_compute in Hex. discriminate Hex.
Defined.

(** ** The calls to the fallback extractors *)

(** X15. The calls to the fallback extractors for a page, exactly.  With
    no description text, or an empty one, there is no call.  Otherwise the
    regex extractor is called once for each scalar variable that the
    section map left empty, in the order jobType, pay, workLocation,
    benefits, schedule, education, and never for a skill list; then the
    generative extractor is called once if any of the eight variables is
    empty, and not at all otherwise.  So there are at most six regex calls
    and at most one generative call, the generative call being the last
    one. *)
Theorem fallback_calls_exact (U : unicode_db) (env : llm_env) (pg : page)
    (job_url : pystr) :
  (extract_from_page U env pg job_url).2
  = expected_calls (description_text pg)
      (frame_of_sections (extract_job_description_sections U pg))
  /\ (forall fr, missing_scalars fr `sublist_of` str_keys)
  /\ (forall text fr,
        (length (List.filter (fun c => match c with CallRegex _ _ => true
                                                  | CallLLM _ => false end)
                   (expected_calls text fr)) <= 6)%nat
        /\ (length (List.filter (fun c => match c with CallLLM _ => true
                                                     | CallRegex _ _ => false end)
                      (expected_calls text fr)) <= 1)%nat).
Proof.
  split; [|split].
  - unfold extract_from_page.
    pose proof (merged_frame_calls U env pg) as H.
    destruct (merged_frame U env pg) as [fr log]. exact H.
  - intros fr. unfold missing_scalars. apply filter_sublist.
  - intros text fr. unfold expected_calls.
    destruct text as [t|]; [|simpl; lia].
    destruct (nonempty t); [|simpl; lia].
    rewrite !List.filter_app, !length_app.
    assert (Hlen : (length (missing_scalars fr) <= 6)%nat).
    { unfold missing_scalars.
      etrans; [apply filter_length_le|]. reflexivity. }
    assert (H1 : List.filter (fun c => match c with CallRegex _ _ => true
                                                | CallLLM _ => false end)
                   (CallRegex t <$> missing_scalars fr)
                 = CallRegex t <$> missing_scalars fr).
    { clear Hlen. induction (missing_scalars fr) as [|k ks IH]; [done|].
      cbn [fmap list_fmap List.filter]. f_equal. exact IH. }
    assert (H2 : List.filter (fun c => match c with CallLLM _ => true
                                                | CallRegex _ _ => false end)
                   (CallRegex t <$> missing_scalars fr) = []).
    { clear Hlen H1. induction (missing_scalars fr) as [|k ks IH]; [done|].
      cbn [fmap list_fmap List.filter]. exact IH. }
    rewrite H1, H2, length_fmap.
    destruct (any_missing fr); simpl; lia.
Qed.

(** ** Collecting the job links *)

Section CollectFacts.
Context {D : Type}.
Variable find_elements : D -> pystr -> exc (list link_element).
Variable find_button : D -> pystr -> exc bool.
Variable click : D -> pystr -> exc unit * D.

Lemma listed_shown d0 h :
  listed find_elements find_button click d0 h -> shown find_elements h.
Proof.
  intros (d & sel & elements & _ & _ & Hf & pre & post & -> & _).
  exists d, sel, (pre ++ Ok (Some h) :: post). split; [done|].
  apply elem_of_app. right. by left.
Qed.

Lemma scan_elements_inv d0 num_jobs d sel all elements :
  visited find_button click d0 d -> sel ∈ job_links_selectors ->
  find_elements d sel = Ok all ->
  forall pre job_urls,
    all = pre ++ elements ->
    Forall (fun e : link_element => raises e = false) pre ->
    enough num_jobs job_urls = false ->
    collect_inv find_elements find_button click d0 num_jobs job_urls ->
    let r := scan_elements num_jobs elements job_urls in
    collect_inv find_elements find_button click d0 num_jobs r.1 /\ job_urls ⊆ r.1
    /\ (enough num_jobs r.1 = true -> r.2 = true).
Proof.
  intros Hvis Hsel Hall.
  induction elements as [|e elements IH]; intros pre job_urls Hpre Hok Hen Hinv;
    cbn [scan_elements].
  - simpl. split; [done|]. split; [done|]. congruence.
  - assert (Hpre' : all = (pre ++ [e]) ++ elements) by (by rewrite <- app_assoc).
    destruct e as [[h|]|err].
    + assert (Hok' : Forall (fun e : link_element => raises e = false)
                       (pre ++ [Ok (Some h)]))
        by (apply Forall_app; split; [done|by constructor]).
      destruct (nonempty h && negb (bool_decide (h ∈ job_urls))) eqn:Hnew;
        [|by apply (IH (pre ++ [Ok (Some h)]))].
      apply andb_true_iff in Hnew as [Hne Hnin].
      apply negb_true_iff, bool_decide_eq_false in Hnin.
      assert (Hinv' : collect_inv find_elements find_button click d0 num_jobs
                        ({[h]} ∪ job_urls)).
      { destruct Hinv as [Hsize Hlinks]. split.
        - rewrite size_union by (by apply disjoint_singleton_l).
          rewrite size_singleton.
          unfold enough in Hen. apply Z.leb_gt in Hen. lia.
        - intros h' [->%elem_of_singleton|Hin]%elem_of_union; [|by apply Hlinks].
          split; [by apply nonempty_true|].
          exists d, sel, all. split; [done|]. split; [done|]. split; [done|].
          by exists pre, elements. }
      destruct (enough num_jobs ({[h]} ∪ job_urls)) eqn:Hen'.
      * simpl. split; [done|]. split; [apply union_subseteq_r|done].
      * destruct (IH (pre ++ [Ok (Some h)]) ({[h]} ∪ job_urls) Hpre' Hok' Hen' Hinv')
          as (H1 & H2 & H3).
        split; [done|]. split; [|done].
        etrans; [apply union_subseteq_r|exact H2].
    + apply (IH (pre ++ [Ok None])); try done.
      apply Forall_app; split; [done|by constructor].
    + simpl. split; [done|]. split; [done|]. congruence.
Qed.

Lemma scan_selectors_inv d0 num_jobs d sels :
  visited find_button click d0 d ->
  (forall sel, sel ∈ sels -> sel ∈ job_links_selectors) ->
  forall job_urls found,
    enough num_jobs job_urls = false ->
    collect_inv find_elements find_button click d0 num_jobs job_urls ->
    let r := scan_selectors find_elements num_jobs d sels job_urls found in
    collect_inv find_elements find_button click d0 num_jobs r.1 /\ job_urls ⊆ r.1.
Proof.
  intros Hvis.
  induction sels as [|sel sels IH]; intros Hsels job_urls found Hen Hinv;
    cbn [scan_selectors]; [done|].
  assert (Hsel : sel ∈ job_links_selectors) by (apply Hsels; by left).
  assert (Hsels' : forall sel', sel' ∈ sels -> sel' ∈ job_links_selectors)
    by (intros sel' Hin; apply Hsels; by right).
  destruct (find_elements d sel) as [elements|err] eqn:Hf; [|by apply IH].
  destruct (scan_elements_inv d0 num_jobs d sel elements elements Hvis Hsel Hf
              [] job_urls eq_refl ltac:(constructor) Hen Hinv) as (H1 & H2 & H3).
  destruct (scan_elements num_jobs elements job_urls) as [urls' completed].
  simpl in H1, H2, H3.
  destruct (enough num_jobs urls') eqn:Hen'.
  - rewrite H3 by done. done.
  - destruct completed.
    + destruct (IH Hsels' urls' true Hen' H1) as [? ?]. split; [done|by etrans].
    + destruct (IH Hsels' urls' found Hen' H1) as [? ?]. split; [done|by etrans].
Qed.

Lemma collect_loop_inv d0 num_jobs fuel :
  forall d job_urls r,
    visited find_button click d0 d ->
    collect_inv find_elements find_button click d0 num_jobs job_urls ->
    collect_loop find_elements find_button click fuel num_jobs d job_urls = Some r ->
    collect_inv find_elements find_button click d0 num_jobs r /\ job_urls ⊆ r.
Proof.
  induction fuel as [|fuel IH]; intros d job_urls r Hvis Hinv; cbn [collect_loop];
    destruct (enough num_jobs job_urls) eqn:Hen.
  { by intros [= <-]. }
  { done. }
  { by intros [= <-]. }
  destruct (scan_selectors_inv d0 num_jobs d job_links_selectors Hvis
              ltac:(done) job_urls false Hen Hinv) as [H1 H2].
  destruct (scan_selectors find_elements num_jobs d job_links_selectors
              job_urls false) as [urls' found].
  simpl in H1, H2.
  destruct (negb found || enough num_jobs urls'); [by intros [= <-]|].
  destruct (click_load_more find_button click d load_more_selectors)
    as [clicked d'] eqn:Hclick.
  destruct clicked; [|by intros [= <-]].
  intros Hr.
  destruct (IH d' urls' r (visited_next _ _ _ _ _ Hvis Hclick) H1 Hr) as [? ?].
  split; [done|by etrans].
Qed.

(** More rounds do not change a result. *)
Lemma collect_loop_more_fuel num_jobs fuel :
  forall d job_urls r extra,
    collect_loop find_elements find_button click fuel num_jobs d job_urls = Some r ->
    collect_loop find_elements find_button click (fuel + extra) num_jobs d job_urls
    = Some r.
Proof.
  induction fuel as [|fuel IH]; intros d job_urls r extra.
  - cbn [collect_loop]. destruct (enough num_jobs job_urls) eqn:Hen; [|done].
    intros [= <-]. destruct extra; cbn [Nat.add collect_loop]; by rewrite Hen.
  - cbn [Nat.add collect_loop]. destruct (enough num_jobs job_urls); [done|].
    destruct (scan_selectors find_elements num_jobs d job_links_selectors
                job_urls false) as [urls' found].
    destruct (negb found || enough num_jobs urls'); [done|].
    destruct (click_load_more find_button click d load_more_selectors)
      as [clicked d'].
    destruct clicked; [|done]. apply IH.
Qed.

(** The loop ends when every click on a "load more" button uses up
    something: [budget] bounds the clicks that are left. *)
Lemma collect_loop_ends (budget : D -> nat) num_jobs :
  (forall d d',
     click_load_more find_button click d load_more_selectors = (true, d') ->
     (budget d' < budget d)%nat) ->
  forall fuel d job_urls,
    (budget d < fuel)%nat ->
    is_Some (collect_loop find_elements find_button click fuel num_jobs d job_urls).
Proof.
  intros Hbudget. induction fuel as [|fuel IH]; intros d job_urls Hfuel; [lia|].
  cbn [collect_loop]. destruct (enough num_jobs job_urls); [by eexists|].
  destruct (scan_selectors find_elements num_jobs d job_links_selectors
              job_urls false) as [urls' found].
  destruct (negb found || enough num_jobs urls'); [by eexists|].
  destruct (click_load_more find_button click d load_more_selectors)
    as [clicked d'] eqn:Hc.
  destruct clicked; [|by eexists].
  apply IH. specialize (Hbudget d d' Hc). lia.
Qed.

(** The loop does not end when the page keeps its button and never shows
    enough links. *)
Lemma collect_loop_stuck num_jobs d :
  (forall job_urls,
     enough num_jobs job_urls = false ->
     (scan_selectors find_elements num_jobs d job_links_selectors job_urls false).2
     = true
     /\ enough num_jobs
          (scan_selectors find_elements num_jobs d job_links_selectors
             job_urls false).1 = false) ->
  click_load_more find_button click d load_more_selectors = (true, d) ->
  forall fuel job_urls,
    enough num_jobs job_urls = false ->
    collect_loop find_elements find_button click fuel num_jobs d job_urls = None.
Proof.
  intros Hscan Hclick. induction fuel as [|fuel IH]; intros job_urls Hen;
    cbn [collect_loop]; rewrite Hen; [done|].
  destruct (Hscan job_urls Hen) as [Hfound Hen'].
  destruct (scan_selectors find_elements num_jobs d job_links_selectors
              job_urls false) as [urls' found].
  simpl in Hfound, Hen'. rewrite Hfound, Hen', Hclick. cbn [negb orb].
  by apply IH.
Qed.
End CollectFacts.

Lemma py_slice_to_all {A} (n : Z) (l : list A) :
  (Z.of_nat (length l) <= Z.max 0 n)%Z -> py_slice_to n l = l.
Proof.
  intros H. unfold py_slice_to. destruct (0 <=? n)%Z eqn:Hn.
  - apply Z.leb_le in Hn. apply take_ge. lia.
  - apply Z.leb_gt in Hn. assert (length l = 0%nat) as Hl by lia.
    destruct l; [by rewrite take_nil|done].
Qed.

Lemma collect_inv_empty {D} (find_elements : D -> pystr -> exc (list link_element))
    (find_button : D -> pystr -> exc bool) (click : D -> pystr -> exc unit * D)
    d0 num_jobs :
  collect_inv find_elements find_button click d0 num_jobs ∅.
Proof.
  split; [rewrite size_empty; lia|]. intros h Hh. by apply not_elem_of_empty in Hh.
Qed.

(** X16. The links that [_collect_job_urls] returns.  When every click
    on a "load more" button uses up a budget of the page, the loop ends
    within budget + 1 rounds, and more rounds give the same list.  The
    list has no duplicates and at most [num_jobs] links (none for
    [num_jobs <= 0]); each link is a non-empty href of an element that a
    locator of the job links found: a locator of the table [job_links],
    asked in the state the loop started in or in one that its clicks on a
    "load more" button left, and an element before which none of the list
    raised.  The final slice drops nothing: the list is the whole set that
    the loop collected, in the order in which the set is listed. *)
Theorem collected_links {D} (find_elements : D -> pystr -> exc (list link_element))
    (find_button : D -> pystr -> exc bool) (click : D -> pystr -> exc unit * D)
    (order : gset pystr -> list pystr) (budget : D -> nat)
    (d : D) (num_jobs : Z) :
  (forall s, order s ≡ₚ elements s) ->
  (forall d d',
     click_load_more find_button click d load_more_selectors = (true, d') ->
     (budget d' < budget d)%nat) ->
  exists job_urls links,
    collect_loop find_elements find_button click (S (budget d)) num_jobs d ∅
    = Some job_urls
    /\ (forall extra,
          _collect_job_urls find_elements find_button click order
            (S (budget d) + extra) d num_jobs = Some links)
    /\ links = order job_urls
    /\ NoDup links
    /\ (Z.of_nat (length links) <= Z.max 0 num_jobs)%Z
    /\ Forall (fun h => h <> [] /\ listed find_elements find_button click d h)
         links.
Proof.
  intros Horder Hbudget.
  destruct (collect_loop_ends find_elements find_button click budget num_jobs
              Hbudget (S (budget d)) d ∅ ltac:(lia)) as [job_urls Hloop].
  destruct (collect_loop_inv find_elements find_button click d num_jobs _ d ∅
              job_urls (visited_first _ _ _)
              (collect_inv_empty find_elements find_button click d num_jobs) Hloop)
    as [[Hsize Hlinks] _].
  assert (Hlen : length (order job_urls) = size job_urls).
  { rewrite (Permutation_length (Horder job_urls)). done. }
  exists job_urls, (order job_urls). split; [exact Hloop|]. split; [|split; [done|]].
  - intros extra. unfold _collect_job_urls.
    rewrite (collect_loop_more_fuel find_elements find_button click num_jobs
               _ d ∅ job_urls extra Hloop).
    cbn [mbind option_bind]. f_equal. apply py_slice_to_all. by rewrite Hlen.
  - split; [|split].
    + rewrite (Horder job_urls). apply NoDup_elements.
    + by rewrite Hlen.
    + apply Forall_forall. intros h Hh. apply Hlinks.
      rewrite (Horder job_urls) in Hh. by apply elem_of_elements in Hh.
Qed.

Lemma collected_links_witness :
  length <$> _collect_job_urls three_links_find no_button next_click
               (elements : gset pystr -> list pystr) 1 () 2
  = Some 2%nat
  /\ exists job_urls links,
       collect_loop three_links_find no_button next_click 1 2 () ∅
       = Some job_urls
       /\ (forall extra,
             _collect_job_urls three_links_find no_button next_click
               (elements : gset pystr -> list pystr) (1 + extra) () 2
             = Some links)
       /\ links = elements job_urls
       /\ NoDup links
       /\ (Z.of_nat (length links) <= Z.max 0 2)%Z
       /\ Forall (fun h => h <> []
                           /\ listed three_links_find no_button next_click () h)
            links.
Proof.
  split; [vm_compute; reflexivity|].
  apply (collected_links three_links_find no_button next_click
           (elements : gset pystr -> list pystr) (fun _ => 0%nat) () 2).
  - done.
  - intros d d' H. vm_compute in H. discriminate H.
Defined.

(** X17. The loop of [_collect_job_urls] has no bound of its own.  On a
    page that never shows enough links, where a locator of the job links
    answers and a "load more" button stays clickable and leaves the page
    as it is, the loop does not end, however many rounds it is given. *)
Theorem collect_never_ends {D} (find_elements : D -> pystr -> exc (list link_element))
    (find_button : D -> pystr -> exc bool) (click : D -> pystr -> exc unit * D)
    (order : gset pystr -> list pystr) (d : D) (num_jobs : Z) :
  (0 < num_jobs)%Z ->
  (forall job_urls,
     enough num_jobs job_urls = false ->
     (scan_selectors find_elements num_jobs d job_links_selectors job_urls false).2
     = true
     /\ enough num_jobs
          (scan_selectors find_elements num_jobs d job_links_selectors
             job_urls false).1 = false) ->
  click_load_more find_button click d load_more_selectors = (true, d) ->
  forall fuel,
    _collect_job_urls find_elements find_button click order fuel d num_jobs = None.
Proof.
  intros Hpos Hscan Hclick fuel. unfold _collect_job_urls.
  rewrite (collect_loop_stuck find_elements find_button click num_jobs d
             Hscan Hclick fuel ∅); [done|].
  unfold enough. rewrite size_empty. apply Z.leb_gt. lia.
Qed.

Lemma collect_never_ends_witness :
  _collect_job_urls empty_results_find next_button next_click
    (elements : gset pystr -> list pystr) 1000 () 5
  = None.
Proof.
  apply (collect_never_ends empty_results_find next_button next_click
           (elements : gset pystr -> list pystr) () 5).
  - lia.
  - intros job_urls Hen. cbn [scan_selectors job_links_selectors empty_results_find
                              scan_elements fst snd].
    rewrite Hen. done.
  - vm_compute. reflexivity.
Defined.

(** ** The two regex extractors *)

Lemma lookup_insert_congr (m1 m2 : gmap pystr regex) i x k :
  m1 !! k = m2 !! k -> <[i := x]> m1 !! k = <[i := x]> m2 !! k.
Proof. intros H. rewrite !lookup_insert. by destruct (decide (i = k)). Qed.

(** The table of the older script is that of the class with two more
    entries, for the skill lists. *)
Lemma legacy_patterns_lookup field :
  field ∉ list_keys -> Legacy.patterns !! field = patterns !! field.
Proof.
  intros Hf. unfold Legacy.patterns, patterns.
  rewrite !list_to_map_cons. cbn [fst snd].
  do 6 apply lookup_insert_congr.
  rewrite !lookup_insert_ne; [done| |].
  - intros <-. apply Hf. apply (bool_decide_unpack _). vm_compute. exact I.
  - intros <-. apply Hf. apply (bool_decide_unpack _). vm_compute. exact I.
Qed.

Lemma patterns_skill_keys field : field ∈ list_keys -> patterns !! field = None.
Proof.
  unfold list_keys. intros Hf.
  repeat (apply elem_of_cons in Hf as [->|Hf]; [vm_compute; reflexivity|]).
  by apply not_elem_of_nil in Hf.
Qed.

(** X18. The regex extractor of the class and the function of the older
    script return the same value for every text and every field but the
    two skill lists: their tables hold the same six patterns, and they
    search and trim in the same way.  For the skill lists only the older
    script has a pattern: the extractor of the class returns nothing, the
    older function searches for the rest of the line after the label. *)
Theorem regex_extractors_agree (U : unicode_db) (text field : pystr) :
  (field ∉ list_keys ->
   Legacy.extract_field_by_regex U text field
   = extract_with_regex_fallback U text field)
  /\ (field ∈ list_keys -> extract_with_regex_fallback U text field = None)
  /\ Legacy.extract_field_by_regex U text (py "mostRelevantSkills")
     = (if nonempty text
        then first_group_trimmed U (labelled_pattern "Most Relevant Skills") text
        else None)
  /\ Legacy.extract_field_by_regex U text (py "otherRelevantSkills")
     = (if nonempty text
        then first_group_trimmed U (labelled_pattern "Other Relevant Skills") text
        else None).
Proof.
  split; [|split; [|split]].
  - intros Hf. unfold Legacy.extract_field_by_regex, extract_with_regex_fallback.
    rewrite (legacy_patterns_lookup field Hf).
    destruct (patterns !! field) as [pattern|]; destruct (nonempty text); done.
  - intros Hf. unfold extract_with_regex_fallback.
    rewrite (patterns_skill_keys field Hf). by destruct (nonempty text).
  - unfold Legacy.extract_field_by_regex, first_group_trimmed.
    change (Legacy.patterns !! py "mostRelevantSkills")
      with (Some (labelled_pattern "Most Relevant Skills")).
    destruct (nonempty text); [|done]. cbn [negb].
    by destruct (re_search U re_IGNORECASE _ text).
  - unfold Legacy.extract_field_by_regex, first_group_trimmed.
    change (Legacy.patterns !! py "otherRelevantSkills")
      with (Some (labelled_pattern "Other Relevant Skills")).
    destruct (nonempty text); [|done]. cbn [negb].
    by destruct (re_search U re_IGNORECASE _ text).
Qed.

(** ** What a pattern can consume *)

Lemma rmatch_lang U fl {A} (r : regex) :
  forall prev s caps (k : option N -> pystr -> captures -> option A) x,
    rmatch U fl r prev s caps k = Some x ->
    exists w s' p' c', s = w ++ s' /\ lang U fl r w /\ k p' s' c' = Some x.
Proof.
  induction r as [c| |neg items| | |r1 IH1 r2 IH2|r1 IH1 r2 IH2|r1 IH1|r1 IH1|i r1 IH1];
    intros prev s caps k x; cbn [rmatch].
  - destruct s as [|t s']; [done|]. destruct (char_test U fl c t) eqn:Ht; [|done].
    intros H. exists [t], s', (Some t), caps. split; [done|]. split; [by constructor|done].
  - destruct s as [|t s']; [done|].
    destruct (DOTALL fl || negb (t =? 10)) eqn:Ht; [|done].
    intros H. exists [t], s', (Some t), caps. split; [done|]. split; [by constructor|done].
  - destruct s as [|t s']; [done|].
    destruct (set_test U fl neg items t) eqn:Ht; [|done].
    intros H. exists [t], s', (Some t), caps. split; [done|]. split; [by constructor|done].
  - destruct (xorb _ _); [|done]. intros H.
    exists [], s, prev, caps. split; [done|]. split; [constructor|done].
  - intros H. exists [], s, prev, caps. split; [done|]. split; [constructor|done].
  - intros H. apply IH1 in H as (w1 & s1 & p1 & c1 & -> & Hw1 & H).
    apply IH2 in H as (w2 & s2 & p2 & c2 & -> & Hw2 & H).
    exists (w1 ++ w2), s2, p2, c2. split; [by rewrite app_assoc|].
    split; [by constructor|done].
  - destruct (rmatch U fl r1 prev s caps k) as [y|] eqn:H1.
    + intros [= ->]. apply IH1 in H1 as (w & s' & p' & c' & -> & Hw & H).
      exists w, s', p', c'. split; [done|]. split; [by apply lang_alt_l|done].
    + intros H. apply IH2 in H as (w & s' & p' & c' & -> & Hw & H).
      exists w, s', p', c'. split; [done|]. split; [by apply lang_alt_r|done].
  - destruct (rmatch U fl r1 prev s caps k) as [y|] eqn:H1.
    + intros [= ->]. apply IH1 in H1 as (w & s' & p' & c' & -> & Hw & H).
      exists w, s', p', c'. split; [done|]. split; [by apply lang_opt_some|done].
    + intros H. exists [], s, prev, caps. split; [done|].
      split; [apply lang_opt_none|done].
  - generalize (S (length s)). intros fuel. revert prev s caps.
    induction fuel as [|fuel IHf]; intros prev s caps; cbn [star_loop].
    + intros H. exists [], s, prev, caps. split; [done|].
      split; [apply lang_star_nil|done].
    + match goal with
      | |- context [rmatch U fl r1 prev s caps ?k1] =>
          destruct (rmatch U fl r1 prev s caps k1) as [y|] eqn:H1
      end.
      * intros [= ->]. apply IH1 in H1 as (w1 & s1 & p1 & c1 & -> & Hw1 & H1).
        destruct (length s1 <? length (w1 ++ s1))%nat; [|done].
        apply IHf in H1 as (w2 & s2 & p2 & c2 & -> & Hw2 & H).
        exists (w1 ++ w2), s2, p2, c2. split; [by rewrite app_assoc|].
        split; [by apply lang_star_cons|done].
      * intros H. exists [], s, prev, caps. split; [done|].
        split; [apply lang_star_nil|done].
  - intros H. apply IH1 in H as (w & s' & p' & c' & -> & Hw & H).
    exists w, s', p', ((i, take (length (w ++ s') - length s') (w ++ s')) :: c').
    split; [done|]. split; [by constructor|done].
Qed.

(** A group hands the word it consumed to what follows. *)
Lemma rmatch_group U fl {A} i body prev s caps
    (k : option N -> pystr -> captures -> option A) x :
  rmatch U fl (RGroup i body) prev s caps k = Some x ->
  exists w s' p' c',
    s = w ++ s' /\ lang U fl body w /\ k p' s' ((i, w) :: c') = Some x.
Proof.
  cbn [rmatch]. intros H.
  apply rmatch_lang in H as (w & s' & p' & c' & -> & Hw & H).
  exists w, s', p', c'. split; [done|]. split; [done|].
  rewrite length_app in H.
  replace (length w + length s' - length s')%nat with (length w) in H by lia.
  by rewrite take_app_length in H.
Qed.

Lemma keeps_group1_boundary U fl k :
  keeps_group1 k ->
  keeps_group1 (fun p s c => rmatch U fl RBoundary p s c k).
Proof.
  intros Hk p s c m. cbn [rmatch]. destruct (xorb _ _); [apply Hk|done].
Qed.

Lemma rmatch_group1 U fl r body :
  group1_at r body ->
  forall prev s caps k m,
    keeps_group1 k ->
    rmatch U fl r prev s caps k = Some m ->
    exists w rest, group 1 m = Some w /\ lang U fl body w
                   /\ (w ++ rest) `suffix_of` s.
Proof.
  induction 1 as [body|r1 r2 body Hg IH|r1 body Hg IH]; intros prev s caps k m Hk H.
  - apply rmatch_group in H as (w & s' & p' & c' & -> & Hw & H).
    exists w, s'. split; [|done]. by rewrite (Hk _ _ _ _ H).
  - rewrite rmatch_seq in H.
    apply rmatch_inv in H as (p1 & s1 & c1 & Hs1 & H).
    destruct (IH _ _ _ _ _ Hk H) as (w & rest & Hgw & Hw & Hsuf).
    exists w, rest. split; [done|]. split; [done|by etrans].
  - rewrite rmatch_seq in H.
    apply (IH _ _ _ _ _ (keeps_group1_boundary U fl k Hk)) in H. exact H.
Qed.

Lemma match_at_group1 U fl r body prev s m :
  group1_at r body ->
  match_at U fl r prev s = Some m ->
  exists w rest, group 1 m = Some w /\ lang U fl body w
                 /\ (w ++ rest) `suffix_of` s.
Proof.
  intros Hg. unfold match_at.
  change (rmatch U fl (RGroup 0 r) prev s [] ?k)
    with (rmatch U fl r prev s []
            (fun p' s' c' => k p' s' ((0%nat, take (length s - length s') s) :: c'))).
  apply (rmatch_group1 U fl r body Hg). by intros p s' c m' [= <-].
Qed.

(** The first group of a search is a word of its body, and a substring
    of the text. *)
Lemma re_search_group1 U fl r body s m :
  group1_at r body ->
  re_search U fl r s = Some m ->
  exists w, group 1 m = Some w /\ lang U fl body w
            /\ exists pre post, s = pre ++ w ++ post.
Proof.
  intros Hg. unfold re_search. generalize (@None N). revert m.
  assert (Hat : forall prev s m,
            match_at U fl r prev s = Some m ->
            exists w, group 1 m = Some w /\ lang U fl body w
                      /\ exists pre post, s = pre ++ w ++ post).
  { intros prev s' m Hm.
    apply (match_at_group1 U fl r body) in Hm as (w & rest & Hgw & Hw & [pre Hs]);
      [|done].
    exists w. split; [done|]. split; [done|]. exists pre, rest.
    by rewrite Hs. }
  induction s as [|t s IH]; intros m prev; cbn [search_from].
  - destruct (match_at U fl r prev []) as [m'|] eqn:Hm; [|done].
    intros [= ->]. by apply Hat in Hm.
  - destruct (match_at U fl r prev (t :: s)) as [m'|] eqn:Hm.
    + intros [= ->]. by apply Hat in Hm.
    + intros H. apply IH in H as (w & Hgw & Hw & pre & post & ->).
      exists w. split; [done|]. split; [done|]. by exists (t :: pre), post.
Qed.

(** [.+] without [re.DOTALL]: a non-empty word without a line feed. *)
Lemma lang_star_any U w :
  lang U re_IGNORECASE (RStar RAny) w -> 10 ∉ w.
Proof.
  intros H. remember (RStar RAny) as r eqn:Hr.
  induction H as [| | | | | | | | | | |r0 w1 w2 H1 _ H2 IH2|]; try discriminate.
  - apply not_elem_of_nil.
  - injection Hr as ->. inversion H1 as [|t Ht| | | | | | | | | | |]; subst.
    simpl in Ht. apply negb_true_iff, N.eqb_neq in Ht.
    intros [E|Hin]%elem_of_cons; [by subst|]. by apply IH2.
Qed.

Lemma lang_plus_any U w :
  lang U re_IGNORECASE (RPlus RAny) w -> w <> [] /\ 10 ∉ w.
Proof.
  unfold RPlus. intros H.
  inversion H as [| | | | |r1 r2 w1 w2 H1 H2| | | | | | |]; subst.
  inversion H1 as [|t Ht| | | | | | | | | | |]; subst.
  simpl in Ht. apply negb_true_iff, N.eqb_neq in Ht.
  split; [done|]. intros [E|Hin]%elem_of_cons; [by subst|].
  by apply (lang_star_any U w2).
Qed.

Lemma labelled_group1 label : group1_at (labelled_pattern label) (RPlus RAny).
Proof.
  unfold labelled_pattern, rest_of_line. cbn [rseq].
  do 3 apply group1_after. apply group1_here.
Qed.

Lemma strip_infix s : exists pre post, s = pre ++ strip s ++ post.
Proof.
  unfold strip. destruct (lstrip_suffix s) as [pre E].
  destruct (rstrip_prefix (lstrip s)) as [post E'].
  exists pre, post. by rewrite <- E', <- E.
Qed.

(** The trimmed first group of a search for a labelled pattern. *)
Lemma labelled_value_one_line U label text v :
  first_group_trimmed U (labelled_pattern label) text = Some v ->
  (10 ∉ v) /\ exists pre post, text = pre ++ v ++ post.
Proof.
  unfold first_group_trimmed. intros H.
  destruct (re_search U re_IGNORECASE (labelled_pattern label) text) as [m|] eqn:Hm;
    [|done].
  cbn [mbind option_bind] in H.
  apply (re_search_group1 U _ _ _ _ _ (labelled_group1 label)) in Hm
    as (w & Hgw & Hw & pre & post & ->).
  rewrite Hgw in H. injection H as <-.
  apply lang_plus_any in Hw as [_ Hnl].
  destruct (strip_infix w) as (a & b & Hs). split.
  - intros Hin. apply Hnl. rewrite Hs. apply elem_of_app. right.
    apply elem_of_app. by left.
  - exists (pre ++ a), (b ++ post). rewrite Hs at 1.
    by rewrite <- !app_assoc.
Qed.

Lemma line_fields_patterns k label :
  (k, label) ∈ line_fields -> patterns !! k = Some (labelled_pattern label).
Proof.
  unfold line_fields. intros H.
  repeat (apply elem_of_cons in H as [[= -> ->]|H]; [vm_compute; reflexivity|]).
  by apply not_elem_of_nil in H.
Qed.

Lemma legacy_line_fields_patterns k label :
  (k, label) ∈ legacy_line_fields ->
  Legacy.patterns !! k = Some (labelled_pattern label).
Proof.
  unfold legacy_line_fields, line_fields. cbn [app]. intros H.
  repeat (apply elem_of_cons in H as [[= -> ->]|H]; [vm_compute; reflexivity|]).
  by apply not_elem_of_nil in H.
Qed.

(** X19. A value that a regex extractor returns for benefits, schedule or
    education, and in the older script also for the two skill lists, is on
    one line: it holds no line feed, and it is a substring of the
    description text.  Whatever follows the label on later lines is not
    part of it. *)
Theorem labelled_values_are_one_line (U : unicode_db) (text v : pystr)
    (k : pystr) (label : string) :
  ((k, label) ∈ line_fields ->
   extract_with_regex_fallback U text k = Some v ->
   (10 ∉ v) /\ exists pre post, text = pre ++ v ++ post)
  /\ ((k, label) ∈ legacy_line_fields ->
      Legacy.extract_field_by_regex U text k = Some v ->
      (10 ∉ v) /\ exists pre post, text = pre ++ v ++ post).
Proof.
  split.
  - intros Hk. unfold extract_with_regex_fallback.
    rewrite (line_fields_patterns k label Hk).
    destruct (negb (nonempty text)); [done|]. intros H.
    apply (labelled_value_one_line U label). unfold first_group_trimmed.
    by destruct (re_search U re_IGNORECASE (labelled_pattern label) text).
  - intros Hk. unfold Legacy.extract_field_by_regex.
    rewrite (legacy_line_fields_patterns k label Hk).
    destruct (negb (nonempty text)); [done|]. intros H.
    apply (labelled_value_one_line U label). unfold first_group_trimmed.
    by destruct (re_search U re_IGNORECASE (labelled_pattern label) text).
Qed.

(** ** The job types the regex extractor can return *)

Lemma lang_chars U fl (l : pystr) :
  forall w, lang U fl (rseq (map RChar l)) w ->
            Forall2 (fun c t => char_test U fl c t = true) l w.
Proof.
  induction l as [|c l IH]; intros w H.
  - inversion H; subst. constructor.
  - destruct l as [|c' l].
    + inversion H; subst. by repeat constructor.
    + change (rseq (map RChar (c :: c' :: l)))
        with (RSeq (RChar c) (rseq (map RChar (c' :: l)))) in H.
      inversion H as [| | | | |r1 r2 w1 w2 H1 H2| | | | | | |]; subst.
      inversion H1; subst. constructor; [done|]. by apply IH.
Qed.

Lemma lang_lit U (s : string) w :
  lang U re_IGNORECASE (lit s) w -> ieq_word U (py s) w.
Proof. apply lang_chars. Qed.

Lemma lang_hyphen_or_space U w :
  lang U re_IGNORECASE (ROpt (RSet false [CChar 45; CChar 32])) w ->
  w = [] \/ ieq_word U [45] w \/ ieq_word U [32] w.
Proof.
  intros H. inversion H as [| | | | | | | |r|r w' H'| | |]; subst; [by left|].
  inversion H' as [| |neg items t Ht| | | | | | | | | |]; subst. right.
  unfold set_test in Ht. cbn [existsb item_test xorb] in Ht.
  rewrite orb_false_r in Ht. apply orb_true_iff in Ht as [Ht|Ht].
  - left. by repeat constructor.
  - right. by repeat constructor.
Qed.

Lemma lang_compound U (a b : string) w :
  lang U re_IGNORECASE
    (rseq [lit a; ROpt (RSet false [CChar 45; CChar 32]); lit b]) w ->
  ieq_word U (py a ++ py b) w
  \/ ieq_word U (py a ++ [45] ++ py b) w
  \/ ieq_word U (py a ++ [32] ++ py b) w.
Proof.
  cbn [rseq]. intros H.
  inversion H as [| | | | |r1 r2 w1 w23 H1 H23| | | | | | |]; subst.
  inversion H23 as [| | | | |r1 r2 w2 w3 H2 H3| | | | | | |]; subst.
  apply lang_lit in H1, H3.
  destruct (lang_hyphen_or_space U w2 H2) as [->|[Hh|Hs]].
  - left. by apply Forall2_app.
  - right; left. by repeat apply Forall2_app.
  - right; right. by repeat apply Forall2_app.
Qed.

Lemma job_type_body_forms U w :
  lang U re_IGNORECASE job_type_body w ->
  exists form, form ∈ job_type_forms /\ ieq_word U form w.
Proof.
  unfold job_type_body. cbn [ralt]. intros H.
  assert (Hin : forall n form, job_type_forms !! n = Some form ->
                               form ∈ job_type_forms)
    by (intros n form; apply list_elem_of_lookup_2).
  inversion H as [| | | | | |r1 r2 w' H1|r1 r2 w' H2| | | | |]; subst.
  { destruct (lang_compound U "full" "time" w H1) as [Hw|[Hw|Hw]].
    - exists (py "fulltime"). split; [by apply (Hin 0%nat)|exact Hw].
    - exists (py "full-time"). split; [by apply (Hin 1%nat)|exact Hw].
    - exists (py "full time"). split; [by apply (Hin 2%nat)|exact Hw]. }
  inversion H2 as [| | | | | |r1 r2 w' H1|r1 r2 w' H3| | | | |]; subst.
  { destruct (lang_compound U "part" "time" w H1) as [Hw|[Hw|Hw]].
    - exists (py "parttime"). split; [by apply (Hin 3%nat)|exact Hw].
    - exists (py "part-time"). split; [by apply (Hin 4%nat)|exact Hw].
    - exists (py "part time"). split; [by apply (Hin 5%nat)|exact Hw]. }
  inversion H3 as [| | | | | |r1 r2 w' H1|r1 r2 w' H4| | | | |]; subst.
  { exists (py "contract"). split; [by apply (Hin 6%nat)|by apply lang_lit]. }
  inversion H4 as [| | | | | |r1 r2 w' H1|r1 r2 w' H5| | | | |]; subst.
  { exists (py "internship"). split; [by apply (Hin 7%nat)|by apply lang_lit]. }
  exists (py "temporary"). split; [by apply (Hin 8%nat)|by apply lang_lit].
Qed.

Lemma job_type_group1 : group1_at jobType_pattern job_type_body.
Proof.
  unfold jobType_pattern, job_type_body. cbn [rseq].
  apply group1_after, group1_boundary, group1_here.
Qed.

(** On ASCII characters [re.IGNORECASE] compares the lower-case forms. *)
Lemma ieq_ascii U c t :
  plain_lower c -> is_ascii t = true ->
  char_test U re_IGNORECASE c t = true -> ascii_lower t = c.
Proof.
  intros [Hc Hl] Ht. unfold char_test. cbn [IGNORECASE re_IGNORECASE].
  unfold char_ieq. rewrite Hc, Ht. cbn [andb].
  intros [E|E]%orb_true_iff; apply N.eqb_eq in E; congruence.
Qed.

Lemma ieq_word_ascii U form w :
  Forall plain_lower form -> forallb is_ascii w = true ->
  ieq_word U form w -> map ascii_lower w = form.
Proof.
  intros Hf Hw H. revert Hf Hw.
  induction H as [|c t form w Hct _ IH]; intros Hf Hw; [done|].
  apply Forall_cons in Hf as [Hc Hf]. cbn [forallb] in Hw.
  apply andb_true_iff in Hw as [Ht Hw]. cbn [map].
  rewrite (ieq_ascii U c t Hc Ht Hct). f_equal. by apply IH.
Qed.

Lemma space_not_upper t : is_space t = true -> ascii_lower t = t.
Proof.
  intros H. unfold ascii_lower.
  destruct ((65 <=? t) && (t <=? 90)) eqn:E; [|done]. exfalso.
  apply andb_true_iff in E as [E1%N.leb_le E2%N.leb_le].
  unfold is_space in H.
  rewrite !orb_true_iff, !andb_true_iff, !N.leb_le, !N.eqb_eq in H. lia.
Qed.

Lemma no_lead_lower w : no_lead (map ascii_lower w) -> no_lead w.
Proof.
  destruct w as [|t w]; [done|]. cbn [map no_lead]. intros H.
  destruct (is_space t) eqn:Ht; [|done].
  by rewrite (space_not_upper t Ht), Ht in H.
Qed.

Lemma lower_reverse w : map ascii_lower (reverse w) = reverse (map ascii_lower w).
Proof.
  induction w as [|t w IH]; [done|].
  cbn [map]. by rewrite !reverse_cons, map_app, IH.
Qed.

Lemma job_type_forms_plain form :
  form ∈ job_type_forms ->
  Forall plain_lower form /\ no_lead form /\ no_lead (reverse form).
Proof.
  unfold job_type_forms. intros H.
  repeat (apply elem_of_cons in H as [->|H];
          [split; [|split]; [repeat constructor| |]; vm_compute; reflexivity|]).
  by apply not_elem_of_nil in H.
Qed.

Lemma forallb_infix (p : N -> bool) (pre w post : pystr) :
  forallb p (pre ++ w ++ post) = true -> forallb p w = true.
Proof.
  rewrite !forallb_app. by intros [_ [? _]%andb_true_iff]%andb_true_iff.
Qed.

(** The first group of a search for the job type pattern, trimmed. *)
Lemma job_type_value U text v :
  first_group_trimmed U jobType_pattern text = Some v ->
  (exists form w, form ∈ job_type_forms /\ ieq_word U form w /\ v = strip w)
  /\ (forallb is_ascii text = true ->
      str_lower U v ∈ job_type_forms
      /\ exists pre post, text = pre ++ v ++ post).
Proof.
  unfold first_group_trimmed. intros H.
  destruct (re_search U re_IGNORECASE jobType_pattern text) as [m|] eqn:Hm; [|done].
  cbn [mbind option_bind] in H.
  apply (re_search_group1 U _ _ _ _ _ job_type_group1) in Hm
    as (w & Hgw & Hw & pre & post & Htext).
  rewrite Hgw in H. injection H as <-.
  apply job_type_body_forms in Hw as (form & Hform & Hieq).
  split; [by exists form, w|].
  intros Hascii. rewrite Htext in Hascii. apply forallb_infix in Hascii.
  destruct (job_type_forms_plain form Hform) as (Hplain & Hl & Hr).
  pose proof (ieq_word_ascii U form w Hplain Hascii Hieq) as Hlow.
  assert (Hstrip : strip w = w).
  { unfold strip. rewrite lstrip_fixed.
    - apply rstrip_fixed, no_lead_lower. by rewrite lower_reverse, Hlow.
    - apply no_lead_lower. by rewrite Hlow. }
  rewrite Hstrip. split; [|by exists pre, post].
  unfold str_lower. by rewrite Hascii, Hlow.
Qed.

(** X20. The job type that a regex extractor returns.  In either script
    the value is one of nine forms up to case: fulltime, full-time, full
    time, parttime, part-time, part time, contract, internship, temporary.
    On ASCII text its lower-case form is one of the nine, and it is a
    substring of the text, as written there. *)
Theorem regex_job_type_forms (U : unicode_db) (text v : pystr) :
  extract_with_regex_fallback U text (py "jobType") = Some v
  \/ Legacy.extract_field_by_regex U text (py "jobType") = Some v ->
  (exists form w, form ∈ job_type_forms /\ ieq_word U form w /\ v = strip w)
  /\ (forallb is_ascii text = true ->
      str_lower U v ∈ job_type_forms
      /\ exists pre post, text = pre ++ v ++ post).
Proof.
  intros H. apply job_type_value. unfold first_group_trimmed.
  destruct H as [H|H]; revert H.
  - unfold extract_with_regex_fallback.
    change (patterns !! py "jobType") with (Some jobType_pattern).
    destruct (negb (nonempty text)); [done|].
    by destruct (re_search U re_IGNORECASE jobType_pattern text).
  - unfold Legacy.extract_field_by_regex.
    change (Legacy.patterns !! py "jobType") with (Some jobType_pattern).
    destruct (negb (nonempty text)); [done|].
    by destruct (re_search U re_IGNORECASE jobType_pattern text).
Qed.

Lemma regex_job_type_forms_witness :
  extract_with_regex_fallback ascii_db (py "We offer a Full-Time role.")
    (py "jobType") = Some (py "Full-Time")
  /\ str_lower ascii_db (py "Full-Time") ∈ job_type_forms.
Proof.
  assert (H : extract_with_regex_fallback ascii_db (py "We offer a Full-Time role.")
                (py "jobType") = Some (py "Full-Time"))
    by (vm_compute; reflexivity).
  split; [exact H|].
  destruct (regex_job_type_forms ascii_db (py "We offer a Full-Time role.")
              (py "Full-Time") (or_introl H)) as [_ Hascii].
  apply Hascii. vm_compute. reflexivity.
Defined.

(** ** The whole run *)

Lemma retry_loop_Some {A} (func : nat -> browser_error + A) retries a :
  forall remaining attempt delay,
    outcome (retry_loop func true retries attempt remaining delay) = Ok (Some a) ->
    exists i, (i < remaining)%nat
              /\ (forall j, (j < i)%nat -> exists e, func (attempt + j)%nat = inl e)
              /\ func (attempt + i)%nat = inr a.
Proof.
  induction remaining as [|rem IH]; intros attempt delay; cbn [retry_loop]; [done|].
  destruct (func attempt) as [e|a'] eqn:Hf.
  - destruct (attempt =? retries - 1)%nat; [done|].
    destruct (time_sleep (retry_strategies (determine_retry_strategy e) delay));
      [|done].
    cbn [outcome].
    intros H. apply IH in H as (i & Hi & Hfail & Hok).
    exists (S i). split; [lia|]. split.
    + intros j Hj. destruct j as [|j].
      * exists e. by rewrite Nat.add_0_r.
      * destruct (Hfail j ltac:(lia)) as [e' He']. exists e'.
        by rewrite <- Nat.add_succ_comm.
    + by rewrite <- Nat.add_succ_comm.
  - cbn [outcome]. intros [= <-]. exists 0%nat. split; [lia|]. split.
    + intros j Hj. lia.
    + by rewrite Nat.add_0_r.
Qed.

Lemma collect_job_urls_result {D}
    (find_elements : D -> pystr -> exc (list link_element))
    (find_button : D -> pystr -> exc bool) (click : D -> pystr -> exc unit * D)
    (order : gset pystr -> list pystr) fuel d num_jobs links :
  (forall s, order s ≡ₚ elements s) ->
  _collect_job_urls find_elements find_button click order fuel d num_jobs
  = Some links ->
  NoDup links
  /\ (Z.of_nat (length links) <= Z.max 0 num_jobs)%Z
  /\ Forall (fun h => h <> [] /\ shown find_elements h) links.
Proof.
  intros Horder. unfold _collect_job_urls.
  destruct (collect_loop find_elements find_button click fuel num_jobs d ∅)
    as [job_urls|] eqn:Hloop; [|done].
  cbn [mbind option_bind]. intros [= <-].
  destruct (collect_loop_inv find_elements find_button click d num_jobs _ d ∅
              job_urls (visited_first _ _ _)
              (collect_inv_empty find_elements find_button click d num_jobs) Hloop)
    as [[Hsize Hlinks] _].
  assert (Hlen : length (order job_urls) = size job_urls)
    by (by rewrite (Permutation_length (Horder job_urls))).
  rewrite py_slice_to_all by (by rewrite Hlen).
  split; [|split].
  - rewrite (Horder job_urls). apply NoDup_elements.
  - by rewrite Hlen.
  - apply Forall_forall. intros h Hh.
    rewrite (Horder job_urls) in Hh. apply elem_of_elements in Hh.
    destruct (Hlinks h Hh) as [Hne Hl]. split; [done|].
    by apply (listed_shown find_elements find_button click d).
Qed.

Lemma batch_urls_sublist U env browse (job_urls : list pystr) :
  (jd_url <$> _extract_jobs_concurrent U env browse job_urls)
    `sublist_of` (Some <$> job_urls).
Proof.
  unfold _extract_jobs_concurrent.
  induction job_urls as [|url l IH]; [done|].
  rewrite fmap_cons. cbn [omap list_omap].
  destruct (_extract_single_job U env browse url) as [job|] eqn:Hj.
  - apply extract_single_job_ids in Hj as (Hu & _).
    rewrite fmap_cons, Hu. by apply sublist_skip.
  - by apply sublist_cons.
Qed.

(** X21. A whole run of [scrape_jobs], once the browser has started.
    When the three calls of the search all raise, the run ends with the
    [RuntimeError] of [_perform_search].  When the run returns, one of
    the three calls of the search had returned; the metadata count is the
    number of records and the requested number is the one given; there
    are at most [num_jobs] records, none for [num_jobs <= 0]; no two
    records have the same jd_url; and each record has a non-empty title
    and, as jd_url, a non-empty link that the results page showed and
    whose page loaded. *)
Theorem scrape_jobs_end_to_end (U : unicode_db) (env : llm_env)
    (browse : pystr -> option page) {D}
    (find_elements : D -> pystr -> exc (list link_element))
    (find_button : D -> pystr -> exc bool) (click : D -> pystr -> exc unit * D)
    (order : gset pystr -> list pystr)
    (search_action : nat -> browser_error + D) (fuel : nat) (num_jobs : Z) :
  (forall s, order s ≡ₚ elements s) ->
  (all_raise search_action max_retries ->
   scrape_jobs U env browse find_elements find_button click order true
     search_action fuel num_jobs = Some (inl RuntimeError))
  /\ (forall r,
        scrape_jobs U env browse find_elements find_button click order true
          search_action fuel num_jobs = Some (inr r) ->
        (exists i d, (i < max_retries)%nat /\ all_raise search_action i
                     /\ search_action i = inr d)
        /\ scraped_count r = length (scraped_jobs r)
        /\ requested_jobs r = num_jobs
        /\ (Z.of_nat (length (scraped_jobs r)) <= Z.max 0 num_jobs)%Z
        /\ NoDup (jd_url <$> scraped_jobs r)
        /\ Forall (fun job =>
                     title job <> []
                     /\ exists url, jd_url job = Some url /\ url <> []
                                    /\ shown find_elements url
                                    /\ is_Some (browse url))
                  (scraped_jobs r)).
Proof.
  intros Horder. split.
  - intros Hfail. unfold scrape_jobs, _perform_search, safe_execute_with_retry.
    destruct (retry_loop_exhausted search_action max_retries max_retries 0%nat
                retry_delay eq_refl) as (Hout & _).
    { unfold retry_delay. lia. }
    { vm_compute. discriminate. }
    { intros j Hj. by apply Hfail. }
    by rewrite Hout.
  - intros r. unfold scrape_jobs, _perform_search, safe_execute_with_retry.
    destruct (outcome (retry_loop search_action true max_retries 0 max_retries
                         retry_delay)) as [[d|]|e] eqn:Hout; try done.
    destruct (_collect_job_urls find_elements find_button click order fuel d
                num_jobs) as [links|] eqn:Hlinks; [|done].
    cbn [mbind option_bind]. intros [= <-]. cbn [scraped_jobs scraped_count
                                                 requested_jobs].
    apply retry_loop_Some in Hout as (i & Hi & Hfail & Hok).
    destruct (collect_job_urls_result find_elements find_button click order
                fuel d num_jobs links Horder Hlinks) as (Hnd & Hlen & Hall).
    pose proof (batch_urls_sublist U env browse links) as Hsub.
    split; [by exists i, d|]. split; [done|]. split; [done|]. split; [|split].
    + apply sublist_length in Hsub. rewrite !length_fmap in Hsub. lia.
    + eapply sublist_NoDup; [|exact Hsub]. apply NoDup_fmap_2; [|done].
      by intros x y [= ->].
    + apply Forall_forall. intros job Hin. unfold _extract_jobs_concurrent in Hin.
      apply list_elem_of_omap in Hin as (url & Hurl & Hjob).
      pose proof Hjob as Hjob'.
      apply extract_single_job_ids in Hjob as (Hjd & _ & Hb).
      apply extract_single_job_Some in Hjob' as (pg & fr & _ & _ & Hmk).
      apply make_posting_Ok in Hmk as (_ & Hne & _).
      rewrite Forall_forall in Hall. destruct (Hall url Hurl) as [Hu Hs].
      split; [done|]. by exists url.
Qed.

Lemma scrape_jobs_witness :
  match scrape_jobs ascii_db no_groq toy_browse three_links_find no_button
          next_click (elements : gset pystr -> list pystr) true slow_search 1 2 with
  | Some (inr r) =>
      title <$> scraped_jobs r = [py "Data Engineer"]
      /\ scraped_count r = 1%nat
      /\ (Z.of_nat (length (scraped_jobs r)) <= Z.max 0 2)%Z
      /\ NoDup (jd_url <$> scraped_jobs r)
  | _ => False
  end.
Proof.
  destruct (scrape_jobs ascii_db no_groq toy_browse three_links_find no_button
              next_click (elements : gset pystr -> list pystr) true slow_search 1 2)
    as [[e|r]|] eqn:Hrun.
  - vm_compute in Hrun. discriminate Hrun.
  - destruct (scrape_jobs_end_to_end ascii_db no_groq toy_browse three_links_find
                no_button next_click (elements : gset pystr -> list pystr)
                slow_search 1 2 ltac:(done)) as [_ Hret].
    destruct (Hret r Hrun) as (_ & Hc & _ & Hlen & Hnd & _).
    assert (Ht : match scrape_jobs ascii_db no_groq toy_browse three_links_find
                         no_button next_click
                         (elements : gset pystr -> list pystr) true slow_search 1 2
                 with
                 | Some (inr r') => title <$> scraped_jobs r'
                 | _ => []
                 end = [py "Data Engineer"]) by (vm_compute; reflexivity).
    rewrite Hrun in Ht. split; [exact Ht|]. split; [|by split].
    rewrite Hc. apply (f_equal length) in Ht. by rewrite length_fmap in Ht.
  - vm_compute in Hrun. discriminate Hrun.
Defined.

(** ** The job id in the older script *)

Lemma lang_star_digits U w :
  lang U no_flags (RStar (RSet false [CDigit])) w ->
  Forall (fun c => is_decimal U c = true) w.
Proof.
  intros H. remember (RStar (RSet false [CDigit])) as r eqn:Hr.
  induction H as [| | | | | | | | | | |r0 w1 w2 H1 _ H2 IH2|]; try discriminate.
  - constructor.
  - injection Hr as ->. inversion H1 as [| |neg items t Ht| | | | | | | | | |]; subst.
    rewrite digit_set_test in Ht. constructor; [done|]. by apply IH2.
Qed.

Lemma lang_digits U w :
  lang U no_flags digits w -> w <> [] /\ Forall (fun c => is_decimal U c = true) w.
Proof.
  unfold digits, RPlus. intros H.
  inversion H as [| | | | |r1 r2 w1 w2 H1 H2| | | | | | |]; subst.
  inversion H1 as [| |neg items t Ht| | | | | | | | | |]; subst.
  rewrite digit_set_test in Ht. split; [done|].
  constructor; [done|]. by apply lang_star_digits.
Qed.

Lemma prefixed_digits_group1 (prefix : string) :
  group1_at (rseq [lit prefix; RGroup 1 digits]) digits.
Proof. cbn [rseq]. apply group1_after, group1_here. Qed.

Lemma search_prefixed_digits U (prefix : string) s m :
  re_search U no_flags (rseq [lit prefix; RGroup 1 digits]) s = Some m ->
  exists id, group 1 m = Some id /\ digits_of U s id.
Proof.
  intros H.
  apply (re_search_group1 U _ _ _ _ _ (prefixed_digits_group1 prefix)) in H
    as (w & Hg & Hw & Hinfix).
  apply lang_digits in Hw as [Hne Hall]. by exists w.
Qed.

Lemma job_id_pattern_digits : job_id_pattern = rseq [lit "jl="; RGroup 1 digits].
Proof. reflexivity. Qed.

(** X22. The job id of the older script.  It is the id that the newer
    script reads from the URL whenever the URL has one; the page source is
    searched only when the URL has none, first for "job-title-" and then
    for "jlid=".  Whichever pattern gives it, the id is a non-empty run of
    decimal digits, found in the URL or in the page source. *)
Theorem legacy_job_id_digits (U : unicode_db) (job_url page_source : pystr) :
  (forall id, job_id_of U job_url = Some id ->
              legacy_job_id U job_url page_source = Some id)
  /\ (job_id_of U job_url = None ->
      legacy_job_id U job_url page_source
      = match re_search U no_flags job_title_id_pattern page_source with
        | Some m => group 1 m
        | None => re_search U no_flags jlid_pattern page_source ≫= group 1
        end)
  /\ (forall id, legacy_job_id U job_url page_source = Some id ->
                 digits_of U job_url id \/ digits_of U page_source id).
Proof.
  unfold legacy_job_id, job_id_of. split; [|split].
  - intros id.
    destruct (re_search U no_flags job_id_pattern job_url) as [m|]; [done|].
    discriminate.
  - destruct (re_search U no_flags job_id_pattern job_url) as [m|] eqn:Hm.
    + rewrite job_id_pattern_digits in Hm.
      apply search_prefixed_digits in Hm as (id & Hg & _).
      cbn [mbind option_bind]. rewrite Hg. discriminate.
    + intros _.
      by destruct (re_search U no_flags job_title_id_pattern page_source).
  - intros id.
    destruct (re_search U no_flags job_id_pattern job_url) as [m|] eqn:Hm.
    { rewrite job_id_pattern_digits in Hm.
      apply search_prefixed_digits in Hm as (id' & Hg & Hd).
      cbn [mbind option_bind]. rewrite Hg. intros [= <-]. by left. }
    destruct (re_search U no_flags job_title_id_pattern page_source) as [m|] eqn:Hm2.
    { apply search_prefixed_digits in Hm2 as (id' & Hg & Hd).
      cbn [mbind option_bind]. rewrite Hg. intros [= <-]. by right. }
    destruct (re_search U no_flags jlid_pattern page_source) as [m|] eqn:Hm3; [|done].
    apply search_prefixed_digits in Hm3 as (id' & Hg & Hd).
    cbn [mbind option_bind]. rewrite Hg. intros [= <-]. by right.
Qed.

Example legacy_job_id_from_page :
  legacy_job_id ascii_db (py "https://example.test/partner/job-listing")
    (py "<h1 id='jd-job-title-1009871'>Data Engineer</h1> jlid=5")
  = Some (py "1009871").
Proof. vm_compute. reflexivity. Qed.

(** ** The loop of the older script *)

Section LegacyLoopFacts.
Context {D J : Type}.
Variable find_links : D -> exc (list link_element).
Variable visit : D -> pystr -> exc (J * D).
Variable load_more : D -> option D.
Variable jdURL : J -> pystr.
(** The dictionary has the URL it was read from under ['jdURL']. *)
Hypothesis visit_url :
  forall d job_url job d', visit d job_url = Ok (job, d') -> jdURL job = job_url.

Lemma legacy_new_links_spec elems :
  forall seen job_links seen',
    legacy_new_links elems seen = Ok (job_links, seen') ->
    NoDup job_links
    /\ seen ⊆ seen'
    /\ Forall (fun h => h <> [] /\ (h ∉ seen) /\ (h ∈ seen')) job_links.
Proof.
  induction elems as [|e elems IH]; intros seen job_links seen';
    cbn [legacy_new_links].
  - intros [= <- <-]. split; [constructor|]. split; [done|constructor].
  - destruct e as [[h|]|err]; [| |done].
    + destruct (nonempty h && negb (bool_decide (h ∈ seen))) eqn:Hnew.
      * apply andb_true_iff in Hnew as [Hne Hnin].
        apply negb_true_iff, bool_decide_eq_false in Hnin.
        destruct (legacy_new_links elems ({[h]} ∪ seen)) as [[l s]|err] eqn:Hrec;
          [|done].
        intros [= <- <-].
        destruct (IH _ _ _ Hrec) as (Hnd & Hsub & Hall).
        assert (Hh : h ∈ s).
        { apply Hsub, elem_of_union. left. by apply elem_of_singleton. }
        split; [|split].
        -- constructor; [|done]. intros Hin.
           rewrite Forall_forall in Hall. destruct (Hall h Hin) as (_ & Hn & _).
           apply Hn, elem_of_union. left. by apply elem_of_singleton.
        -- etrans; [|exact Hsub]. apply union_subseteq_r.
        -- constructor; [split; [by apply nonempty_true|by split]|].
           eapply Forall_impl; [exact Hall|]. intros x (? & Hn & ?).
           split; [done|]. split; [|done].
           intros Hx. apply Hn, elem_of_union. by right.
      * apply IH.
    + apply IH.
Qed.

Lemma visit_links_spec job_links :
  forall d jobs jobs' d',
    visit_links visit d job_links jobs = Ok (jobs', d') ->
    exists added, jobs' = jobs ++ added /\ jdURL <$> added = job_links.
Proof.
  induction job_links as [|url rest IH]; intros d jobs jobs' d'; cbn [visit_links].
  - intros [= <- <-]. exists []. by rewrite app_nil_r.
  - destruct (visit d url) as [[job d1]|err] eqn:Hv; [|done].
    intros H. apply IH in H as (added & -> & Hurls).
    exists (job :: added). split; [by rewrite <- app_assoc|].
    rewrite fmap_cons, Hurls. f_equal. by eapply visit_url.
Qed.

Lemma py_slice_to_sublist {A} (n : Z) (l : list A) :
  (0 <= n)%Z ->
  py_slice_to n l `sublist_of` l /\ (Z.of_nat (length (py_slice_to n l)) <= n)%Z.
Proof.
  intros Hn. unfold py_slice_to.
  assert ((0 <=? n)%Z = true) as -> by (by apply Z.leb_le).
  split; [apply sublist_take|]. rewrite length_take. lia.
Qed.

Lemma legacy_round_inv num_jobs jobs seen job_links seen' d jobs' d' :
  legacy_inv jdURL num_jobs jobs seen ->
  (Z.of_nat (length jobs) < num_jobs)%Z ->
  NoDup job_links ->
  seen ⊆ seen' ->
  Forall (fun h => h <> [] /\ (h ∉ seen) /\ (h ∈ seen')) job_links ->
  visit_links visit d
    (py_slice_to (num_jobs - Z.of_nat (length jobs)) job_links) jobs
  = Ok (jobs', d') ->
  legacy_inv jdURL num_jobs jobs' seen'.
Proof.
  intros (Hlen & Hnd & Hall) Hlt Hndl Hsub Hlinks Hv.
  destruct (py_slice_to_sublist (num_jobs - Z.of_nat (length jobs)) job_links)
    as [Hsl Hsllen]; [lia|].
  apply visit_links_spec in Hv as (added & -> & Hurls).
  assert (Hadded : Forall (fun h => h <> [] /\ (h ∉ seen) /\ (h ∈ seen'))
                     (jdURL <$> added)).
  { rewrite Hurls. apply Forall_forall. intros h Hh.
    rewrite Forall_forall in Hlinks. apply Hlinks.
    by eapply elem_of_sublist. }
  split; [|split].
  - rewrite length_app. rewrite <- (length_fmap jdURL added), Hurls. rewrite Nat2Z.inj_add.
    etrans; [apply Z.add_le_mono_l, Hsllen|]. lia.
  - rewrite fmap_app. apply NoDup_app. split; [done|]. split.
    + intros h Hh Hh'. rewrite Forall_forall in Hadded.
      destruct (Hadded h Hh') as (_ & Hn & _). apply Hn.
      apply list_elem_of_fmap in Hh as (j & -> & Hj).
      rewrite Forall_forall in Hall. by apply Hall.
    + rewrite Hurls. by eapply sublist_NoDup.
  - apply Forall_app. split.
    + eapply Forall_impl; [exact Hall|]. intros j [? ?]. split; [done|].
      by apply Hsub.
    + apply Forall_forall. intros j Hj. rewrite Forall_forall in Hadded.
      destruct (Hadded (jdURL j)) as (? & _ & ?); [|done].
      apply list_elem_of_fmap. by exists j.
Qed.

Lemma legacy_loop_inv num_jobs fuel :
  forall d jobs seen r,
    legacy_inv jdURL num_jobs jobs seen ->
    legacy_loop find_links visit load_more fuel num_jobs d jobs seen = Some (Ok r) ->
    exists seen', legacy_inv jdURL num_jobs r seen'
                  /\ exists added, r = jobs ++ added.
Proof.
  induction fuel as [|fuel IH]; intros d jobs seen r Hinv; cbn [legacy_loop];
    destruct (Z.of_nat (length jobs) <? num_jobs)%Z eqn:Hlt.
  { done. }
  { intros [= <-]. exists seen. split; [done|]. exists []. by rewrite app_nil_r. }
  2:{ intros [= <-]. exists seen. split; [done|]. exists []. by rewrite app_nil_r. }
  apply Z.ltb_lt in Hlt.
  destruct (find_links d) as [elems|err]; [|done].
  destruct (legacy_new_links elems seen) as [[job_links seen']|err] eqn:Hnew; [|done].
  apply legacy_new_links_spec in Hnew as (Hnd & Hsub & Hlinks).
  destruct (visit_links visit d _ jobs) as [[jobs' d']|err] eqn:Hv; [|done].
  pose proof (legacy_round_inv num_jobs jobs seen job_links seen' d jobs' d'
                Hinv Hlt Hnd Hsub Hlinks Hv) as Hinv'.
  apply visit_links_spec in Hv as (added & -> & _).
  destruct (num_jobs <=? Z.of_nat (length (jobs ++ added)))%Z.
  { intros [= <-]. exists seen'. split; [done|]. by exists added. }
  destruct (load_more d') as [d''|].
  - intros H. apply (IH _ _ _ _ Hinv') in H as (s & Hs & added' & ->).
    exists s. split; [done|]. exists (added ++ added'). by rewrite app_assoc.
  - intros [= <-]. exists seen'. split; [done|]. by exists added.
Qed.

(** The loop ends when every visit and every click uses up a budget of
    the browser. *)
Lemma legacy_loop_ends (budget : D -> nat) num_jobs :
  (forall d url job d', visit d url = Ok (job, d') -> (budget d' <= budget d)%nat) ->
  (forall d d', load_more d = Some d' -> (budget d' < budget d)%nat) ->
  forall fuel d jobs seen,
    (budget d < fuel)%nat ->
    is_Some (legacy_loop find_links visit load_more fuel num_jobs d jobs seen).
Proof.
  intros Hvisit Hmore.
  assert (Hvl : forall links d jobs jobs' d',
            visit_links visit d links jobs = Ok (jobs', d') ->
            (budget d' <= budget d)%nat).
  { induction links as [|url rest IHl]; intros d jobs jobs' d'; cbn [visit_links].
    - by intros [= _ <-].
    - destruct (visit d url) as [[job d1]|err] eqn:Hv; [|done].
      intros H. apply IHl in H. specialize (Hvisit _ _ _ _ Hv). lia. }
  induction fuel as [|fuel IH]; intros d jobs seen Hfuel; [lia|].
  cbn [legacy_loop]. destruct (Z.of_nat (length jobs) <? num_jobs)%Z; [|by eexists].
  destruct (find_links d) as [elems|err]; [|by eexists].
  destruct (legacy_new_links elems seen) as [[job_links seen']|err]; [|by eexists].
  destruct (visit_links visit d _ jobs) as [[jobs' d']|err] eqn:Hv; [|by eexists].
  destruct (num_jobs <=? Z.of_nat (length jobs'))%Z; [by eexists|].
  destruct (load_more d') as [d''|] eqn:Hm; [|by eexists].
  apply IH. specialize (Hvl _ _ _ _ _ Hv). specialize (Hmore _ _ Hm). lia.
Qed.
End LegacyLoopFacts.

(** X23. The list of jobs of the older script.  When every visit of a
    job page and every click on "load-more" uses up a budget of the
    browser, the loop ends within budget + 1 rounds, by returning or by
    the exception of a browser call, which is not caught.  When it
    returns, the list has at most [num_jobs] dictionaries (none for
    [num_jobs <= 0]), no two with the same jdURL, and every jdURL is a
    non-empty link. *)
Theorem legacy_jobs_bounded {D J} (find_links : D -> exc (list link_element))
    (visit : D -> pystr -> exc (J * D)) (load_more : D -> option D)
    (jdURL : J -> pystr) (budget : D -> nat) (d : D) (num_jobs : Z) :
  (forall d job_url job d', visit d job_url = Ok (job, d') -> jdURL job = job_url) ->
  (forall d url job d', visit d url = Ok (job, d') -> (budget d' <= budget d)%nat) ->
  (forall d d', load_more d = Some d' -> (budget d' < budget d)%nat) ->
  is_Some (scrape_with_selenium_jobs find_links visit load_more (S (budget d))
             d num_jobs)
  /\ (forall fuel jobs,
        scrape_with_selenium_jobs find_links visit load_more fuel d num_jobs
        = Some (Ok jobs) ->
        (Z.of_nat (length jobs) <= Z.max 0 num_jobs)%Z
        /\ NoDup (jdURL <$> jobs)
        /\ Forall (fun j => jdURL j <> []) jobs)
  /\ (forall e fuel,
        find_links d = Raise e -> (0 < num_jobs)%Z ->
        scrape_with_selenium_jobs find_links visit load_more (S fuel) d num_jobs
        = Some (Raise e)).
Proof.
  intros Hurl Hvisit Hmore. split; [|split].
  - apply (legacy_loop_ends find_links visit load_more budget num_jobs Hvisit Hmore).
    lia.
  - intros fuel jobs Hrun. unfold scrape_with_selenium_jobs in Hrun.
    assert (Hinit : legacy_inv jdURL num_jobs ([] : list J) ∅).
    { split; [simpl; lia|]. split; [constructor|constructor]. }
    destruct (legacy_loop_inv find_links visit load_more jdURL Hurl num_jobs fuel
                d [] ∅ jobs Hinit Hrun) as (seen & (Hlen & Hnd & Hall) & _).
    split; [done|]. split; [done|].
    eapply Forall_impl; [exact Hall|]. by intros j [? _].
  - intros e fuel He Hpos. unfold scrape_with_selenium_jobs. cbn [legacy_loop length].
    assert ((Z.of_nat 0 <? num_jobs)%Z = true) as -> by (apply Z.ltb_lt; lia).
    by rewrite He.
Qed.

Lemma legacy_jobs_bounded_witness :
  scrape_with_selenium_jobs three_links visit_any no_load_more 1 () 2
  = Some (Ok [ py "https://example.test/job?jl=1";
               py "https://example.test/job?jl=2" ])
  /\ is_Some (scrape_with_selenium_jobs three_links visit_any no_load_more 1 () 2).
Proof.
  split; [vm_compute; reflexivity|].
  apply (legacy_jobs_bounded three_links visit_any no_load_more id
           (fun _ => 0%nat) () 2).
  - intros d url job d' H. unfold visit_any in H. by injection H as <- _.
  - intros d url job d' _. lia.
  - intros d d' H. discriminate H.
Defined.
